(** * Looper: a shallow embedding of the sandboxed executor, the streaming
    adapters and the agent loop.

    The Go sources are embedded function by function: [pkg/sandbox]
    (process sandbox, deny-list, output cap, child environment, Python
    wrapper), [pkg/llm] (message types and the two streaming adapters) and
    [pkg/agent] (conversation context and the agent loop).

    Go strings are byte strings and are modelled by [string]; [[]byte] is
    [list byte]; [int]/[int64] are [Z]; Go maps are [gmap]s; slices are
    lists.  The small, fixed pieces of Go's standard library the code
    relies on ([regexp.QuoteMeta], the class [\s], base64, the regular
    expressions the deny-list builds) are written out.  What belongs to the
    operating system or needs tables that are not part of the repository
    (the parent environment, process execution, Unicode case folding and
    trimming, JSON parsing, the iteration order of maps) is a parameter of
    the definitions that use it. *)

From Stdlib Require Import String Ascii List ZArith Lia Bool.
From Stdlib.Strings Require Import Byte.
From stdpp Require Import base tactics option list strings gmap.

Import ListNotations.
Local Open Scope Z_scope.

(** ** Go basics *)

(** Two's complement wrap-around of a 64-bit signed integer. *)
Definition int64_wrap (z : Z) : Z := (z + 2 ^ 63) mod 2 ^ 64 - 2 ^ 63.

Definition int64_range (z : Z) : Prop := - 2 ^ 63 <= z < 2 ^ 63.

(** [len(p)] of a slice, as an [int]. *)
Definition len {A} (p : list A) : Z := Z.of_nat (length p).

(** [p[:n]] for [0 <= n <= len(p)]. *)
Definition slice_to {A} (p : list A) (n : Z) : list A := take (Z.to_nat n) p.

(** The line feed and the double quote, as bytes and as one-byte strings. *)
Definition newline : ascii := "010"%char.
Definition dquote : ascii := "034"%char.
Definition nl : string := String newline EmptyString.
Definition dq : string := String dquote EmptyString.

(** ** pkg/sandbox: the output cap *)

Module LimitedWriter.

(** [io.Writer]: a write consumes a byte slice and reports how many bytes
    it took and an optional error. *)
Class Writer (W : Type) := {
  Write : W -> list byte -> W * Z * option string
}.

(** [bytes.Buffer]: appends everything and never fails. *)
Record Buffer := { buf_bytes : list byte }.

#[global] Instance Buffer_Writer : Writer Buffer := {
  Write b p := ({| buf_bytes := buf_bytes b ++ p |}, len p, None)
}.

(** [type limitedWriter struct { w io.Writer; limit int64; written int64 }] *)
Record limitedWriter (W : Type) := {
  w : W;
  limit : Z;
  written : Z
}.
Arguments w {W} _.
Arguments limit {W} _.
Arguments written {W} _.

(** [func (lw *limitedWriter) Write(p []byte) (n int, err error)].
    The receiver is returned updated.  Note that [p] is re-assigned to its
    truncation before [len(p)] is returned. *)
Definition limitedWriter_Write {W} `{Writer W} (lw : limitedWriter W) (p : list byte)
  : limitedWriter W * Z * option string :=
  if limit lw <=? written lw then
    (lw, len p, None)
  else
    let remaining := int64_wrap (limit lw - written lw) in
    let p := if remaining <? len p then slice_to p remaining else p in
    let '(w', n, err) := Write (w lw) p in
    ({| w := w'; limit := limit lw; written := int64_wrap (written lw + n) |},
     len p, err).

#[global] Instance limitedWriter_Writer {W} `{Writer W} : Writer (limitedWriter W) := {
  Write := limitedWriter_Write
}.

(** A fresh capped buffer, as [runCommand] builds one per stream. *)
Definition newCapture (cap : Z) : limitedWriter Buffer :=
  {| w := {| buf_bytes := [] |}; limit := cap; written := 0 |}.

(** What the copier of [os/exec] does with the chunks a child produces, as
    far as the buffer is concerned: each chunk is handed to [Write]. *)
Fixpoint writeAll {W} `{Writer W} (lw : limitedWriter W) (chunks : list (list byte))
  : limitedWriter W :=
  match chunks with
  | [] => lw
  | p :: rest => writeAll (limitedWriter_Write lw p).1.1 rest
  end.

Definition captured (lw : limitedWriter Buffer) : list byte := buf_bytes (w lw).

End LimitedWriter.

(** ** pkg/sandbox: configuration, results and the host *)

Module Sandbox.
Import LimitedWriter.

(** [type Config struct] of pkg/sandbox. [Timeout] is a [time.Duration]
    (nanoseconds). *)
Record Config := {
  WorkingDir : string;
  Timeout : Z;
  AllowedEnv : list string;
  CustomEnv : gmap string string;
  MaxOutputBytes : Z;
  CommandBlacklist : list string
}.

(** [type ExecutionResult struct]; unset fields are Go's zero values. *)
Record ExecutionResult := {
  Stdout : string;
  Stderr : string;
  ExitCode : Z;
  Duration : Z;
  TimedOut : bool
}.

(** The errors the sandbox returns, one constructor per [fmt.Errorf] site.
    [ErrBlacklisted p] is ["%w: matches pattern %q"] wrapping
    [ErrBlacklistedCommand]. *)
Inductive error :=
| ErrBlacklisted (pattern : string)
| ErrInvalidWorkingDir (cause : string)
| ErrExecutionFailed (cause : string)
| ErrCreateTemp (cause : string)
| ErrWriteScript (cause : string).

Inductive outcome (A : Type) :=
| Ok (a : A)
| Err (e : error).
Arguments Ok {A} _.
Arguments Err {A} _.

(** [errors.Is(err, ErrBlacklistedCommand)] *)
Definition isBlacklistError (e : error) : bool :=
  match e with ErrBlacklisted _ => true | _ => false end.

(** [*exec.Cmd] as far as the sandbox fills it in; [Deadline] is the
    timeout attached to the context the command was created with. *)
Record Cmd := {
  Path : string;
  Args : list string;
  Dir : string;
  Env : list string;
  Deadline : option Z
}.

(** What [cmd.Run()] returned. *)
Inductive RunError :=
| RunNil
| RunExitError (code : Z)
| RunOther (msg : string).

(** [ctx.Err()] read after the run. *)
Inductive CtxErr :=
| CtxNil
| CtxCanceled
| CtxDeadlineExceeded.

(** One run of a child process as the sandbox observes it: the byte slices
    handed to the stdout and stderr writers, the error of [cmd.Run], the
    state of the context afterwards and the elapsed time. *)
Record RunOutcome := {
  stdout_writes : list (list byte);
  stderr_writes : list (list byte);
  run_err : RunError;
  ctx_err : CtxErr;
  elapsed : Z
}.

(** Side effects on the host, in the order they happen. *)
Inductive Effect :=
| EffCreateTemp (path : string)
| EffWriteFile (path content : string)
| EffChmod (path : string)
| EffRun (cmd : Cmd)
| EffRemove (path : string).

(** The host: Go's standard library functions whose tables are not part of
    the repository, the parent process environment, the file system and
    process execution.  [range_CustomEnv] is the order in which the
    runtime iterates the custom environment map; [cmd_Run] may depend on
    everything done before (the script file written, for one). *)
Record Host := {
  strings_ToLower : string -> string;
  strings_TrimSpace : string -> string;
  regexp_tooLarge : string -> bool;
  os_LookupEnv : string -> option string;
  range_CustomEnv : gmap string string -> list (string * string);
  filepath_Abs : string -> string + string;
  os_TempDir : string;
  os_CreateTemp : string -> string -> string + string;
  file_WriteString : string -> string -> option string;
  cmd_Run : list Effect -> Cmd -> RunOutcome
}.

(** ** pkg/sandbox: strings and the deny-list *)

(** The class [\s] of Go's regexp: tab, newline, form feed, carriage return
    and space. *)
Definition isRegexpSpace (c : ascii) : bool :=
  match N_of_ascii c with
  | 9%N | 10%N | 12%N | 13%N | 32%N => true
  | _ => false
  end.

(** [regexp.MustCompile(`\s+`).ReplaceAllString(s, " ")]: every maximal run
    of [\s] becomes one space. *)
Fixpoint collapseSpaceFrom (inRun : bool) (s : string) : string :=
  match s with
  | EmptyString => EmptyString
  | String c rest =>
      if isRegexpSpace c then
        if inRun then collapseSpaceFrom true rest
        else String " " (collapseSpaceFrom true rest)
      else String c (collapseSpaceFrom false rest)
  end.

Definition collapseSpace (s : string) : string := collapseSpaceFrom false s.

(** The bytes [regexp.QuoteMeta] escapes: [\.+*?()|[]{}^$]. *)
Definition isSpecial (c : ascii) : bool :=
  match N_of_ascii c with
  | 92%N | 46%N | 43%N | 42%N | 63%N | 40%N | 41%N | 124%N
  | 91%N | 93%N | 123%N | 125%N | 94%N | 36%N => true
  | _ => false
  end.

Fixpoint QuoteMeta (s : string) : string :=
  match s with
  | EmptyString => EmptyString
  | String c rest =>
      if isSpecial c then String "\" (String c (QuoteMeta rest))
      else String c (QuoteMeta rest)
  end.

(** [strings.ReplaceAll(escaped, `\*`, `.*`)]: left to right, without
    overlap. *)
Fixpoint replaceEscapedStar (s : string) : string :=
  match s with
  | String "\" (String "*" rest) => String "." (String "*" (replaceEscapedStar rest))
  | String c rest => String c (replaceEscapedStar rest)
  | EmptyString => EmptyString
  end.

(** [strings.HasPrefix] and [strings.Contains]. *)
Definition HasPrefix (s p : string) : bool := String.prefix p s.

Fixpoint Contains (s sub : string) : bool :=
  HasPrefix s sub ||
  match s with
  | String _ rest => Contains rest sub
  | EmptyString => false
  end.

(** The regular expressions [checkBlacklist] builds are sequences of
    literal bytes and [.*]. *)
Inductive token :=
| Lit (c : ascii)
| AnyStar.

(** The parser of [regexp.Compile] on that fragment: an escaped special
    byte is a literal, [.*] is the wildcard, any other byte that is not
    special stands for itself.  Nothing else is produced by
    [replaceEscapedStar (QuoteMeta _)]. *)
Fixpoint parseRegexp (re : string) : option (list token) :=
  match re with
  | EmptyString => Some []
  | String "\" (String c rest) =>
      if isSpecial c then cons (Lit c) <$> parseRegexp rest else None
  | String "." (String "*" rest) => cons AnyStar <$> parseRegexp rest
  | String c rest =>
      if isSpecial c then None else cons (Lit c) <$> parseRegexp rest
  end.

(** [regexp.Compile]: the parser, unless the library refuses the
    expression for its size. *)
Definition regexp_Compile (h : Host) (re : string) : option (list token) :=
  if regexp_tooLarge h re then None else parseRegexp re.

(** A match of the whole expression starting at the head of [s]; [.]
    matches anything but a newline.  Go matches code point by code point;
    on the valid UTF-8 that [strings.ToLower] returns, literal bytes and
    wildcard runs matched byte by byte accept the same texts. *)
Fixpoint matchHere (re : list token) : string -> bool :=
  match re with
  | [] => fun _ => true
  | Lit c :: re' => fun s =>
      match s with
      | String d s' => Ascii.eqb c d && matchHere re' s'
      | EmptyString => false
      end
  | AnyStar :: re' =>
      fix star (s : string) : bool :=
        matchHere re' s ||
        match s with
        | String d s' => negb (Ascii.eqb d newline) && star s'
        | EmptyString => false
        end
  end.

(** [re.MatchString(s)]: a match starting anywhere. *)
Fixpoint MatchString (re : list token) (s : string) : bool :=
  matchHere re s ||
  match s with
  | String _ s' => MatchString re s'
  | EmptyString => false
  end.

(** The loop body of [checkBlacklist] for one pattern: does it block the
    normalized input? *)
Definition patternBlocks (h : Host) (normalizedInput pattern : string) : bool :=
  let normalizedPattern := strings_ToLower h pattern in
  let escaped := QuoteMeta normalizedPattern in
  let regexPattern := replaceEscapedStar escaped in
  match regexp_Compile h regexPattern with
  | None => Contains normalizedInput normalizedPattern
  | Some re => MatchString re normalizedInput
  end.

Fixpoint checkPatterns (h : Host) (normalizedInput : string) (patterns : list string)
  : option error :=
  match patterns with
  | [] => None
  | pattern :: rest =>
      if patternBlocks h normalizedInput pattern then Some (ErrBlacklisted pattern)
      else checkPatterns h normalizedInput rest
  end.

(** [func (s *ProcessSandbox) checkBlacklist(input string) error] *)
Definition checkBlacklist (h : Host) (cfg : Config) (input : string) : option error :=
  if len (CommandBlacklist cfg) =? 0 then None
  else
    let normalizedInput := collapseSpace (strings_ToLower h input) in
    checkPatterns h normalizedInput (CommandBlacklist cfg).

(** ** pkg/sandbox: the child environment *)

Definition defaultPathEntry : string := "PATH=/usr/local/bin:/usr/bin:/bin".

(** The first loop of [buildEnvironment]. *)
Fixpoint copyAllowed (h : Host) (keys : list string) (env : list string) : list string :=
  match keys with
  | [] => env
  | key :: rest =>
      match os_LookupEnv h key with
      | Some val => copyAllowed h rest (env ++ [key +:+ "=" +:+ val])
      | None => copyAllowed h rest env
      end
  end.

(** The second loop, over the map in the runtime's iteration order. *)
Fixpoint addCustom (kvs : list (string * string)) (env : list string) : list string :=
  match kvs with
  | [] => env
  | (key, val) :: rest => addCustom rest (env ++ [key +:+ "=" +:+ val])
  end.

(** The third loop, with its [break]. *)
Fixpoint scanHasPath (env : list string) : bool :=
  match env with
  | [] => false
  | e :: rest => if HasPrefix e "PATH=" then true else scanHasPath rest
  end.

(** [func (s *ProcessSandbox) buildEnvironment() []string] *)
Definition buildEnvironment (h : Host) (cfg : Config) : list string :=
  let env := [] in
  let env := copyAllowed h (AllowedEnv cfg) env in
  let env := addCustom (range_CustomEnv h (CustomEnv cfg)) env in
  let hasPath := scanHasPath env in
  if negb hasPath then env ++ [defaultPathEntry] else env.

(** ** pkg/sandbox: running a command *)

(** [stdout.String()] of the capped buffer after the run. *)
Definition captureStream (cap : Z) (writes : list (list byte)) : string :=
  string_of_list_byte (captured (writeAll (newCapture cap) writes)).

(** [func (s *ProcessSandbox) runCommand(ctx, cmd)].  [log] holds the
    effects so far; the result comes with the extended log. *)
Definition runCommand (h : Host) (cfg : Config) (log : list Effect) (cmd : Cmd)
  : outcome ExecutionResult * list Effect :=
  match filepath_Abs h (WorkingDir cfg) with
  | inl cause => (Err (ErrInvalidWorkingDir cause), log)
  | inr absWorkDir =>
      let cmd := {| Path := Path cmd; Args := Args cmd; Dir := absWorkDir;
                    Env := buildEnvironment h cfg; Deadline := Deadline cmd |} in
      let ran := cmd_Run h log cmd in
      let log := log ++ [EffRun cmd] in
      let result := {| Stdout := captureStream (MaxOutputBytes cfg) (stdout_writes ran);
                       Stderr := captureStream (MaxOutputBytes cfg) (stderr_writes ran);
                       ExitCode := 0;
                       Duration := elapsed ran;
                       TimedOut := false |} in
      match ctx_err ran with
      | CtxDeadlineExceeded =>
          (Ok {| Stdout := Stdout result; Stderr := Stderr result; ExitCode := -1;
                 Duration := Duration result; TimedOut := true |}, log)
      | _ =>
          match run_err ran with
          | RunNil => (Ok result, log)
          | RunExitError code =>
              (Ok {| Stdout := Stdout result; Stderr := Stderr result; ExitCode := code;
                     Duration := Duration result; TimedOut := TimedOut result |}, log)
          | RunOther msg => (Err (ErrExecutionFailed msg), log)
          end
      end
  end.

(** The context's deadline after [context.WithTimeout] under
    [if s.config.Timeout > 0]. *)
Definition applyTimeout (cfg : Config) : option Z :=
  if 0 <? Timeout cfg then Some (Timeout cfg) else None.

(** [func (s *ProcessSandbox) Execute(ctx, command, args)] *)
Definition Execute (h : Host) (cfg : Config) (command : string) (args : list string)
  : outcome ExecutionResult * list Effect :=
  let fullCommand := command +:+ " " +:+ String.concat " " args in
  match checkBlacklist h cfg fullCommand with
  | Some err => (Err err, [])
  | None =>
      let deadline := applyTimeout cfg in
      let cmd := {| Path := command; Args := args; Dir := ""; Env := [];
                    Deadline := deadline |} in
      runCommand h cfg [] cmd
  end.

(** ** pkg/sandbox: scripts *)

Definition base64_alphabet : string :=
  "ABCDEFGHIJKLMNOPQRSTUVWXYZabcdefghijklmnopqrstuvwxyz0123456789+/".

Definition base64_digit (n : N) : ascii :=
  match String.get (N.to_nat n) base64_alphabet with
  | Some c => c
  | None => "="%char
  end.

(** [base64.StdEncoding.EncodeToString([]byte(s))]: three bytes give four
    digits; a last group of one or two bytes is padded with [=]. *)
Fixpoint base64_EncodeToString (s : string) : string :=
  match s with
  | EmptyString => EmptyString
  | String a EmptyString =>
      let x := N_of_ascii a in
      String (base64_digit (x / 4))
        (String (base64_digit (x mod 4 * 16)) "==")
  | String a (String b EmptyString) =>
      let x := N_of_ascii a in
      let y := N_of_ascii b in
      String (base64_digit (x / 4))
        (String (base64_digit (x mod 4 * 16 + y / 16))
           (String (base64_digit (y mod 16 * 4)) "="))
  | String a (String b (String c rest)) =>
      let x := N_of_ascii a in
      let y := N_of_ascii b in
      let z := N_of_ascii c in
      String (base64_digit (x / 4))
        (String (base64_digit (x mod 4 * 16 + y / 16))
           (String (base64_digit (y mod 16 * 4 + z / 64))
              (String (base64_digit (z mod 64)) (base64_EncodeToString rest))))
  end%N.

(** The [fmt.Sprintf] template of [wrapPythonScript], filled with the
    encoded source. *)
Definition pythonWrapper (encoded : string) : string :=
  "import base64" +:+ nl +:+
  "_code = base64.b64decode(" +:+ dq +:+ encoded +:+ dq +:+ ").decode(" +:+ dq +:+ "utf-8" +:+ dq +:+ ")" +:+ nl +:+
  "try:" +:+ nl +:+
  "    _result = eval(compile(_code, '<input>', 'eval'))" +:+ nl +:+
  "    if _result is not None:" +:+ nl +:+
  "        print(repr(_result))" +:+ nl +:+
  "except SyntaxError:" +:+ nl +:+
  "    exec(compile(_code, '<input>', 'exec'))" +:+ nl.

(** The substrings whose presence in the trimmed script prevents the
    wrapping, in the order of the condition. *)
Definition statementMarkers : list string :=
  ["print("; "print "; "import "; "def "; "class "; "if "; "for "; "while ";
   "with "; "try:"].

(** [func wrapPythonScript(script string) string] *)
Definition wrapPythonScript (h : Host) (script : string) : string :=
  let trimmed := strings_TrimSpace h script in
  if Contains trimmed "print(" ||
     Contains trimmed "print " ||
     Contains trimmed "import " ||
     Contains trimmed "def " ||
     Contains trimmed "class " ||
     Contains trimmed "if " ||
     Contains trimmed "for " ||
     Contains trimmed "while " ||
     Contains trimmed "with " ||
     Contains trimmed "try:"
  then script
  else
    let encoded := base64_EncodeToString script in
    pythonWrapper encoded.

Definition isPython (interpreter : string) : bool :=
  String.eqb interpreter "python" || String.eqb interpreter "python3".

Definition isShell (interpreter : string) : bool :=
  String.eqb interpreter "bash" || String.eqb interpreter "sh".

(** The first [switch interpreter] of [ExecuteScript]. *)
Definition scriptExt (interpreter : string) : string :=
  if isPython interpreter then ".py"
  else if String.eqb interpreter "node" || String.eqb interpreter "nodejs" then ".js"
  else if isShell interpreter then ".sh"
  else if String.eqb interpreter "go" then ".go"
  else ".tmp".

(** The second [switch interpreter]: the command that runs the file. *)
Definition scriptCmd (interpreter tmpPath : string) (deadline : option Z) : Cmd :=
  if String.eqb interpreter "go" then
    {| Path := "go"; Args := ["run"; tmpPath]; Dir := ""; Env := []; Deadline := deadline |}
  else
    {| Path := interpreter; Args := [tmpPath]; Dir := ""; Env := []; Deadline := deadline |}.

(** [func (s *ProcessSandbox) ExecuteScript(ctx, interpreter, script)].
    The deferred [os.Remove] runs on every return after the file exists. *)
Definition ExecuteScript (h : Host) (cfg : Config) (interpreter script : string)
  : outcome ExecutionResult * list Effect :=
  match checkBlacklist h cfg script with
  | Some err => (Err err, [])
  | None =>
      let deadline := applyTimeout cfg in
      let script := if isPython interpreter then wrapPythonScript h script else script in
      let tmpDir := os_TempDir h in
      let ext := scriptExt interpreter in
      match os_CreateTemp h tmpDir ("looper-script-*" +:+ ext) with
      | inl cause => (Err (ErrCreateTemp cause), [])
      | inr tmpPath =>
          let log := [EffCreateTemp tmpPath] in
          match file_WriteString h tmpPath script with
          | Some cause => (Err (ErrWriteScript cause), log ++ [EffRemove tmpPath])
          | None =>
              let log := log ++ [EffWriteFile tmpPath script] in
              let log := if isShell interpreter then log ++ [EffChmod tmpPath] else log in
              let cmd := scriptCmd interpreter tmpPath deadline in
              let '(res, log) := runCommand h cfg log cmd in
              (res, log ++ [EffRemove tmpPath])
          end
      end
  end.

(** Did the sandbox start a process? *)
Definition spawned (log : list Effect) : bool :=
  existsb (fun e => match e with EffRun _ => true | _ => false end) log.

(** ** pkg/sandbox: the defaults *)

(** [time.Second], in nanoseconds. *)
Definition time_Second : Z := 1000000000.

(** [func DefaultBlacklist() []string] *)
Definition DefaultBlacklist : list string :=
  [ (* Destructive file operations *)
    "rm -rf /";
    "rm -rf /*";
    "rm -rf ~";
    "rm -rf .";
    "rm -rf ..";
    "rm -fr /";
    "rm -fr /*";
    "> /dev/sda";
    "dd if=/dev/zero of=/dev/sda";
    "dd if=/dev/random of=/dev/sda";
    "mkfs.";
    "wipefs";
    (* Fork bombs and resource exhaustion *)
    ":(){ :|:& };:";
    "fork while fork";
    (* System manipulation *)
    "chmod -R 777 /";
    "chown -R";
    "shutdown";
    "reboot";
    "halt";
    "poweroff";
    "init 0";
    "init 6";
    "telinit 0";
    (* Network attacks *)
    "nc -l";
    (* Dangerous downloads and execution *)
    "curl * | sh";
    "curl * | bash";
    "wget * | sh";
    "wget * | bash";
    (* History/log tampering *)
    "history -c";
    "cat /dev/null >";
    "> ~/.bash_history";
    (* Privilege escalation attempts *)
    "sudo su";
    "sudo -i";
    "su -";
    "passwd";
    (* Crypto mining indicators *)
    "xmrig";
    "minerd";
    "cpuminer";
    (* Kernel manipulation *)
    "insmod";
    "rmmod";
    "modprobe" ].

(** [func DefaultConfig(workingDir string) *Config] *)
Definition DefaultConfig (workingDir : string) : Config :=
  {| WorkingDir := workingDir;
     Timeout := 30 * time_Second;
     MaxOutputBytes := 1024 * 1024;
     AllowedEnv := ["PATH"; "HOME"; "USER"; "LANG"; "LC_ALL"];
     CustomEnv := ∅;
     CommandBlacklist := DefaultBlacklist |}.

End Sandbox.

(** ** pkg/llm: messages and stream events *)

Module Llm.

Inductive Role :=
| RoleSystem
| RoleUser
| RoleAssistant
| RoleTool.

(** [type ToolCall struct]; [Arguments] is a [json.RawMessage]. *)
Record ToolCall := {
  ID : string;
  Name : string;
  Arguments : string
}.

Record Message := {
  msg_Role : Role;
  msg_Content : string;
  msg_ToolCalls : list ToolCall;
  msg_ToolCallID : string
}.

Record Usage := {
  InputTokens : Z;
  OutputTokens : Z
}.

Record Response := {
  resp_Content : string;
  resp_ToolCalls : list ToolCall;
  resp_StopReason : string;
  resp_Usage : Usage
}.

(** [Parameters] is a [map[string]interface{}], kept opaque. *)
Record ToolDefinition (Schema : Type) := {
  def_Name : string;
  def_Description : string;
  def_Parameters : Schema
}.
Arguments def_Name {Schema} _.
Arguments def_Description {Schema} _.
Arguments def_Parameters {Schema} _.

Record CompletionRequest (Schema : Type) := {
  req_Model : string;
  req_Messages : list Message;
  req_Tools : list (ToolDefinition Schema);
  req_MaxTokens : Z;
  req_System : string
}.
Arguments req_Model {Schema} _.
Arguments req_Messages {Schema} _.
Arguments req_Tools {Schema} _.
Arguments req_MaxTokens {Schema} _.
Arguments req_System {Schema} _.

Definition NewUserMessage (content : string) : Message :=
  {| msg_Role := RoleUser; msg_Content := content; msg_ToolCalls := [];
     msg_ToolCallID := "" |}.

Definition NewAssistantMessage (content : string) : Message :=
  {| msg_Role := RoleAssistant; msg_Content := content; msg_ToolCalls := [];
     msg_ToolCallID := "" |}.

Definition NewToolResultMessage (toolCallID content : string) : Message :=
  {| msg_Role := RoleTool; msg_Content := content; msg_ToolCalls := [];
     msg_ToolCallID := toolCallID |}.

Definition NewAssistantToolCallMessage (toolCalls : list ToolCall) : Message :=
  {| msg_Role := RoleAssistant; msg_Content := ""; msg_ToolCalls := toolCalls;
     msg_ToolCallID := "" |}.

(** [type StreamEvent struct], by its [Type] tag, each with the fields the
    producers set for it, as its receiver reads it: [ToolCall] is a
    pointer, and [tc] is the object it points to at the moment it is
    read. *)
Inductive StreamEvent :=
| StreamEventText (text : string)
| StreamEventToolCallStart (tc : ToolCall) (index : Z)
| StreamEventToolCallDelta (index : Z) (argumentDelta : string)
| StreamEventToolCallEnd (tc : ToolCall) (index : Z)
| StreamEventDone (usage : Usage) (stopReason : string)
| StreamEventError (err : string).

End Llm.

(** ** pkg/llm: the streaming adapters

    The goroutine of [CompleteStream] reads the response body line by
    line.  A line is modelled after classification: the context was
    cancelled before the read, the read failed, the line was skipped (blank,
    no [data: ] prefix, or not valid JSON), it was the [[DONE]] marker, or
    it carried a decoded payload.  The end of the list is [io.EOF]. *)

Module Stream.
Import Llm.

Inductive Line (Payload : Type) :=
| LineCancelled (err : string)
| LineReadError (err : string)
| LineSkipped
| LineDoneMarker
| LineData (payload : Payload).
Arguments LineCancelled {Payload} _.
Arguments LineReadError {Payload} _.
Arguments LineSkipped {Payload}.
Arguments LineDoneMarker {Payload}.
Arguments LineData {Payload} _.

Definition nonEmpty (s : string) : bool := negb (String.eqb s "").

(** [m[idx]] on a Go map of strings: the empty string when absent. *)
Definition argsAt (m : gmap Z string) (idx : Z) : string := default "" (m !! idx).

(** [m[idx]] on a Go map of booleans. *)
Definition startedAt (m : gmap Z bool) (idx : Z) : bool := default false (m !! idx).

(** *** The channel and the tool-call objects

    The [ToolCall] field of an event is a [*ToolCall], and the goroutine
    goes on assigning to the objects it has sent.  What a receiver reads
    through the pointer is the object as it is at the moment of reading,
    which the channel, buffered for 100 events, lets be any moment from
    the send on.  So the goroutine is modelled by what it does, in order:
    it allocates a tool call, assigns one of its fields, or sends an event
    that holds the address. *)

Abbreviation addr := nat.

(** [type StreamEvent struct] as the goroutine fills it. *)
Inductive Sent :=
| SentText (text : string)
| SentToolCallStart (tc : addr) (index : Z)
| SentToolCallDelta (index : Z) (argumentDelta : string)
| SentToolCallEnd (tc : addr) (index : Z)
| SentDone (usage : Usage) (stopReason : string)
| SentError (err : string).

Inductive Action :=
| Alloc (p : addr) (tc : ToolCall)
| AssignID (p : addr) (id : string)
| AssignName (p : addr) (name : string)
| AssignArguments (p : addr) (args : string)
| Send (e : Sent).

(** [&ToolCall{...}] gives an object no earlier one shares its address
    with: the address is the number of actions done so far. *)
Definition fresh (done : list Action) : addr := length done.

(** The tool-call objects. *)
Abbreviation Heap := (gmap addr ToolCall).

Definition perform (hp : Heap) (a : Action) : Heap :=
  match a with
  | Alloc p tc => <[p := tc]> hp
  | AssignID p id =>
      alter (fun tc => {| ID := id; Name := Name tc; Arguments := Arguments tc |}) p hp
  | AssignName p name =>
      alter (fun tc => {| ID := ID tc; Name := name; Arguments := Arguments tc |}) p hp
  | AssignArguments p args =>
      alter (fun tc => {| ID := ID tc; Name := Name tc; Arguments := args |}) p hp
  | Send _ => hp
  end.

(** The objects once the goroutine has done [done]. *)
Definition heapAfter (done : list Action) : Heap := fold_left perform done ∅.

(** The events on the channel, in order. *)
Definition sent (done : list Action) : list Sent :=
  omap (fun a => match a with Send e => Some e | _ => None end) done.

(** What a receiver reads off an event while the objects are as in [hp];
    nothing through an address that holds no object. *)
Definition readEvent (hp : Heap) (e : Sent) : option StreamEvent :=
  match e with
  | SentText text => Some (StreamEventText text)
  | SentToolCallStart p index => (fun tc => StreamEventToolCallStart tc index) <$> hp !! p
  | SentToolCallDelta index d => Some (StreamEventToolCallDelta index d)
  | SentToolCallEnd p index => (fun tc => StreamEventToolCallEnd tc index) <$> hp !! p
  | SentDone usage reason => Some (StreamEventDone usage reason)
  | SentError err => Some (StreamEventError err)
  end.

(** The same once the goroutine has done the first [t] of its actions. *)
Definition readAt (acts : list Action) (t : nat) (e : Sent) : option StreamEvent :=
  readEvent (heapAfter (take t acts)) e.

(** The stream as a receiver reads it that looks at the [n]-th action's
    event when the goroutine has done [when n] actions; [when n] is at
    least [n]. *)
Definition received (acts : list Action) (when : nat -> nat) : list StreamEvent :=
  omap (fun '(n, a) => match a with
                       | Send e => readAt acts (when n) e
                       | _ => None
                       end)
       (zip (seq 0 (length acts)) acts).

(** *** OpenAI *)

Record openaiStreamToolCall := {
  tcd_Index : Z;
  tcd_ID : string;
  tcd_FunctionName : string;
  tcd_FunctionArguments : string
}.

Record openaiStreamDelta := {
  delta_Content : string;
  delta_ToolCalls : list openaiStreamToolCall
}.

Record openaiChoice := {
  choice_Delta : openaiStreamDelta;
  choice_FinishReason : string
}.

Record openaiUsage := {
  PromptTokens : Z;
  CompletionTokens : Z
}.

Record openaiStreamResponse := {
  sr_Choices : list openaiChoice;
  sr_Usage : option openaiUsage
}.

(** The local variables of the goroutine; [toolCalls] maps an index to
    the address of its object. *)
Record openaiState := {
  oa_inputTokens : Z;
  oa_outputTokens : Z;
  oa_stopReason : string;
  oa_toolCalls : gmap Z addr;
  oa_toolCallArgs : gmap Z string;
  oa_toolCallStarted : gmap Z bool
}.

Definition openaiInit : openaiState :=
  {| oa_inputTokens := 0; oa_outputTokens := 0; oa_stopReason := "";
     oa_toolCalls := ∅; oa_toolCallArgs := ∅; oa_toolCallStarted := ∅ |}.

(** [Update existing tool call metadata]: the two guarded assignments
    through [toolCalls[idx]].  An index is marked started only together
    with its entry, so the entry is there. *)
Definition updateMetadata (d : openaiStreamToolCall) (entry : option addr) : list Action :=
  match entry with
  | Some p =>
      (if nonEmpty (tcd_ID d) then [AssignID p (tcd_ID d)] else []) ++
      (if nonEmpty (tcd_FunctionName d) then [AssignName p (tcd_FunctionName d)] else [])
  | None => []
  end.

(** The body of [for _, tcDelta := range choice.Delta.ToolCalls], in its
    two parts.  First, [if tcDelta.ID != "" || tcDelta.Function.Name != ""]:
    start the call or update its metadata. *)
Definition openaiStartOrUpdate (acc : openaiState * list Action)
    (d : openaiStreamToolCall) : openaiState * list Action :=
  let '(st, out) := acc in
  let idx := tcd_Index d in
  if nonEmpty (tcd_ID d) || nonEmpty (tcd_FunctionName d) then
    if negb (startedAt (oa_toolCallStarted st) idx) then
      let p := fresh out in
      ({| oa_inputTokens := oa_inputTokens st; oa_outputTokens := oa_outputTokens st;
          oa_stopReason := oa_stopReason st;
          oa_toolCalls := <[idx := p]> (oa_toolCalls st);
          oa_toolCallArgs := <[idx := ""]> (oa_toolCallArgs st);
          oa_toolCallStarted := <[idx := true]> (oa_toolCallStarted st) |},
       out ++ [Alloc p {| ID := tcd_ID d; Name := tcd_FunctionName d; Arguments := "" |};
               Send (SentToolCallStart p idx)])
    else
      (st, out ++ updateMetadata d (oa_toolCalls st !! idx))
  else (st, out).

(** Second, [if tcDelta.Function.Arguments != ""]: accumulate the
    fragment and send it on. *)
Definition openaiAccumulate (acc : openaiState * list Action)
    (d : openaiStreamToolCall) : openaiState * list Action :=
  let '(st, out) := acc in
  let idx := tcd_Index d in
  if nonEmpty (tcd_FunctionArguments d) then
    ({| oa_inputTokens := oa_inputTokens st; oa_outputTokens := oa_outputTokens st;
        oa_stopReason := oa_stopReason st;
        oa_toolCalls := oa_toolCalls st;
        oa_toolCallArgs :=
          <[idx := argsAt (oa_toolCallArgs st) idx +:+ tcd_FunctionArguments d]>
            (oa_toolCallArgs st);
        oa_toolCallStarted := oa_toolCallStarted st |},
     out ++ [Send (SentToolCallDelta idx (tcd_FunctionArguments d))])
  else (st, out).

Definition openaiToolCallDelta (acc : openaiState * list Action)
    (d : openaiStreamToolCall) : openaiState * list Action :=
  openaiAccumulate (openaiStartOrUpdate acc d) d.

(** One decoded chunk. *)
Definition openaiChunk (st : openaiState) (out : list Action)
    (c : openaiStreamResponse) : openaiState * list Action :=
  let st :=
    match sr_Usage c with
    | Some u =>
        {| oa_inputTokens := PromptTokens u; oa_outputTokens := CompletionTokens u;
           oa_stopReason := oa_stopReason st; oa_toolCalls := oa_toolCalls st;
           oa_toolCallArgs := oa_toolCallArgs st;
           oa_toolCallStarted := oa_toolCallStarted st |}
    | None => st
    end in
  match sr_Choices c with
  | [] => (st, out)
  | choice :: _ =>
      let st :=
        if nonEmpty (choice_FinishReason choice) then
          {| oa_inputTokens := oa_inputTokens st; oa_outputTokens := oa_outputTokens st;
             oa_stopReason := choice_FinishReason choice; oa_toolCalls := oa_toolCalls st;
             oa_toolCallArgs := oa_toolCallArgs st;
             oa_toolCallStarted := oa_toolCallStarted st |}
        else st in
      let out :=
        if nonEmpty (delta_Content (choice_Delta choice))
        then out ++ [Send (SentText (delta_Content (choice_Delta choice)))]
        else out in
      fold_left openaiToolCallDelta (delta_ToolCalls (choice_Delta choice)) (st, out)
  end.

(** The body of [for idx, tc := range toolCalls]: the payload is assigned
    to the object, then the event with its address is sent. *)
Definition openaiEnd (st : openaiState) (entry : Z * addr) : list Action :=
  [AssignArguments entry.2 (argsAt (oa_toolCallArgs st) entry.1);
   Send (SentToolCallEnd entry.2 entry.1)].

(** [Finalize any pending tool calls] and the final done event.  [order]
    is the runtime's iteration order over the map. *)
Definition openaiFinalize (order : gmap Z addr -> list (Z * addr))
    (st : openaiState) (out : list Action) : list Action :=
  out ++
  concat (map (openaiEnd st) (order (oa_toolCalls st))) ++
  [Send (SentDone {| InputTokens := oa_inputTokens st; OutputTokens := oa_outputTokens st |}
                  (oa_stopReason st))].

(** The read loop: everything the goroutine does before it closes the
    channel. *)
Fixpoint openaiLoop (order : gmap Z addr -> list (Z * addr))
    (lines : list (Line openaiStreamResponse)) (st : openaiState)
    (out : list Action) : list Action :=
  match lines with
  | [] => openaiFinalize order st out
  | LineCancelled err :: _ => out ++ [Send (SentError err)]
  | LineReadError err :: _ => out ++ [Send (SentError err)]
  | LineSkipped :: rest => openaiLoop order rest st out
  | LineDoneMarker :: _ => openaiFinalize order st out
  | LineData c :: rest =>
      let '(st, out) := openaiChunk st out c in
      openaiLoop order rest st out
  end.

Definition openaiCompleteStream (order : gmap Z addr -> list (Z * addr))
    (lines : list (Line openaiStreamResponse)) : list Action :=
  openaiLoop order lines openaiInit [].

(** *** Anthropic *)

Record anthropicBlock := {
  block_Type : string;
  block_ID : string;
  block_Name : string
}.

Record anthropicEventDelta := {
  ed_Type : string;
  ed_Text : string;
  ed_PartialJSON : string;
  ed_StopReason : string
}.

(** [ev_MessageInputTokens] is [event.Message.Usage.InputTokens] when
    [event.Message] is set, [ev_UsageOutputTokens] is
    [event.Usage.OutputTokens] when [event.Usage] is set. *)
Record anthropicStreamEvent := {
  ev_Type : string;
  ev_MessageInputTokens : option Z;
  ev_Index : Z;
  ev_ContentBlock : option anthropicBlock;
  ev_Delta : option anthropicEventDelta;
  ev_UsageOutputTokens : option Z
}.

Record anthropicState := {
  an_inputTokens : Z;
  an_outputTokens : Z;
  an_stopReason : string;
  an_toolCalls : gmap Z addr;
  an_toolCallArgs : gmap Z string
}.

Definition anthropicInit : anthropicState :=
  {| an_inputTokens := 0; an_outputTokens := 0; an_stopReason := "";
     an_toolCalls := ∅; an_toolCallArgs := ∅ |}.

Definition anthropicDone (st : anthropicState) : Action :=
  Send (SentDone {| InputTokens := an_inputTokens st; OutputTokens := an_outputTokens st |}
                 (an_stopReason st)).

(** [switch event.Type]; the boolean tells whether the goroutine returns
    (after [message_stop]).  [content_block_stop] assigns the payload to
    the object registered for the index, the very object an earlier end
    event for that index holds. *)
Definition anthropicEvent (st : anthropicState) (out : list Action)
    (event : anthropicStreamEvent) : anthropicState * list Action * bool :=
  if String.eqb (ev_Type event) "message_start" then
    match ev_MessageInputTokens event with
    | Some n =>
        ({| an_inputTokens := n; an_outputTokens := an_outputTokens st;
            an_stopReason := an_stopReason st; an_toolCalls := an_toolCalls st;
            an_toolCallArgs := an_toolCallArgs st |}, out, false)
    | None => (st, out, false)
    end
  else if String.eqb (ev_Type event) "content_block_start" then
    match ev_ContentBlock event with
    | Some block =>
        if String.eqb (block_Type block) "tool_use" then
          let p := fresh out in
          ({| an_inputTokens := an_inputTokens st; an_outputTokens := an_outputTokens st;
              an_stopReason := an_stopReason st;
              an_toolCalls := <[ev_Index event := p]> (an_toolCalls st);
              an_toolCallArgs := <[ev_Index event := ""]> (an_toolCallArgs st) |},
           out ++ [Alloc p {| ID := block_ID block; Name := block_Name block;
                              Arguments := "" |};
                   Send (SentToolCallStart p (ev_Index event))], false)
        else (st, out, false)
    | None => (st, out, false)
    end
  else if String.eqb (ev_Type event) "content_block_delta" then
    match ev_Delta event with
    | Some delta =>
        if String.eqb (ed_Type delta) "text_delta" then
          if nonEmpty (ed_Text delta)
          then (st, out ++ [Send (SentText (ed_Text delta))], false)
          else (st, out, false)
        else if String.eqb (ed_Type delta) "input_json_delta" then
          if nonEmpty (ed_PartialJSON delta) then
            ({| an_inputTokens := an_inputTokens st; an_outputTokens := an_outputTokens st;
                an_stopReason := an_stopReason st; an_toolCalls := an_toolCalls st;
                an_toolCallArgs :=
                  <[ev_Index event :=
                      argsAt (an_toolCallArgs st) (ev_Index event) +:+ ed_PartialJSON delta]>
                    (an_toolCallArgs st) |},
             out ++ [Send (SentToolCallDelta (ev_Index event) (ed_PartialJSON delta))],
             false)
          else (st, out, false)
        else (st, out, false)
    | None => (st, out, false)
    end
  else if String.eqb (ev_Type event) "content_block_stop" then
    match an_toolCalls st !! ev_Index event with
    | Some p =>
        (st,
         out ++ [AssignArguments p (argsAt (an_toolCallArgs st) (ev_Index event));
                 Send (SentToolCallEnd p (ev_Index event))], false)
    | None => (st, out, false)
    end
  else if String.eqb (ev_Type event) "message_delta" then
    let st :=
      match ev_Delta event with
      | Some delta =>
          if nonEmpty (ed_StopReason delta) then
            {| an_inputTokens := an_inputTokens st; an_outputTokens := an_outputTokens st;
               an_stopReason := ed_StopReason delta; an_toolCalls := an_toolCalls st;
               an_toolCallArgs := an_toolCallArgs st |}
          else st
      | None => st
      end in
    match ev_UsageOutputTokens event with
    | Some n =>
        ({| an_inputTokens := an_inputTokens st; an_outputTokens := n;
            an_stopReason := an_stopReason st; an_toolCalls := an_toolCalls st;
            an_toolCallArgs := an_toolCallArgs st |}, out, false)
    | None => (st, out, false)
    end
  else if String.eqb (ev_Type event) "message_stop" then
    (st, out ++ [anthropicDone st], true)
  else (st, out, false).

Fixpoint anthropicLoop (lines : list (Line anthropicStreamEvent)) (st : anthropicState)
    (out : list Action) : list Action :=
  match lines with
  | [] => out ++ [anthropicDone st]
  | LineCancelled err :: _ => out ++ [Send (SentError err)]
  | LineReadError err :: _ => out ++ [Send (SentError err)]
  | LineSkipped :: rest => anthropicLoop rest st out
  | LineDoneMarker :: _ => out ++ [anthropicDone st]
  | LineData event :: rest =>
      let '(st, out, returned) := anthropicEvent st out event in
      if returned then out else anthropicLoop rest st out
  end.

Definition anthropicCompleteStream (lines : list (Line anthropicStreamEvent))
  : list Action :=
  anthropicLoop lines anthropicInit [].

(** *** The fragments on the channel *)

(** The argument fragments delivered for [idx], concatenated in delivery
    order. *)
Fixpoint deltasFor (idx : Z) (events : list Sent) : string :=
  match events with
  | [] => ""
  | SentToolCallDelta i d :: rest =>
      if Z.eqb i idx then d +:+ deltasFor idx rest else deltasFor idx rest
  | _ :: rest => deltasFor idx rest
  end.

(** The same, restarting at every [ToolCallStart] for [idx]: the fragments
    delivered since the latest start ([acc] is what was gathered before
    [events]). *)
Fixpoint deltasSinceStart (idx : Z) (acc : string) (events : list Sent) : string :=
  match events with
  | [] => acc
  | SentToolCallStart _ i :: rest =>
      deltasSinceStart idx (if Z.eqb i idx then "" else acc) rest
  | SentToolCallDelta i d :: rest =>
      deltasSinceStart idx (if Z.eqb i idx then acc +:+ d else acc) rest
  | _ :: rest => deltasSinceStart idx acc rest
  end.

End Stream.

(** ** pkg/agent: the conversation context and the loop *)

Module Agent.
Import Llm.

(** A Go [(T, error)] pair with the error rendered by [err.Error()]. *)
Inductive result (A : Type) :=
| Success (a : A)
| Failure (err : string).
Arguments Success {A} _.
Arguments Failure {A} _.

(** [type Skill struct] of pkg/skills. *)
Record Skill := {
  skill_Name : string;
  skill_Description : string;
  skill_Content : string;
  skill_FilePath : string
}.

Definition ToPrompt (s : Skill) : string :=
  "- **" +:+ skill_Name s +:+ "** (`" +:+ skill_FilePath s +:+ "`): " +:+ skill_Description s.

(** [type Config struct] of pkg/agent, without the fields the loop never
    reads ([Temperature], [ProviderConfig], the deny-list settings). *)
Record Config := {
  Provider : string;
  Model : string;
  cfg_WorkspacePath : string;
  SystemPrompt : string;
  MaxIterations : Z;
  MaxTokens : Z
}.

(** [content != ""] *)
Definition nonEmptyContent (s : string) : bool := negb (String.eqb s "").

(** What [Run] and [RunStream] return as their error: ["max iterations (%d)
    reached"], [ctx.Err()], ["LLM error: %w"], or the error carried by an
    error event of the stream. *)
Inductive RunError :=
| ErrMaxIterations (limit : Z)
| ErrContext (cause : string)
| ErrLLM (cause : string)
| ErrStream (cause : string).

(** How far the loop got: it returned [(content, err)], or the fuel of the
    model ran out first. *)
Inductive LoopStatus :=
| Returned (content : string) (err : option RunError)
| OutOfFuel.

Section Model.

(** [World] is everything outside the agent (the provider's backend, the
    workspace the tools act on, the caller's [context.Context]); [Args] is
    a decoded [map[string]interface{}]; [Schema] a tool's parameter schema;
    [Any] a metadata value. *)
Context {World Args Schema Any : Type}.

(** [type Context struct] *)
Record Context := {
  Messages : list Message;
  LoadedSkills : gmap string Skill;
  WorkspacePath : string;
  Metadata : gmap string Any;
  TotalInputTokens : Z;
  TotalOutputTokens : Z;
  IterationCount : Z
}.

(** [tools.Tool] *)
Record Tool := {
  tool_Name : string;
  tool_Description : string;
  tool_Schema : Schema;
  tool_Execute : Args -> World -> result string * World
}.

(** [*tools.Registry]: the loop only sees it through [Get] and [List], and
    that is how it is given here. *)
Record Registry := {
  Get : string -> option Tool;
  List : list Tool
}.

(** The collaborators of the loop: the provider ([CompleteStream] is
    there when the provider is a [StreamProvider]; the events are those
    read from its channel until it is closed), [json.Unmarshal] into an
    argument map, [ctx.Err()] once [ctx.Done()] is closed, and the order in
    which the runtime iterates the skills map. *)
Record Runtime := {
  provider_Complete : CompletionRequest Schema -> World -> result Response * World;
  provider_CompleteStream :
    option (CompletionRequest Schema -> World -> result (list StreamEvent) * World);
  json_Unmarshal : string -> result Args;
  ctx_Done : World -> option string;
  range_LoadedSkills : gmap string Skill -> list (string * Skill)
}.

Record Agent := {
  config : Config;
  registry : Registry;
  ctx : Context
}.

(** What the loop did, in order: a ghost log next to the state.  The last
    five are the calls of the stream handler's callbacks. *)
Inductive TraceEvent :=
| TrComplete (req : CompletionRequest Schema) (answer : result Response)
| TrExecuteTool (tc : ToolCall) (answer : result string)
| TrCompleteStream (req : CompletionRequest Schema) (answer : result (list StreamEvent))
| TrOnText (text : string)
| TrOnToolStart (tc : ToolCall)
| TrOnToolEnd (tc : ToolCall) (res : string) (err : option string)
| TrOnUsage (inputTokens outputTokens : Z)
| TrOnDone.

(** [type StreamHandler struct]: which callbacks are set.  The callbacks
    only report progress; a call is a trace entry. *)
Record StreamHandler := {
  OnText : bool;
  OnToolStart : bool;
  OnToolEnd : bool;
  OnUsage : bool;
  OnDone : bool
}.

(** [handler != nil && handler.F != nil] *)
Definition handles (handler : option StreamHandler) (f : StreamHandler -> bool) : bool :=
  match handler with
  | Some hd => f hd
  | None => false
  end.

(** ... and the call it guards. *)
Definition notify (handler : option StreamHandler) (f : StreamHandler -> bool)
    (e : TraceEvent) (tr : list TraceEvent) : list TraceEvent :=
  if handles handler f then tr ++ [e] else tr.

Definition NewContext (workspacePath : string) : Context :=
  {| Messages := []; LoadedSkills := ∅; WorkspacePath := workspacePath; Metadata := ∅;
     TotalInputTokens := 0; TotalOutputTokens := 0; IterationCount := 0 |}.

Definition AddMessage (c : Context) (msg : Message) : Context :=
  {| Messages := Messages c ++ [msg]; LoadedSkills := LoadedSkills c;
     WorkspacePath := WorkspacePath c; Metadata := Metadata c;
     TotalInputTokens := TotalInputTokens c; TotalOutputTokens := TotalOutputTokens c;
     IterationCount := IterationCount c |}.

Definition AddUserMessage (c : Context) (content : string) : Context :=
  AddMessage c (NewUserMessage content).

Definition AddAssistantMessage (c : Context) (content : string) : Context :=
  AddMessage c (NewAssistantMessage content).

Definition AddToolResult (c : Context) (toolCallID content : string) : Context :=
  AddMessage c (NewToolResultMessage toolCallID content).

Definition LoadSkill (c : Context) (skill : option Skill) : Context :=
  match skill with
  | Some sk =>
      {| Messages := Messages c; LoadedSkills := <[skill_Name sk := sk]> (LoadedSkills c);
         WorkspacePath := WorkspacePath c; Metadata := Metadata c;
         TotalInputTokens := TotalInputTokens c; TotalOutputTokens := TotalOutputTokens c;
         IterationCount := IterationCount c |}
  | None => c
  end.

Definition GetSkillPrompt (rt : Runtime) (c : Context) : string :=
  if Z.of_nat (size (LoadedSkills c)) =? 0 then ""
  else
    let prompt := nl +:+ nl +:+ "## Available Skills" +:+ nl in
    let prompt := prompt +:+ "Use `read_file` to view full skill instructions when needed:"
                         +:+ nl +:+ nl in
    fold_left (fun prompt '(_, skill) => prompt +:+ ToPrompt skill +:+ nl)
      (range_LoadedSkills rt (LoadedSkills c)) prompt.

Definition UpdateUsage (c : Context) (usage : Usage) : Context :=
  {| Messages := Messages c; LoadedSkills := LoadedSkills c;
     WorkspacePath := WorkspacePath c; Metadata := Metadata c;
     TotalInputTokens := int64_wrap (TotalInputTokens c + InputTokens usage);
     TotalOutputTokens := int64_wrap (TotalOutputTokens c + OutputTokens usage);
     IterationCount := IterationCount c |}.

(** [func (c *Context) Clear()] *)
Definition Clear (c : Context) : Context :=
  {| Messages := []; LoadedSkills := LoadedSkills c;
     WorkspacePath := WorkspacePath c; Metadata := Metadata c;
     TotalInputTokens := TotalInputTokens c; TotalOutputTokens := TotalOutputTokens c;
     IterationCount := 0 |}.

(** [a.ctx.IterationCount++] *)
Definition incrIteration (c : Context) : Context :=
  {| Messages := Messages c; LoadedSkills := LoadedSkills c;
     WorkspacePath := WorkspacePath c; Metadata := Metadata c;
     TotalInputTokens := TotalInputTokens c; TotalOutputTokens := TotalOutputTokens c;
     IterationCount := int64_wrap (IterationCount c + 1) |}.

(** [tools.ToDefinitions(a.registry.List())] *)
Definition ToDefinition (t : Tool) : ToolDefinition Schema :=
  {| def_Name := tool_Name t; def_Description := tool_Description t;
     def_Parameters := tool_Schema t |}.

Definition ToDefinitions (tools : list Tool) : list (ToolDefinition Schema) :=
  map ToDefinition tools.

(** [func (a *Agent) executeTool(ctx, tc) (string, error)] *)
Definition executeTool (rt : Runtime) (reg : Registry) (tc : ToolCall) (w : World)
  : result string * World :=
  match Get reg (Name tc) with
  | None => (Failure ("unknown tool: " +:+ Name tc), w)
  | Some tool =>
      match json_Unmarshal rt (Arguments tc) with
      | Failure err => (Failure ("invalid arguments: " +:+ err), w)
      | Success args =>
          match tool_Execute tool args w with
          | (Failure err, w') => (Failure err, w')
          | (Success res, w') => (Success res, w')
          end
      end
  end.

(** The text appended for a tool call: the result, or
    [fmt.Sprintf("Error: %s", err.Error())]. *)
Definition toolResultText (answer : result string) : string :=
  match answer with
  | Success res => res
  | Failure err => "Error: " +:+ err
  end.

(** [for _, tc := range resp.ToolCalls { ... }] of [Run]. *)
Fixpoint executeToolCalls (rt : Runtime) (reg : Registry) (tcs : list ToolCall)
    (c : Context) (w : World) (tr : list TraceEvent)
  : Context * World * list TraceEvent :=
  match tcs with
  | [] => (c, w, tr)
  | tc :: rest =>
      let '(answer, w) := executeTool rt reg tc w in
      let c := AddToolResult c (ID tc) (toolResultText answer) in
      executeToolCalls rt reg rest c w (tr ++ [TrExecuteTool tc answer])
  end.

(** The request [Run] builds at every iteration. *)
Definition buildRequest (rt : Runtime) (cfg : Config) (reg : Registry) (c : Context)
  : CompletionRequest Schema :=
  {| req_Model := Model cfg;
     req_Messages := Messages c;
     req_Tools := ToDefinitions (List reg);
     req_MaxTokens := MaxTokens cfg;
     req_System := SystemPrompt cfg +:+ GetSkillPrompt rt c |}.

(** [a.config.MaxIterations > 0 && a.ctx.IterationCount >= a.config.MaxIterations] *)
Definition limitReached (cfg : Config) (c : Context) : bool :=
  (0 <? MaxIterations cfg) && (MaxIterations cfg <=? IterationCount c).

(** The [for { ... }] of [Run].  Go's loop has no bound of its own, so the
    model takes fuel, one unit per iteration; when the fuel runs out before
    the loop returns, the state reached so far is given with [OutOfFuel]. *)
Fixpoint runLoop (rt : Runtime) (fuel : nat) (cfg : Config) (reg : Registry)
    (c : Context) (w : World) (tr : list TraceEvent)
  : LoopStatus * Context * World * list TraceEvent :=
  match fuel with
  | O => (OutOfFuel, c, w, tr)
  | S fuel =>
      if limitReached cfg c then
        (Returned "" (Some (ErrMaxIterations (MaxIterations cfg))), c, w, tr)
      else
        let c := incrIteration c in
        match ctx_Done rt w with
        | Some cause => (Returned "" (Some (ErrContext cause)), c, w, tr)
        | None =>
            let req := buildRequest rt cfg reg c in
            let '(answer, w) := provider_Complete rt req w in
            let tr := tr ++ [TrComplete req answer] in
            match answer with
            | Failure err => (Returned "" (Some (ErrLLM err)), c, w, tr)
            | Success resp =>
                let c := UpdateUsage c (resp_Usage resp) in
                if 0 <? len (resp_ToolCalls resp) then
                  let c := AddMessage c (NewAssistantToolCallMessage (resp_ToolCalls resp)) in
                  let '(c, w, tr) := executeToolCalls rt reg (resp_ToolCalls resp) c w tr in
                  runLoop rt fuel cfg reg c w tr
                else
                  let c := if nonEmptyContent (resp_Content resp)
                           then AddAssistantMessage c (resp_Content resp) else c in
                  (Returned (resp_Content resp) None, c, w, tr)
            end
        end
  end.

(** [func (a *Agent) Run(ctx, userMessage) (string, error)]; the agent's
    context object is updated in place, so the agent is returned too. *)
Definition Run (rt : Runtime) (fuel : nat) (a : Agent) (w : World) (userMessage : string)
  : LoopStatus * Agent * World * list TraceEvent :=
  let c := AddUserMessage (ctx a) userMessage in
  let '(status, c, w, tr) := runLoop rt fuel (config a) (registry a) c w [] in
  (status, {| config := config a; registry := registry a; ctx := c |}, w, tr).

(** The locals of [RunStream] that the event loop fills. *)
Record streamState := {
  ss_content : string;
  ss_toolCalls : list ToolCall;
  ss_currentToolCalls : gmap Z ToolCall;
  ss_usage : Usage
}.

Definition streamInit : streamState :=
  {| ss_content := ""; ss_toolCalls := []; ss_currentToolCalls := ∅;
     ss_usage := {| InputTokens := 0; OutputTokens := 0 |} |}.

(** [for event := range eventChan { switch event.Type { ... } }]: the
    error of an error event ends [RunStream]; delta events have no case. *)
Fixpoint consumeEvents (handler : option StreamHandler) (events : list StreamEvent)
    (st : streamState) (tr : list TraceEvent)
  : option string * streamState * list TraceEvent :=
  match events with
  | [] => (None, st, tr)
  | StreamEventText text :: rest =>
      consumeEvents handler rest
        {| ss_content := ss_content st +:+ text; ss_toolCalls := ss_toolCalls st;
           ss_currentToolCalls := ss_currentToolCalls st; ss_usage := ss_usage st |}
        (notify handler OnText (TrOnText text) tr)
  | StreamEventToolCallStart etc index :: rest =>
      let tc := {| ID := ID etc; Name := Name etc; Arguments := "" |} in
      consumeEvents handler rest
        {| ss_content := ss_content st; ss_toolCalls := ss_toolCalls st;
           ss_currentToolCalls := <[index := tc]> (ss_currentToolCalls st);
           ss_usage := ss_usage st |} tr
  | StreamEventToolCallEnd etc index :: rest =>
      match ss_currentToolCalls st !! index with
      | Some tc =>
          let tc := {| ID := ID tc; Name := Name tc; Arguments := Arguments etc |} in
          consumeEvents handler rest
            {| ss_content := ss_content st; ss_toolCalls := ss_toolCalls st ++ [tc];
               ss_currentToolCalls := <[index := tc]> (ss_currentToolCalls st);
               ss_usage := ss_usage st |} tr
      | None => consumeEvents handler rest st tr
      end
  | StreamEventDone usage _ :: rest =>
      consumeEvents handler rest
        {| ss_content := ss_content st; ss_toolCalls := ss_toolCalls st;
           ss_currentToolCalls := ss_currentToolCalls st; ss_usage := usage |} tr
  | StreamEventError err :: _ => (Some err, st, tr)
  | StreamEventToolCallDelta _ _ :: rest => consumeEvents handler rest st tr
  end.

(** [for _, tc := range toolCalls { ... }] of [RunStream]. *)
Fixpoint executeToolCallsStream (rt : Runtime) (reg : Registry)
    (handler : option StreamHandler) (tcs : list ToolCall)
    (c : Context) (w : World) (tr : list TraceEvent)
  : Context * World * list TraceEvent :=
  match tcs with
  | [] => (c, w, tr)
  | tc :: rest =>
      let tr := notify handler OnToolStart (TrOnToolStart tc) tr in
      let '(answer, w) := executeTool rt reg tc w in
      let tr := tr ++ [TrExecuteTool tc answer] in
      let toolErr := match answer with Failure err => Some err | Success _ => None end in
      let res := toolResultText answer in
      let tr := notify handler OnToolEnd (TrOnToolEnd tc res toolErr) tr in
      let c := AddToolResult c (ID tc) res in
      executeToolCallsStream rt reg handler rest c w tr
  end.

(** The [for { ... }] of [RunStream]. *)
Fixpoint runStreamLoop (rt : Runtime)
    (completeStream : CompletionRequest Schema -> World -> result (list StreamEvent) * World)
    (handler : option StreamHandler) (fuel : nat) (cfg : Config) (reg : Registry)
    (c : Context) (w : World) (tr : list TraceEvent)
  : LoopStatus * Context * World * list TraceEvent :=
  match fuel with
  | O => (OutOfFuel, c, w, tr)
  | S fuel =>
      if limitReached cfg c then
        (Returned "" (Some (ErrMaxIterations (MaxIterations cfg))), c, w, tr)
      else
        let c := incrIteration c in
        match ctx_Done rt w with
        | Some cause => (Returned "" (Some (ErrContext cause)), c, w, tr)
        | None =>
            let req := buildRequest rt cfg reg c in
            let '(answer, w) := completeStream req w in
            let tr := tr ++ [TrCompleteStream req answer] in
            match answer with
            | Failure err => (Returned "" (Some (ErrLLM err)), c, w, tr)
            | Success events =>
                let '(failed, st, tr) := consumeEvents handler events streamInit tr in
                match failed with
                | Some err => (Returned "" (Some (ErrStream err)), c, w, tr)
                | None =>
                    let c := UpdateUsage c (ss_usage st) in
                    let tr := notify handler OnUsage
                                (TrOnUsage (InputTokens (ss_usage st))
                                           (OutputTokens (ss_usage st))) tr in
                    if 0 <? len (ss_toolCalls st) then
                      let c := AddMessage c (NewAssistantToolCallMessage (ss_toolCalls st)) in
                      let '(c, w, tr) :=
                        executeToolCallsStream rt reg handler (ss_toolCalls st) c w tr in
                      runStreamLoop rt completeStream handler fuel cfg reg c w tr
                    else
                      let c := if nonEmptyContent (ss_content st)
                               then AddAssistantMessage c (ss_content st) else c in
                      let tr := notify handler OnDone TrOnDone tr in
                      (Returned (ss_content st) None, c, w, tr)
                end
            end
        end
  end.

(** [func (a *Agent) RunStream(ctx, userMessage, handler) (string, error)] *)
Definition RunStream (rt : Runtime) (fuel : nat) (a : Agent) (w : World)
    (userMessage : string) (handler : option StreamHandler)
  : LoopStatus * Agent * World * list TraceEvent :=
  match provider_CompleteStream rt with
  | None =>
      let '(status, a, w, tr) := Run rt fuel a w userMessage in
      match status with
      | Returned content None =>
          let tr := notify handler OnText (TrOnText content) tr in
          let tr := notify handler OnDone TrOnDone tr in
          (status, a, w, tr)
      | _ => (status, a, w, tr)
      end
  | Some completeStream =>
      let c := AddUserMessage (ctx a) userMessage in
      let '(status, c, w, tr) :=
        runStreamLoop rt completeStream handler fuel (config a) (registry a) c w [] in
      (status, {| config := config a; registry := registry a; ctx := c |}, w, tr)
  end.

(** [func (a *Agent) Reset()] *)
Definition Reset (a : Agent) : Agent :=
  {| config := config a; registry := registry a; ctx := Clear (ctx a) |}.

(** [c.Messages[i].Role == llm.RoleAssistant] *)
Definition isAssistant (m : Message) : bool :=
  match msg_Role m with
  | RoleAssistant => true
  | _ => false
  end.

(** The [for i := len(c.Messages) - 1; i >= 0; i--] of
    [GetLastAssistantMessage], entered with [i = n - 1].  The pointer
    [&c.Messages[i]] is given as the index with the message it points to. *)
Fixpoint lastAssistantFrom (msgs : list Message) (n : nat) : option (nat * Message) :=
  match n with
  | O => None
  | S i =>
      match msgs !! i with
      | Some m => if isAssistant m then Some (i, m) else lastAssistantFrom msgs i
      | None => None
      end
  end.

(** [func (c *Context) GetLastAssistantMessage() *llm.Message] *)
Definition GetLastAssistantMessage (c : Context) : option (nat * Message) :=
  lastAssistantFrom (Messages c) (length (Messages c)).

(** The completion requests in a trace. *)
Definition completions (tr : list TraceEvent) : list (CompletionRequest Schema) :=
  omap (fun e => match e with
                 | TrComplete req _ | TrCompleteStream req _ => Some req
                 | _ => None
                 end) tr.

End Model.

End Agent.

(** ** pkg/tools: the tools that run code *)

Module Tools.
Import Agent.
Import Sandbox.

(** A decoded JSON value as [encoding/json] stores it in an
    [interface{}]: a [string], a [float64], a [bool], or something else
    (nil, a slice, a map), which the tools below never look into. *)
Inductive Value :=
| VString (s : string)
| VNumber (float64bits : Z)
| VBool (b : bool)
| VOther.

(** [v, ok := args[key].(string)] *)
Definition asString (args : gmap string Value) (key : string) : string * bool :=
  match args !! key with
  | Some (VString s) => (s, true)
  | _ => ("", false)
  end.

(** [strings.HasSuffix] *)
Definition HasSuffix (s suffix : string) : bool :=
  String.prefix (String.rev suffix) (String.rev s).

(** [%d] of an [int]: the decimal digits, with a minus sign below zero. *)
Fixpoint digitsOf (fuel : nat) (n : N) (acc : string) : string :=
  match fuel with
  | O => acc
  | S fuel =>
      let acc := String (ascii_of_N (48 + n mod 10)) acc in
      if (n / 10 =? 0)%N then acc else digitsOf fuel (n / 10)%N acc
  end.

Definition formatInt (z : Z) : string :=
  let n := Z.to_N (Z.abs z) in
  let digits := digitsOf (S (N.to_nat (N.log2 n))) n "" in
  if z <? 0 then String "-" digits else digits.

(** [err.Error()] of an error of the sandbox; [quote] is [%q]. *)
Definition Error (quote : string -> string) (e : Sandbox.error) : string :=
  match e with
  | ErrBlacklisted pattern =>
      "command blocked by blacklist: matches pattern " +:+ quote pattern
  | ErrInvalidWorkingDir cause => "invalid working directory: " +:+ cause
  | Sandbox.ErrExecutionFailed cause => "execution failed: " +:+ cause
  | ErrCreateTemp cause => "failed to create temp script: " +:+ cause
  | ErrWriteScript cause => "failed to write script: " +:+ cause
  end.

(** What the tools need besides the sandbox: [%q] and
    [time.Duration.String]. *)
Record Fmt := {
  strconv_Quote : string -> string;
  duration_String : Z -> string
}.

Definition timedOutWarning : string := "⚠️ Execution timed out" +:+ nl +:+ nl.

(** The [// Format output] part of [BashTool.Execute]. *)
Definition formatBash (result : ExecutionResult) : string :=
  let output := "" in
  let output := if TimedOut result then output +:+ timedOutWarning else output in
  let output :=
    if negb (String.eqb (Stdout result) "") then
      let output := output +:+ Stdout result in
      if negb (HasSuffix (Stdout result) nl) then output +:+ nl else output
    else output in
  let output :=
    if negb (String.eqb (Stderr result) "") then
      let output := if 0 <? Z.of_nat (String.length output) then output +:+ nl else output in
      let output := output +:+ "STDERR:" +:+ nl in
      output +:+ Stderr result
    else output in
  let output :=
    if negb (ExitCode result =? 0)
    then output +:+ (nl +:+ "Exit code: " +:+ formatInt (ExitCode result))
    else output in
  output.

(** [func (t *BashTool) Execute(ctx, args) (string, error)], with the
    effects of the sandbox. *)
Definition BashTool_Execute (f : Fmt) (h : Host) (cfg : Config) (args : gmap string Value)
  : result string * list Effect :=
  let '(command, ok) := asString args "command" in
  if negb ok || String.eqb command "" then (Failure "command is required", [])
  else
    match Execute h cfg "bash" ["-c"; command] with
    | (Err err, log) => (Failure ("execution failed: " +:+ Error (strconv_Quote f) err), log)
    | (Ok result, log) => (Success (formatBash result), log)
    end.

(** The [switch language] of [ExecuteTool.Execute]. *)
Definition interpreterFor (language : string) : option string :=
  if String.eqb language "bash" then Some "bash"
  else if String.eqb language "python" then Some "python3"
  else if String.eqb language "node" then Some "node"
  else if String.eqb language "go" then Some "go"
  else None.

(** The [// Format output] part of [ExecuteTool.Execute]. *)
Definition formatExecute (f : Fmt) (result : ExecutionResult) : string :=
  let output := "" in
  let output := if TimedOut result then output +:+ timedOutWarning else output in
  let output :=
    if negb (String.eqb (Stdout result) "") then
      let output := output +:+ "STDOUT:" +:+ nl in
      let output := output +:+ Stdout result in
      if negb (HasSuffix (Stdout result) nl) then output +:+ nl else output
    else output in
  let output :=
    if negb (String.eqb (Stderr result) "") then
      let output := output +:+ (nl +:+ "STDERR:" +:+ nl) in
      let output := output +:+ Stderr result in
      if negb (HasSuffix (Stderr result) nl) then output +:+ nl else output
    else output in
  let output := output +:+ (nl +:+ "Exit code: " +:+ formatInt (ExitCode result)) in
  let output := output +:+ (nl +:+ "Duration: " +:+ duration_String f (Duration result)) in
  output.

(** [func (t *ExecuteTool) Execute(ctx, args) (string, error)] *)
Definition ExecuteTool_Execute (f : Fmt) (h : Host) (cfg : Config) (args : gmap string Value)
  : result string * list Effect :=
  let '(language, ok) := asString args "language" in
  if negb ok || String.eqb language "" then (Failure "language is required", [])
  else
    let '(code, ok) := asString args "code" in
    if negb ok || String.eqb code "" then (Failure "code is required", [])
    else
      match interpreterFor language with
      | None => (Failure ("unsupported language: " +:+ language), [])
      | Some interpreter =>
          match ExecuteScript h cfg interpreter code with
          | (Err err, log) =>
              (Failure ("execution failed: " +:+ Error (strconv_Quote f) err), log)
          | (Ok result, log) => (Success (formatExecute f result), log)
          end
      end.

(** The two tools as the registry holds them; the world they act on is
    the list of the effects on the host so far. *)
Definition BashTool {Schema : Type} (schema : Schema) (f : Fmt) (h : Host) (cfg : Config)
  : @Tool (list Effect) (gmap string Value) Schema :=
  {| tool_Name := "bash";
     tool_Description := "Execute a bash command in a sandboxed environment.";
     tool_Schema := schema;
     tool_Execute := fun args w =>
       let '(answer, log) := BashTool_Execute f h cfg args in (answer, w ++ log) |}.

Definition ExecuteTool {Schema : Type} (schema : Schema) (f : Fmt) (h : Host) (cfg : Config)
  : @Tool (list Effect) (gmap string Value) Schema :=
  {| tool_Name := "execute";
     tool_Description :=
       "Execute code or shell commands in a sandboxed environment. Supports bash, python, node, and go.";
     tool_Schema := schema;
     tool_Execute := fun args w =>
       let '(answer, log) := ExecuteTool_Execute f h cfg args in (answer, w ++ log) |}.

End Tools.

(** ** cmd/looper and pkg/agent: choosing the deny-list *)

Module Cli.

(** A Go slice of strings that may be nil: [None] is the nil slice. *)
Definition slice := option (list string).

(** [len(s)] and [range s] see a nil slice as an empty one. *)
Definition elements (s : slice) : list string := default [] s.

(** [append(s, x)] *)
Definition append (s : slice) (x : string) : slice := Some (elements s ++ [x]).

(** What reading a file through [os.Open] and a [bufio.Scanner] gives:
    the open failed, or the lines [scanner.Text()] returned until
    [scanner.Scan()] returned false, with [scanner.Err()]. *)
Inductive Scan :=
| OpenFailed (err : string)
| Scanned (lines : list string) (scanErr : option string).

Record Host := {
  scanFile : string -> Scan;
  strings_TrimSpace : string -> string
}.

(** The [for scanner.Scan()] of [loadBlacklistFile]. *)
Fixpoint collectPatterns (h : Host) (lines : list string) (patterns : slice) : slice :=
  match lines with
  | [] => patterns
  | text :: rest =>
      let line := strings_TrimSpace h text in
      if String.eqb line "" || Sandbox.HasPrefix line "#"
      then collectPatterns h rest patterns
      else collectPatterns h rest (append patterns line)
  end.

(** [func loadBlacklistFile(path string) ([]string, error)] *)
Definition loadBlacklistFile (h : Host) (path : string) : Agent.result slice :=
  match scanFile h path with
  | OpenFailed err => Agent.Failure err
  | Scanned lines scanErr =>
      let patterns := collectPatterns h lines None in
      match scanErr with
      | Some err => Agent.Failure err
      | None => Agent.Success patterns
      end
  end.

(** The two deny-list fields of [agent.Config]. *)
Record BlacklistSettings := {
  CommandBlacklist : slice;
  DisableBlacklist : bool
}.

(** [agent.DefaultConfig()] sets neither. *)
Definition defaultSettings : BlacklistSettings :=
  {| CommandBlacklist := None; DisableBlacklist := false |}.

(** The two flags [-no-blacklist] and [-blacklist] in [main]; an error is
    the one [main] prints before it exits with status 1. *)
Definition applyFlags (h : Host) (disableBlacklist : bool) (blacklistFile : string)
  : Agent.result BlacklistSettings :=
  let config := defaultSettings in
  let config :=
    if disableBlacklist
    then {| CommandBlacklist := CommandBlacklist config; DisableBlacklist := true |}
    else config in
  if negb (String.eqb blacklistFile "") then
    match loadBlacklistFile h blacklistFile with
    | Agent.Failure err => Agent.Failure err
    | Agent.Success patterns =>
        Agent.Success {| CommandBlacklist := patterns;
                         DisableBlacklist := DisableBlacklist config |}
    end
  else Agent.Success config.

(** The [// Configure command blacklist] part of [agent.New]: the
    deny-list of the sandbox it creates. *)
Definition sandboxBlacklist (config : BlacklistSettings) : slice :=
  let sandboxConfig := Some Sandbox.DefaultBlacklist in
  if DisableBlacklist config then None
  else
    match CommandBlacklist config with
    | Some patterns => Some patterns
    | None => sandboxConfig
    end.

End Cli.

(** ** pkg/skills: the loader *)

Module Skills.

(** [strings.Split(s, "\n")]: the pieces between the line feeds, one more
    than there are line feeds. *)
Fixpoint Split (s : string) : list string :=
  match s with
  | EmptyString => [EmptyString]
  | String c rest =>
      if Ascii.eqb c newline then EmptyString :: Split rest
      else
        match Split rest with
        | line :: lines => String c line :: lines
        | [] => [String c EmptyString]
        end
  end.

(** [strings.Join(lines, "\n")] *)
Definition Join (lines : list string) : string := String.concat nl lines.

(** [strings.TrimLeft(s, "\n")] *)
Fixpoint TrimLeftNewlines (s : string) : string :=
  match s with
  | String c rest => if Ascii.eqb c newline then TrimLeftNewlines rest else s
  | EmptyString => EmptyString
  end.

(** [type Frontmatter struct] *)
Record Frontmatter := {
  fm_Name : string;
  fm_Description : string
}.

Record Host := {
  strings_TrimSpace : string -> string;
  yaml_Unmarshal : string -> Agent.result Frontmatter
}.

(** The errors of [LoadFromString], one per [fmt.Errorf] site. *)
Inductive error :=
| ErrEmpty
| ErrNoFrontmatter
| ErrUnclosed
| ErrParse (cause : string)
| ErrNoName
| ErrNoDescription.

(** [strings.TrimSpace(line) == "---"] *)
Definition isFence (h : Host) (line : string) : bool :=
  String.eqb (strings_TrimSpace h line) "---".

(** The [for i := 1; i < len(lines); i++] that looks for the closing
    fence, entered at index [i] with [lines[i:]]: the index found, or -1. *)
Fixpoint findFence (h : Host) (i : Z) (lines : list string) : Z :=
  match lines with
  | [] => -1
  | line :: rest => if isFence h line then i else findFence h (i + 1) rest
  end.

(** [lines[from:to]] *)
Definition subslice {A} (l : list A) (from to : Z) : list A :=
  take (Z.to_nat (to - from)) (drop (Z.to_nat from) l).

(** [func (l *Loader) LoadFromString(content, filePath string)]: the
    skill, or the error. *)
Definition LoadFromString (h : Host) (content filePath : string) : Agent.Skill + error :=
  let lines := Split content in
  if len lines =? 0 then inr ErrEmpty
  else
    if negb (isFence h (default "" (lines !! 0%nat))) then inr ErrNoFrontmatter
    else
      let frontmatterEnd := findFence h 1 (drop 1 lines) in
      if frontmatterEnd =? -1 then inr ErrUnclosed
      else
        let frontmatterYAML := Join (subslice lines 1 frontmatterEnd) in
        match yaml_Unmarshal h frontmatterYAML with
        | Agent.Failure cause => inr (ErrParse cause)
        | Agent.Success frontmatter =>
            if String.eqb (fm_Name frontmatter) "" then inr ErrNoName
            else if String.eqb (fm_Description frontmatter) "" then inr ErrNoDescription
            else
              let bodyContent :=
                if frontmatterEnd + 1 <? len lines
                then TrimLeftNewlines (Join (subslice lines (frontmatterEnd + 1) (len lines)))
                else "" in
              inl {| Agent.skill_Name := fm_Name frontmatter;
                     Agent.skill_Description := fm_Description frontmatter;
                     Agent.skill_Content := bodyContent;
                     Agent.skill_FilePath := filePath |}
        end.

End Skills.

(** ** A concrete host

    A host to evaluate the definitions on: ASCII case folding and trimming
    (on ASCII text they agree with Go's [strings.ToLower] and
    [strings.TrimSpace]), a regexp library that accepts every expression, a
    small parent environment, and a child process that prints nothing and
    exits with status 0. *)

Module Demo.
Import Sandbox.

Definition asciiLowerByte (c : ascii) : ascii :=
  let n := N_of_ascii c in
  if ((65 <=? n) && (n <=? 90))%N then ascii_of_N (n + 32) else c.

Fixpoint asciiToLower (s : string) : string :=
  match s with
  | EmptyString => EmptyString
  | String c rest => String (asciiLowerByte c) (asciiToLower rest)
  end.

Definition isAsciiSpace (c : ascii) : bool :=
  match N_of_ascii c with
  | 9%N | 10%N | 11%N | 12%N | 13%N | 32%N => true
  | _ => false
  end.

Fixpoint trimLeft (s : string) : string :=
  match s with
  | String c rest => if isAsciiSpace c then trimLeft rest else s
  | EmptyString => EmptyString
  end.

Fixpoint trimRight (s : string) : string :=
  match s with
  | EmptyString => EmptyString
  | String c rest =>
      match trimRight rest with
      | EmptyString => if isAsciiSpace c then EmptyString else String c EmptyString
      | r => String c r
      end
  end.

Definition asciiTrimSpace (s : string) : string := trimRight (trimLeft s).

Definition parentEnv (key : string) : option string :=
  if String.eqb key "PATH" then Some "/opt/bin:/usr/bin"
  else if String.eqb key "HOME" then Some "/home/looper"
  else if String.eqb key "API_TOKEN" then Some "hunter2"
  else None.

Definition quietExit : RunOutcome :=
  {| stdout_writes := []; stderr_writes := []; run_err := RunNil; ctx_err := CtxNil;
     elapsed := 1000 |}.

Definition host : Host :=
  {| strings_ToLower := asciiToLower;
     strings_TrimSpace := asciiTrimSpace;
     regexp_tooLarge := fun _ => false;
     os_LookupEnv := parentEnv;
     range_CustomEnv := map_to_list;
     filepath_Abs := fun dir => inr ("/srv/" +:+ dir);
     os_TempDir := "/tmp";
     os_CreateTemp := fun dir pattern => inr (dir +:+ "/" +:+ pattern);
     file_WriteString := fun _ _ => None;
     cmd_Run := fun _ _ => quietExit |}.

(** The same host with a child that writes [hello world] to its standard
    output in two chunks, [oops] to its standard error, and exits with
    status 3. *)
Definition noisyExit : RunOutcome :=
  {| stdout_writes := [list_byte_of_string "hello "; list_byte_of_string "world"];
     stderr_writes := [list_byte_of_string "oops"];
     run_err := RunExitError 3; ctx_err := CtxNil; elapsed := 2000 |}.

Definition noisyHost : Host :=
  {| strings_ToLower := asciiToLower;
     strings_TrimSpace := asciiTrimSpace;
     regexp_tooLarge := fun _ => false;
     os_LookupEnv := parentEnv;
     range_CustomEnv := map_to_list;
     filepath_Abs := fun dir => inr ("/srv/" +:+ dir);
     os_TempDir := "/tmp";
     os_CreateTemp := fun dir pattern => inr (dir +:+ "/" +:+ pattern);
     file_WriteString := fun _ _ => None;
     cmd_Run := fun _ _ => noisyExit |}.

(** The same host with a child that writes [partial] and is killed by the
    deadline. *)
Definition killedByDeadline : RunOutcome :=
  {| stdout_writes := [list_byte_of_string "partial"]; stderr_writes := [];
     run_err := RunOther "signal: killed"; ctx_err := CtxDeadlineExceeded;
     elapsed := 30000000000 |}.

Definition slowHost : Host :=
  {| strings_ToLower := asciiToLower;
     strings_TrimSpace := asciiTrimSpace;
     regexp_tooLarge := fun _ => false;
     os_LookupEnv := parentEnv;
     range_CustomEnv := map_to_list;
     filepath_Abs := fun dir => inr ("/srv/" +:+ dir);
     os_TempDir := "/tmp";
     os_CreateTemp := fun dir pattern => inr (dir +:+ "/" +:+ pattern);
     file_WriteString := fun _ _ => None;
     cmd_Run := fun _ _ => killedByDeadline |}.

(** [%q] on text without quotes, backslashes or control bytes, and a
    duration printed in nanoseconds. *)
Definition fmt : Tools.Fmt :=
  {| Tools.strconv_Quote := fun s => dq +:+ s +:+ dq;
     Tools.duration_String := fun d => Tools.formatInt d +:+ "ns" |}.

(** A sandbox configuration with the given deny-list. *)
Definition configWith (blacklist : list string) : Config :=
  {| WorkingDir := "work"; Timeout := 30000000000;
     AllowedEnv := ["PATH"; "HOME"; "USER"; "LANG"; "LC_ALL"];
     CustomEnv := {[ "LOOPER" := "1" ]};
     MaxOutputBytes := 1048576;
     CommandBlacklist := blacklist |}.

(** An agent whose provider always asks for the tool [nope], which the
    registry does not know. *)
Definition nopeCall : Llm.ToolCall :=
  {| Llm.ID := "call_1"; Llm.Name := "nope"; Llm.Arguments := "{}" |}.

Definition alwaysNope : Llm.Response :=
  {| Llm.resp_Content := ""; Llm.resp_ToolCalls := [nopeCall];
     Llm.resp_StopReason := "tool_use";
     Llm.resp_Usage := {| Llm.InputTokens := 10; Llm.OutputTokens := 5 |} |}.

Definition alwaysNopeStream : list Llm.StreamEvent :=
  [Llm.StreamEventText "Let me check.";
   Llm.StreamEventToolCallStart
     {| Llm.ID := "call_1"; Llm.Name := "nope"; Llm.Arguments := "" |} 0;
   Llm.StreamEventToolCallDelta 0 "{}";
   Llm.StreamEventToolCallEnd nopeCall 0;
   Llm.StreamEventDone {| Llm.InputTokens := 10; Llm.OutputTokens := 5 |} "tool_use"].

Definition runtime : @Agent.Runtime unit string unit :=
  {| Agent.provider_Complete := fun _ w => (Agent.Success alwaysNope, w);
     Agent.provider_CompleteStream := Some (fun _ w => (Agent.Success alwaysNopeStream, w));
     Agent.json_Unmarshal := fun raw => Agent.Success raw;
     Agent.ctx_Done := fun _ => None;
     Agent.range_LoadedSkills := map_to_list |}.

Definition emptyRegistry : @Agent.Registry unit string unit :=
  {| Agent.Get := fun _ => None; Agent.List := [] |}.

Definition agentWithLimit (limit : Z) : @Agent.Agent unit string unit unit :=
  {| Agent.config := {| Agent.Provider := "anthropic"; Agent.Model := "m";
                        Agent.cfg_WorkspacePath := "."; Agent.SystemPrompt := "";
                        Agent.MaxIterations := limit; Agent.MaxTokens := 4096 |};
     Agent.registry := emptyRegistry;
     Agent.ctx := Agent.NewContext "." |}.

(** An OpenAI stream in which a fragment for index 0 arrives before the
    chunk that names the call. *)
Definition toolCallChunk (d : Stream.openaiStreamToolCall)
  : Stream.Line Stream.openaiStreamResponse :=
  Stream.LineData
    {| Stream.sr_Choices :=
         [{| Stream.choice_Delta :=
               {| Stream.delta_Content := ""; Stream.delta_ToolCalls := [d] |};
             Stream.choice_FinishReason := "" |}];
       Stream.sr_Usage := None |}.

Definition earlyFragmentLines : list (Stream.Line Stream.openaiStreamResponse) :=
  [toolCallChunk {| Stream.tcd_Index := 0; Stream.tcd_ID := "";
                    Stream.tcd_FunctionName := "";
                    Stream.tcd_FunctionArguments := "[1," |};
   toolCallChunk {| Stream.tcd_Index := 0; Stream.tcd_ID := "call_1";
                    Stream.tcd_FunctionName := "read_file";
                    Stream.tcd_FunctionArguments := "2]" |}].

Definition anthropicLine (type : string) (block : option Stream.anthropicBlock)
    (delta : option Stream.anthropicEventDelta)
  : Stream.Line Stream.anthropicStreamEvent :=
  Stream.LineData
    {| Stream.ev_Type := type; Stream.ev_MessageInputTokens := None;
       Stream.ev_Index := 0; Stream.ev_ContentBlock := block;
       Stream.ev_Delta := delta; Stream.ev_UsageOutputTokens := None |}.

Definition jsonDelta (fragment : string) : option Stream.anthropicEventDelta :=
  Some {| Stream.ed_Type := "input_json_delta"; Stream.ed_Text := "";
          Stream.ed_PartialJSON := fragment; Stream.ed_StopReason := "" |}.

(** The block of index 0 is stopped twice, with a fragment in between. *)
Definition repeatedStopLines : list (Stream.Line Stream.anthropicStreamEvent) :=
  [anthropicLine "content_block_start"
     (Some {| Stream.block_Type := "tool_use"; Stream.block_ID := "toolu_1";
              Stream.block_Name := "read_file" |}) None;
   anthropicLine "content_block_delta" None (jsonDelta "{");
   anthropicLine "content_block_stop" None None;
   anthropicLine "content_block_delta" None (jsonDelta "}");
   anthropicLine "content_block_stop" None None;
   anthropicLine "message_stop" None None].

(** A provider that asks for the tool [nope] as long as the last message
    of the request is the user's, and answers [hello] once it sees the
    tool result; the same as a stream, in two fragments. *)
Definition lastIsUser (msgs : list Llm.Message) : bool :=
  match last msgs with
  | Some m => match Llm.msg_Role m with Llm.RoleUser => true | _ => false end
  | None => false
  end.

Definition greeting : Llm.Response :=
  {| Llm.resp_Content := "hello"; Llm.resp_ToolCalls := [];
     Llm.resp_StopReason := "end_turn";
     Llm.resp_Usage := {| Llm.InputTokens := 7; Llm.OutputTokens := 2 |} |}.

Definition greetingStream : list Llm.StreamEvent :=
  [Llm.StreamEventText "hel"; Llm.StreamEventText "lo";
   Llm.StreamEventDone {| Llm.InputTokens := 7; Llm.OutputTokens := 2 |} "end_turn"].

Definition helpfulStream (req : Llm.CompletionRequest unit) (w : unit)
  : Agent.result (list Llm.StreamEvent) * unit :=
  (Agent.Success (if lastIsUser (Llm.req_Messages req)
                  then alwaysNopeStream else greetingStream), w).

Definition helpful (streams : bool) : @Agent.Runtime unit string unit :=
  {| Agent.provider_Complete := fun req w =>
       (Agent.Success (if lastIsUser (Llm.req_Messages req)
                       then alwaysNope else greeting), w);
     Agent.provider_CompleteStream := if streams then Some helpfulStream else None;
     Agent.json_Unmarshal := fun raw => Agent.Success raw;
     Agent.ctx_Done := fun _ => None;
     Agent.range_LoadedSkills := map_to_list |}.

(** A handler with every callback set. *)
Definition fullHandler : option Agent.StreamHandler :=
  Some {| Agent.OnText := true; Agent.OnToolStart := true; Agent.OnToolEnd := true;
          Agent.OnUsage := true; Agent.OnDone := true |}.

End Demo.

(** * Properties *)

Lemma int64_wrap_id z : int64_range z -> int64_wrap z = z.
Proof.
  unfold int64_range, int64_wrap. intros Hz.
  rewrite Z.mod_small by lia. lia.
Qed.

(** ** The output cap *)

Section OutputCap.
Import LimitedWriter.

(** A write that fits below the cap is stored whole and reported whole. *)
Lemma limitedWriter_Write_fits (lw : limitedWriter Buffer) (p : list byte) :
  int64_range (limit lw) -> 0 <= written lw -> written lw + len p <= limit lw ->
  written lw < limit lw ->
  limitedWriter_Write lw p =
    ({| w := {| buf_bytes := captured lw ++ p |}; limit := limit lw;
        written := written lw + len p |}, len p, None).
Proof.
  intros Hl Hw Hfit Hlt. unfold limitedWriter_Write, captured.
  destruct (Z.leb_spec (limit lw) (written lw)); [lia|].
  unfold int64_range in *.
  rewrite (int64_wrap_id (limit lw - written lw)) by (unfold int64_range; lia).
  destruct (Z.ltb_spec (limit lw - written lw) (len p)); [lia|].
  cbn. rewrite int64_wrap_id by (unfold int64_range, len in *; lia). reflexivity.
Qed.

(** A write that crosses the cap stores the bytes up to the cap and
    reports only those: fewer than it was given. *)
Lemma limitedWriter_Write_crossing (lw : limitedWriter Buffer) (p : list byte) :
  int64_range (limit lw) -> 0 <= written lw < limit lw ->
  limit lw - written lw < len p ->
  limitedWriter_Write lw p =
    ({| w := {| buf_bytes := captured lw ++ slice_to p (limit lw - written lw) |};
        limit := limit lw; written := limit lw |},
     limit lw - written lw, None).
Proof.
  intros Hl Hw Hcross. unfold limitedWriter_Write, captured.
  destruct (Z.leb_spec (limit lw) (written lw)); [lia|].
  unfold int64_range in *.
  rewrite (int64_wrap_id (limit lw - written lw)) by (unfold int64_range; lia).
  destruct (Z.ltb_spec (limit lw - written lw) (len p)); [|lia].
  cbn. unfold len, slice_to in *. rewrite length_take.
  rewrite Nat.min_l by lia. rewrite Z2Nat.id by lia.
  rewrite int64_wrap_id by (unfold int64_range; lia).
  do 3 f_equal. lia.
Qed.

(** Once the cap is reached every write is discarded and reported whole. *)
Lemma limitedWriter_Write_full (lw : limitedWriter Buffer) (p : list byte) :
  limit lw <= written lw -> limitedWriter_Write lw p = (lw, len p, None).
Proof.
  intros H. unfold limitedWriter_Write.
  destruct (Z.leb_spec (limit lw) (written lw)); [reflexivity|lia].
Qed.

(** The captured bytes are a prefix of what was written, never longer than
    the cap: the buffer holds the first [limit] bytes of the stream. *)
Lemma writeAll_captured (chunks : list (list byte)) (lw : limitedWriter Buffer) :
  int64_range (limit lw) -> written lw = len (captured lw) ->
  captured (writeAll lw chunks) =
    captured lw ++ take (Z.to_nat (limit lw - written lw)) (concat chunks).
Proof.
  revert lw. induction chunks as [|p rest IH]; intros lw Hl Hw; cbn [writeAll concat].
  - rewrite take_nil, app_nil_r. reflexivity.
  - assert (0 <= written lw) by (rewrite Hw; unfold len; lia).
    destruct (Z.le_gt_cases (limit lw) (written lw)) as [Hfull|Hroom].
    + rewrite limitedWriter_Write_full by assumption. cbn [fst].
      rewrite IH by assumption.
      replace (Z.to_nat (limit lw - written lw)) with O by lia.
      reflexivity.
    + destruct (Z.le_gt_cases (len p) (limit lw - written lw)) as [Hfit|Hcross].
      * rewrite limitedWriter_Write_fits by (assumption || lia). cbn [fst].
        rewrite IH; cbn [limit written w captured buf_bytes]; [|assumption|].
        -- rewrite <- app_assoc. f_equal. unfold captured.
           rewrite take_app_ge by (unfold len in *; lia).
           do 2 f_equal. unfold len in *. lia.
        -- unfold len in *. rewrite length_app. lia.
      * rewrite limitedWriter_Write_crossing by (assumption || lia). cbn [fst].
        rewrite IH; cbn [limit written w captured buf_bytes]; [|assumption|].
        -- rewrite Z.sub_diag. cbn [Z.to_nat take]. rewrite app_nil_r.
           unfold slice_to, captured. f_equal.
           rewrite take_app_le by (unfold len in *; lia). reflexivity.
        -- unfold len, slice_to in *. rewrite length_app, length_take. lia.
Qed.

(** For a stream capped at [cap], whatever the chunking: exactly the first
    [cap] bytes once more than [cap] bytes are written. *)
Lemma newCapture_first_bytes (cap : Z) (chunks : list (list byte)) :
  0 <= cap -> int64_range cap ->
  captured (writeAll (newCapture cap) chunks) = take (Z.to_nat cap) (concat chunks)
  /\ (cap < len (concat chunks) ->
      len (captured (writeAll (newCapture cap) chunks)) = cap).
Proof.
  intros Hc Hr.
  assert (E : captured (writeAll (newCapture cap) chunks)
              = take (Z.to_nat cap) (concat chunks)).
  { rewrite writeAll_captured by (cbn; auto). cbn. f_equal. f_equal. lia. }
  split; [exact E|]. intros Hlong. rewrite E. unfold len in *.
  rewrite length_take. lia.
Qed.

(** C5 (the code departs from it): the write that crosses the cap does not
    report its full input length.  With a cap of 4 bytes, an empty buffer
    and a 6-byte write, [Write] stores the first 4 bytes and returns 4, not
    6, because [p] was re-assigned to [p[:remaining]] before [len(p)] is
    returned; the comment on that line promises the full length. *)
Theorem limitedWriter_Write_short_count :
  let p := list_byte_of_string "abcdef" in
  let r := limitedWriter_Write (newCapture 4) p in
  len p = 6 /\ r.1.2 = 4 /\ r.2 = None /\
  captured r.1.1 = list_byte_of_string "abcd".
Proof. cbv zeta. repeat split; reflexivity. Qed.

End OutputCap.

(** ** The child environment *)

Section ChildEnvironment.
Import Sandbox.

Variable h : Host.

(** An entry of the environment block: [key=value]. *)
Definition envEntry (key val : string) : string := key +:+ "=" +:+ val.

(** The entries copied from the parent: the allow-listed names, in order,
    that the parent has. *)
Definition allowedEntries (keys : list string) : list string :=
  omap (fun key => envEntry key <$> os_LookupEnv h key) keys.

Definition customEntries (kvs : list (string * string)) : list string :=
  map (fun kv => envEntry kv.1 kv.2) kvs.

Definition setsPath (env : list string) : bool :=
  existsb (fun e => HasPrefix e "PATH=") env.

Lemma copyAllowed_spec keys env :
  copyAllowed h keys env = env ++ allowedEntries keys.
Proof.
  revert env. induction keys as [|key rest IH]; intros env; cbn.
  - by rewrite app_nil_r.
  - destruct (os_LookupEnv h key) as [val|]; cbn; rewrite IH; [|done].
    by rewrite <- app_assoc.
Qed.

Lemma addCustom_spec kvs env :
  addCustom kvs env = env ++ customEntries kvs.
Proof.
  revert env. induction kvs as [|[key val] rest IH]; intros env; cbn.
  - by rewrite app_nil_r.
  - rewrite IH. by rewrite <- app_assoc.
Qed.

Lemma scanHasPath_spec env : scanHasPath env = setsPath env.
Proof.
  induction env as [|e rest IH]; cbn; [done|].
  destruct (HasPrefix e "PATH="); [done|]. by rewrite IH.
Qed.

Lemma buildEnvironment_unfold cfg :
  buildEnvironment h cfg =
    allowedEntries (AllowedEnv cfg) ++
    customEntries (range_CustomEnv h (CustomEnv cfg)) ++
    (if setsPath (allowedEntries (AllowedEnv cfg) ++
                  customEntries (range_CustomEnv h (CustomEnv cfg)))
     then [] else [defaultPathEntry]).
Proof.
  unfold buildEnvironment. rewrite scanHasPath_spec, addCustom_spec, copyAllowed_spec.
  cbn [app].
  destruct (setsPath _); cbn [negb]; by rewrite ?app_nil_r, <- ?app_assoc.
Qed.

Lemma elem_of_allowedEntries e keys :
  e ∈ allowedEntries keys <->
  exists key val, key ∈ keys /\ os_LookupEnv h key = Some val /\ e = envEntry key val.
Proof.
  unfold allowedEntries. rewrite list_elem_of_omap. split.
  - intros (key & Hin & Heq). destruct (os_LookupEnv h key) as [val|] eqn:E; [|done].
    cbn in Heq. exists key, val. naive_solver.
  - intros (key & val & Hin & E & ->). exists key. rewrite E. done.
Qed.

(** C6: the environment handed to the child is, in this order, the
    allow-listed names that exist in the parent with their parent values,
    the custom key/value pairs, and the default [PATH] entry, present
    exactly when no earlier entry sets [PATH]; hence every entry of the
    child environment is an allow-listed parent variable, a custom
    override or that default, and nothing else of the parent environment
    reaches the child. *)
Theorem buildEnvironment_exact (cfg : Config) :
  range_CustomEnv h (CustomEnv cfg) ≡ₚ map_to_list (CustomEnv cfg) ->
  let allowed := allowedEntries (AllowedEnv cfg) in
  let custom := customEntries (range_CustomEnv h (CustomEnv cfg)) in
  buildEnvironment h cfg =
    allowed ++ custom ++ (if setsPath (allowed ++ custom) then [] else [defaultPathEntry])
  /\ (forall e, e ∈ allowed <->
        exists key val, key ∈ AllowedEnv cfg /\ os_LookupEnv h key = Some val /\
                        e = envEntry key val)
  /\ (forall e, e ∈ custom <->
        exists key val, CustomEnv cfg !! key = Some val /\ e = envEntry key val)
  /\ (forall e, e ∈ buildEnvironment h cfg ->
        (exists key val, key ∈ AllowedEnv cfg /\ os_LookupEnv h key = Some val /\
                         e = envEntry key val)
        \/ (exists key val, CustomEnv cfg !! key = Some val /\ e = envEntry key val)
        \/ (e = defaultPathEntry /\ setsPath (allowed ++ custom) = false)).
Proof.
  intros Hrange allowed custom.
  assert (Hcustom : forall e, e ∈ custom <->
            exists key val, CustomEnv cfg !! key = Some val /\ e = envEntry key val).
  { intros e. unfold custom, customEntries. rewrite list_elem_of_fmap. split.
    - intros ([key val] & -> & Hin). exists key, val. split; [|done].
      apply elem_of_map_to_list. by rewrite <- Hrange.
    - intros (key & val & Hlook & ->). exists (key, val). split; [done|].
      rewrite Hrange. by apply elem_of_map_to_list. }
  split; [apply buildEnvironment_unfold|].
  split; [intros e; apply elem_of_allowedEntries|].
  split; [exact Hcustom|].
  intros e. rewrite buildEnvironment_unfold. fold allowed custom.
  rewrite !elem_of_app. intros [Hin|[Hin|Hin]].
  - left. by apply elem_of_allowedEntries.
  - right; left. by apply Hcustom.
  - right; right. destruct (setsPath (allowed ++ custom)); [by apply elem_of_nil in Hin|].
    apply list_elem_of_singleton in Hin. done.
Qed.

(** Does the name hold an equals sign? *)
Fixpoint hasEquals (s : string) : bool :=
  match s with
  | EmptyString => false
  | String c rest => Ascii.eqb c "=" || hasEquals rest
  end.

Lemma envEntry_inj key1 val1 key2 val2 :
  hasEquals key1 = false -> hasEquals key2 = false ->
  envEntry key1 val1 = envEntry key2 val2 -> key1 = key2 /\ val1 = val2.
Proof.
  unfold envEntry. revert key2.
  induction key1 as [|c key1 IH]; intros [|d key2] H1 H2 Heq; cbn in *.
  - by injection Heq.
  - injection Heq as <- _. by rewrite Ascii.eqb_refl in H2.
  - injection Heq as -> _. by rewrite Ascii.eqb_refl in H1.
  - injection Heq as <- Heq. apply orb_false_iff in H1 as [_ H1].
    apply orb_false_iff in H2 as [_ H2].
    destruct (IH key2 H1 H2 Heq) as [<- <-]. done.
Qed.

(** Isolation by name: when the configured names are well-formed (no
    equals sign), a variable that is neither allow-listed, nor a custom
    override, nor [PATH] has no entry in the child environment, whatever
    the parent holds for it. *)
Theorem buildEnvironment_isolation (cfg : Config) (name : string) :
  range_CustomEnv h (CustomEnv cfg) ≡ₚ map_to_list (CustomEnv cfg) ->
  (forall key, key ∈ AllowedEnv cfg -> hasEquals key = false) ->
  (forall key val, CustomEnv cfg !! key = Some val -> hasEquals key = false) ->
  hasEquals name = false ->
  name ∉ AllowedEnv cfg ->
  CustomEnv cfg !! name = None ->
  name <> "PATH" ->
  forall val, envEntry name val ∉ buildEnvironment h cfg.
Proof.
  intros Hrange Hallowed Hcustom Hname Hnot Hnone Hpath val Hin.
  rewrite buildEnvironment_unfold, !elem_of_app in Hin.
  destruct Hin as [Hin|[Hin|Hin]].
  - apply elem_of_allowedEntries in Hin as (key & v & Hkey & _ & Heq).
    apply envEntry_inj in Heq as [-> _]; auto.
  - unfold customEntries in Hin. apply list_elem_of_fmap in Hin as ([key v] & Heq & Hkv).
    rewrite Hrange in Hkv. apply elem_of_map_to_list in Hkv.
    cbn in Heq. apply envEntry_inj in Heq as [-> _]; [congruence|done|by eapply Hcustom].
  - destruct (setsPath _); [by apply elem_of_nil in Hin|].
    apply list_elem_of_singleton in Hin.
    change defaultPathEntry with (envEntry "PATH" "/usr/local/bin:/usr/bin:/bin") in Hin.
    apply envEntry_inj in Hin as [-> _]; done.
Qed.

End ChildEnvironment.

(** ** Running a command: timeouts, exit codes and errors *)

Section RunCommand.
Import Sandbox.

Variable h : Host.

(** The command as [runCommand] completes it before starting it. *)
Definition preparedCmd (cfg : Config) (cmd : Cmd) (absWorkDir : string) : Cmd :=
  {| Path := Path cmd; Args := Args cmd; Dir := absWorkDir;
     Env := buildEnvironment h cfg; Deadline := Deadline cmd |}.

(** [runCommand] starts at most one process and never touches the log it
    was given. *)
Lemma runCommand_log cfg log cmd :
  (exists cause,
     filepath_Abs h (WorkingDir cfg) = inl cause /\ (runCommand h cfg log cmd).2 = log)
  \/ (exists absWorkDir,
        filepath_Abs h (WorkingDir cfg) = inr absWorkDir /\
        (runCommand h cfg log cmd).2 = log ++ [EffRun (preparedCmd cfg cmd absWorkDir)]).
Proof.
  unfold runCommand.
  destruct (filepath_Abs h (WorkingDir cfg)) as [cause|absWorkDir]; [left; eauto|].
  right. exists absWorkDir. split; [done|]. fold (preparedCmd cfg cmd absWorkDir).
  set (ran := cmd_Run h log (preparedCmd cfg cmd absWorkDir)).
  destruct (ctx_err ran), (run_err ran); reflexivity.
Qed.

(** C4: once the working directory is resolved and the command has been
    run, a deadline that fired gives a result with [TimedOut = true] and
    exit code -1 and no error, whatever [cmd.Run] returned; without a fired
    deadline an exit error of the child gives a result carrying the child's
    exit code and no error; and an error is returned only when the working
    directory cannot be resolved or [cmd.Run] failed with something other
    than an exit error. *)
Theorem runCommand_timeout_and_exit_code (cfg : Config) (log : list Effect) (cmd : Cmd) :
  (forall absWorkDir,
     filepath_Abs h (WorkingDir cfg) = inr absWorkDir ->
     let ran := cmd_Run h log (preparedCmd cfg cmd absWorkDir) in
     (ctx_err ran = CtxDeadlineExceeded ->
      exists r, (runCommand h cfg log cmd).1 = Ok r /\
                TimedOut r = true /\ ExitCode r = -1)
     /\ (forall code,
           ctx_err ran <> CtxDeadlineExceeded -> run_err ran = RunExitError code ->
           exists r, (runCommand h cfg log cmd).1 = Ok r /\
                     TimedOut r = false /\ ExitCode r = code)
     /\ (ctx_err ran <> CtxDeadlineExceeded -> run_err ran = RunNil ->
         exists r, (runCommand h cfg log cmd).1 = Ok r /\
                   TimedOut r = false /\ ExitCode r = 0))
  /\ (forall e,
        (runCommand h cfg log cmd).1 = Err e ->
        (exists cause, filepath_Abs h (WorkingDir cfg) = inl cause /\
                       e = ErrInvalidWorkingDir cause)
        \/ (exists absWorkDir msg,
              filepath_Abs h (WorkingDir cfg) = inr absWorkDir /\
              let ran := cmd_Run h log (preparedCmd cfg cmd absWorkDir) in
              ctx_err ran <> CtxDeadlineExceeded /\ run_err ran = RunOther msg /\
              e = ErrExecutionFailed msg)).
Proof.
  split.
  - intros absWorkDir Habs ran. unfold runCommand. rewrite Habs.
    fold (preparedCmd cfg cmd absWorkDir). fold ran.
    repeat split.
    + intros ->. eexists. cbn. eauto.
    + intros code Hctx ->. destruct (ctx_err ran); try done; eexists; cbn; eauto.
    + intros Hctx ->. destruct (ctx_err ran); try done; eexists; cbn; eauto.
  - intros e. unfold runCommand.
    destruct (filepath_Abs h (WorkingDir cfg)) as [cause|absWorkDir] eqn:Habs.
    + cbn. intros [= <-]. left. eauto.
    + fold (preparedCmd cfg cmd absWorkDir). intros He. right.
      exists absWorkDir.
      destruct (ctx_err (cmd_Run h log (preparedCmd cfg cmd absWorkDir))) eqn:Hctx;
        destruct (run_err (cmd_Run h log (preparedCmd cfg cmd absWorkDir))) eqn:Hrun;
        cbn in He; try discriminate; injection He as <-;
        exists msg; cbv zeta; repeat split; done.
Qed.

End RunCommand.

(** ** The deny-list *)

Section StringFacts.
Import Sandbox.

Lemma append_cons (c : ascii) (s t : string) : String c s +:+ t = String c (s +:+ t).
Proof. reflexivity. Qed.

Lemma append_nil_l (t : string) : "" +:+ t = t.
Proof. reflexivity. Qed.

Lemma append_nil_r (s : string) : s +:+ "" = s.
Proof. induction s as [|c s IH]; [done|]. by rewrite append_cons, IH. Qed.

Lemma append_assoc (a b c : string) : (a +:+ b) +:+ c = a +:+ (b +:+ c).
Proof. induction a as [|x a IH]; [done|]. by rewrite !append_cons, IH. Qed.

Lemma prefix_spec (p s : string) :
  String.prefix p s = true <-> exists post, s = p +:+ post.
Proof.
  revert s. induction p as [|c p IH]; intros s.
  - destruct s; cbn; (split; [intros _; eexists; by rewrite append_nil_l|done]).
  - destruct s as [|d s]; cbn; [split; [done|intros [post [=]]]|].
    destruct (ascii_dec c d) as [->|Hne].
    + rewrite IH. split; intros [post Hp]; exists post.
      * rewrite append_cons. congruence.
      * rewrite append_cons in Hp. congruence.
    + split; [done|intros [post Hp]]. rewrite append_cons in Hp. congruence.
Qed.

Lemma Contains_spec (s sub : string) :
  Contains s sub = true <-> exists pre post, s = pre +:+ sub +:+ post.
Proof.
  induction s as [|c s IH]; cbn [Contains]; unfold HasPrefix;
    rewrite orb_true_iff, prefix_spec.
  - split.
    + intros [[post Hp]|[=]]. by exists "", post.
    + intros (pre & post & Hp). left. destruct pre; [by exists post|done].
  - rewrite IH. split.
    + intros [[post Hp]|(pre & post & Hp)]; [by exists "", post|].
      exists (String c pre), post. rewrite append_cons. by rewrite Hp.
    + intros ([|d pre] & post & Hp); [left; by exists post|].
      right. exists pre, post. rewrite append_cons in Hp. congruence.
Qed.

(** Does the text hold a line feed? *)
Fixpoint hasNewline (s : string) : bool :=
  match s with
  | EmptyString => false
  | String c rest => Ascii.eqb c newline || hasNewline rest
  end.

Lemma hasNewline_app (a b : string) :
  hasNewline (a +:+ b) = hasNewline a || hasNewline b.
Proof.
  induction a as [|c a IH]; [done|].
  rewrite append_cons. cbn. by rewrite IH, orb_assoc.
Qed.

(** Whitespace normalization leaves no line feed behind, so [.] matches
    every byte of a normalized input. *)
Lemma collapseSpaceFrom_no_newline (inRun : bool) (s : string) :
  hasNewline (collapseSpaceFrom inRun s) = false.
Proof.
  revert inRun. induction s as [|c s IH]; intros inRun; cbn; [done|].
  destruct (isRegexpSpace c) eqn:Hsp.
  - destruct inRun; cbn; apply IH.
  - cbn. rewrite IH, orb_false_r. apply Ascii.eqb_neq. intros ->. discriminate.
Qed.

End StringFacts.

Section DenyList.
Import Sandbox.

Variable h : Host.

(** The pattern language of the deny-list, read off the pattern itself:
    [*] stands for any run of bytes, any other byte for itself. *)
Inductive globMatch : string -> string -> Prop :=
| globMatch_nil : globMatch "" ""
| globMatch_star p run t :
    globMatch p t -> globMatch (String "*" p) (run +:+ t)
| globMatch_byte c p t :
    c <> "*"%char -> globMatch p t -> globMatch (String c p) (String c t).

(** The text holds a piece the pattern matches. *)
Definition globOccurs (pattern text : string) : Prop :=
  exists pre mid post, text = pre +:+ mid +:+ post /\ globMatch pattern mid.

Definition substringOf (sub text : string) : Prop :=
  exists pre post, text = pre +:+ sub +:+ post.

(** Does the regular expression built from the lower-cased pattern
    compile? *)
Definition patternCompiles (lowered : string) : bool :=
  match regexp_Compile h (replaceEscapedStar (QuoteMeta lowered)) with
  | Some _ => true
  | None => false
  end.

(** The deny-list pattern [P] matches the input as the sandbox decides it:
    the input lower-cased and whitespace-normalized, the pattern
    lower-cased, [*] a wildcard; plain containment when the expression does
    not compile. *)
Definition denyListMatch (P input : string) : Prop :=
  let text := collapseSpace (strings_ToLower h input) in
  let pattern := strings_ToLower h P in
  if patternCompiles pattern then globOccurs pattern text
  else substringOf pattern text.

(** The same with the pattern whitespace-normalized as well. *)
Definition denyListMatchNormalized (P input : string) : Prop :=
  let text := collapseSpace (strings_ToLower h input) in
  let pattern := collapseSpace (strings_ToLower h P) in
  if patternCompiles pattern then globOccurs pattern text
  else substringOf pattern text.

(** The expression [regexp.Compile] reads from a quoted pattern. *)
Fixpoint tokensOf (pattern : string) : list token :=
  match pattern with
  | EmptyString => []
  | String c rest =>
      (if Ascii.eqb c "*" then AnyStar else Lit c) :: tokensOf rest
  end.

Lemma QuoteMeta_head_not_star (s : string) :
  match QuoteMeta s with
  | String c _ => c <> "*"%char
  | EmptyString => True
  end.
Proof.
  destruct s as [|c s]; cbn; [done|].
  destruct (isSpecial c) eqn:Hsp; [done|]. intros ->. discriminate.
Qed.

Lemma replaceEscapedStar_cons (c : ascii) (s : string) :
  (c <> "\"%char \/ match s with String d _ => d <> "*"%char | EmptyString => True end) ->
  replaceEscapedStar (String c s) = String c (replaceEscapedStar s).
Proof.
  intros Hc. destruct (ascii_dec c "\") as [->|Hne].
  - destruct Hc as [|Hs]; [done|]. destruct s as [|d s]; [done|].
    destruct (ascii_dec d "*") as [->|Hd]; [done|].
    cbn. destruct d as [[] [] [] [] [] [] [] []]; try reflexivity. done.
  - cbn. destruct c as [[] [] [] [] [] [] [] []]; try reflexivity. done.
Qed.

(** Quoting and un-quoting the star always yields an expression of the
    fragment: the literal bytes of the pattern with [.*] for each [*]. *)
Lemma parseRegexp_quoted (pattern : string) :
  parseRegexp (replaceEscapedStar (QuoteMeta pattern)) = Some (tokensOf pattern).
Proof.
  induction pattern as [|c rest IH]; [done|].
  cbn [QuoteMeta tokensOf].
  destruct (isSpecial c) eqn:Hsp.
  - destruct (Ascii.eqb_spec c "*") as [->|Hstar].
    + change (replaceEscapedStar (String "\" (String "*" (QuoteMeta rest))))
        with (String "." (String "*" (replaceEscapedStar (QuoteMeta rest)))).
      change (parseRegexp (String "." (String "*" ?r)))
        with (cons AnyStar <$> parseRegexp r).
      by rewrite IH.
    + rewrite replaceEscapedStar_cons by (right; done).
      rewrite replaceEscapedStar_cons by (right; apply QuoteMeta_head_not_star).
      cbn [parseRegexp]. rewrite Hsp, IH. done.
  - destruct (Ascii.eqb_spec c "*") as [->|Hstar]; [discriminate|].
    rewrite replaceEscapedStar_cons by (left; intros ->; discriminate).
    assert (Hparse : forall r, parseRegexp (String c r)
              = cons (Lit c) <$> parseRegexp r).
    { intros r. cbn [parseRegexp].
      destruct c as [[] [] [] [] [] [] [] []]; try discriminate Hsp; reflexivity. }
    rewrite Hparse, IH. done.
Qed.

Lemma regexp_Compile_quoted (pattern : string) :
  regexp_Compile h (replaceEscapedStar (QuoteMeta pattern)) =
    if patternCompiles pattern then Some (tokensOf pattern) else None.
Proof.
  unfold patternCompiles, regexp_Compile.
  destruct (regexp_tooLarge h _); [done|]. by rewrite parseRegexp_quoted.
Qed.

Lemma matchHere_star (re : list token) (s : string) :
  matchHere (AnyStar :: re) s =
    matchHere re s ||
    match s with
    | String d s' => negb (Ascii.eqb d newline) && matchHere (AnyStar :: re) s'
    | EmptyString => false
    end.
Proof. destruct s; reflexivity. Qed.

Lemma matchHere_star_run (re : list token) (run rest : string) :
  hasNewline run = false -> matchHere re rest = true ->
  matchHere (AnyStar :: re) (run +:+ rest) = true.
Proof.
  intros Hrun Hrest. induction run as [|d run IH].
  - rewrite append_nil_l, matchHere_star, Hrest. done.
  - cbn in Hrun. apply orb_false_iff in Hrun as [Hd Hrun].
    rewrite append_cons, matchHere_star, Hd, IH by done.
    cbn. apply orb_true_r.
Qed.

(** Completeness of the matcher: a piece the pattern matches, free of
    line feeds, is matched where it starts. *)
Lemma matchHere_complete (pattern mid : string) :
  globMatch pattern mid -> hasNewline mid = false ->
  forall post, matchHere (tokensOf pattern) (mid +:+ post) = true.
Proof.
  induction 1 as [|p run t Hm IH|c p t Hc Hm IH]; intros Hnl post.
  - done.
  - rewrite hasNewline_app in Hnl. apply orb_false_iff in Hnl as [Hrun Ht].
    cbn [tokensOf]. change (Ascii.eqb "*" "*") with true. cbv iota.
    rewrite append_assoc. apply matchHere_star_run; auto.
  - cbn in Hnl. apply orb_false_iff in Hnl as [_ Ht].
    cbn [tokensOf]. destruct (Ascii.eqb_spec c "*") as [->|_]; [done|].
    rewrite append_cons. cbn [matchHere]. rewrite Ascii.eqb_refl. cbn. auto.
Qed.

(** Soundness: what the matcher accepts starts with a piece the pattern
    matches. *)
Lemma matchHere_sound (pattern s : string) :
  matchHere (tokensOf pattern) s = true ->
  exists mid post, s = mid +:+ post /\ globMatch pattern mid.
Proof.
  revert s. induction pattern as [|c rest IH]; intros s Hs.
  - exists "", s. split; [done|constructor].
  - cbn [tokensOf] in Hs. destruct (Ascii.eqb_spec c "*") as [->|Hc].
    + induction s as [|d s IHs].
      * rewrite matchHere_star, orb_false_r in Hs.
        destruct (IH _ Hs) as (mid & post & Heq & Hm).
        exists ("" +:+ mid), post. split; [done|by constructor].
      * rewrite matchHere_star in Hs. apply orb_true_iff in Hs as [Hs|Hs].
        -- destruct (IH _ Hs) as (mid & post & Heq & Hm).
           exists ("" +:+ mid), post. split; [done|by constructor].
        -- apply andb_true_iff in Hs as [_ Hs].
           destruct (IHs Hs) as (mid & post & Heq & Hm).
           inversion Hm as [|p run t Hm' E1 E2|]; subst; [|done].
           exists (String d run +:+ t), post. split; [done|by constructor].
    + destruct s as [|d s]; [done|]. cbn [matchHere] in Hs.
      apply andb_true_iff in Hs as [Hd Hs]. apply Ascii.eqb_eq in Hd as <-.
      destruct (IH _ Hs) as (mid & post & Heq & Hm).
      exists (String c mid), post. split; [by rewrite append_cons, Heq|by constructor].
Qed.

Lemma MatchString_spec (pattern text : string) :
  hasNewline text = false ->
  MatchString (tokensOf pattern) text = true <-> globOccurs pattern text.
Proof.
  intros Hnl. split.
  - induction text as [|c text IH]; cbn [MatchString]; rewrite orb_true_iff.
    + intros [Hs|[=]]. destruct (matchHere_sound _ _ Hs) as (mid & post & Heq & Hm).
      exists "", mid, post. done.
    + cbn in Hnl. apply orb_false_iff in Hnl as [_ Hnl].
      intros [Hs|Hs].
      * destruct (matchHere_sound _ _ Hs) as (mid & post & Heq & Hm).
        exists "", mid, post. done.
      * destruct (IH Hnl Hs) as (pre & mid & post & Heq & Hm).
        exists (String c pre), mid, post. by rewrite append_cons, Heq.
  - intros (pre & mid & post & -> & Hm).
    rewrite !hasNewline_app in Hnl.
    apply orb_false_iff in Hnl as [Hpre Hnl]. apply orb_false_iff in Hnl as [Hmid _].
    clear Hpre. induction pre as [|c pre IH].
    + rewrite append_nil_l.
      destruct (mid +:+ post) eqn:E; cbn [MatchString];
        rewrite <- E, matchHere_complete by done; done.
    + rewrite append_cons. cbn [MatchString]. rewrite IH. apply orb_true_r.
Qed.

(** The loop body decides exactly [denyListMatch]. *)
Lemma patternBlocks_spec (P input : string) :
  patternBlocks h (collapseSpace (strings_ToLower h input)) P = true <->
  denyListMatch P input.
Proof.
  unfold patternBlocks, denyListMatch. rewrite regexp_Compile_quoted.
  destruct (patternCompiles (strings_ToLower h P)).
  - apply MatchString_spec, collapseSpaceFrom_no_newline.
  - apply Contains_spec.
Qed.

Lemma checkPatterns_spec (text : string) (patterns : list string) :
  (forall e, checkPatterns h text patterns = Some e ->
     exists P, P ∈ patterns /\ e = ErrBlacklisted P /\ patternBlocks h text P = true)
  /\ (forall P, P ∈ patterns -> patternBlocks h text P = true ->
        exists P', P' ∈ patterns /\ checkPatterns h text patterns = Some (ErrBlacklisted P')).
Proof.
  induction patterns as [|Q rest [IH1 IH2]]; cbn [checkPatterns].
  - split; [done|]. intros P HP. by apply elem_of_nil in HP.
  - destruct (patternBlocks h text Q) eqn:HQ.
    + split.
      * intros e [= <-]. exists Q. split; [left|done].
      * intros P _ _. exists Q. split; [left|done].
    + split.
      * intros e He. destruct (IH1 _ He) as (P & HP & ? & ?).
        exists P. split; [by right|done].
      * intros P HP Hb. apply elem_of_cons in HP as [->|HP]; [congruence|].
        destruct (IH2 _ HP Hb) as (P' & HP' & ?). exists P'. split; [by right|done].
Qed.

(** [checkBlacklist] returns an error exactly when some pattern of the
    list matches, and the error names a matching pattern. *)
Lemma checkBlacklist_spec (cfg : Config) (input : string) :
  (forall e, checkBlacklist h cfg input = Some e ->
     exists P, P ∈ CommandBlacklist cfg /\ e = ErrBlacklisted P /\ denyListMatch P input)
  /\ (forall P, P ∈ CommandBlacklist cfg -> denyListMatch P input ->
        exists P', P' ∈ CommandBlacklist cfg /\
                   checkBlacklist h cfg input = Some (ErrBlacklisted P')).
Proof.
  unfold checkBlacklist.
  destruct (checkPatterns_spec (collapseSpace (strings_ToLower h input))
              (CommandBlacklist cfg)) as [H1 H2].
  destruct (CommandBlacklist cfg) as [|Q rest] eqn:E.
  - split; [done|]. intros P HP. by apply elem_of_nil in HP.
  - replace (len (Q :: rest) =? 0) with false
      by (symmetry; apply Z.eqb_neq; unfold len; cbn; lia).
    split.
    + intros e He. destruct (H1 _ He) as (P & ? & ? & ?).
      exists P. by rewrite <- patternBlocks_spec.
    + intros P HP Hm. apply H2 with P; [done|]. by apply patternBlocks_spec.
Qed.

End DenyList.

Section DenyListExecution.
Import Sandbox.

Variable h : Host.

Lemma Execute_blacklisted cfg command args err :
  checkBlacklist h cfg (command +:+ " " +:+ String.concat " " args) = Some err ->
  Execute h cfg command args = (Err err, []).
Proof. intros H. unfold Execute. by rewrite H. Qed.

Lemma ExecuteScript_blacklisted cfg interpreter script err :
  checkBlacklist h cfg script = Some err ->
  ExecuteScript h cfg interpreter script = (Err err, []).
Proof. intros H. unfold ExecuteScript. by rewrite H. Qed.

(** C1 (as amended): for every deny-list pattern [P] of the configuration,
    a command line ([Execute]) or script body ([ExecuteScript]) whose
    lower-cased, whitespace-normalized text matches the lower-cased [P]
    (the pattern itself is not whitespace-normalized; [*] matches any run
    of bytes; plain containment when the expression does not compile) is
    answered with a blacklist error naming a pattern of the list, and no
    effect at all has taken place: no file written, no process started. *)
Theorem deny_list_blocks_execution (cfg : Config) (P : string) :
  P ∈ CommandBlacklist cfg ->
  (forall command args,
     denyListMatch h P (command +:+ " " +:+ String.concat " " args) ->
     exists P', P' ∈ CommandBlacklist cfg /\
       Execute h cfg command args = (Err (ErrBlacklisted P'), []) /\
       isBlacklistError (ErrBlacklisted P') = true /\
       spawned (Execute h cfg command args).2 = false)
  /\ (forall interpreter script,
        denyListMatch h P script ->
        exists P', P' ∈ CommandBlacklist cfg /\
          ExecuteScript h cfg interpreter script = (Err (ErrBlacklisted P'), []) /\
          isBlacklistError (ErrBlacklisted P') = true /\
          spawned (ExecuteScript h cfg interpreter script).2 = false).
Proof.
  intros HP. split.
  - intros command args Hm.
    destruct (proj2 (checkBlacklist_spec h cfg _) P HP Hm) as (P' & HP' & Hcheck).
    exists P'. rewrite (Execute_blacklisted _ _ _ _ Hcheck). done.
  - intros interpreter script Hm.
    destruct (proj2 (checkBlacklist_spec h cfg _) P HP Hm) as (P' & HP' & Hcheck).
    exists P'. rewrite (ExecuteScript_blacklisted _ _ _ _ Hcheck). done.
Qed.

End DenyListExecution.

(** The theorem at work: [SUDO   su] is blocked by the pattern [sudo su]. *)
Lemma deny_list_blocks_execution_witness :
  "sudo su" ∈ Sandbox.CommandBlacklist (Demo.configWith ["rm -rf /"; "sudo su"]) /\
  denyListMatch Demo.host "sudo su" ("SUDO" +:+ " " +:+ String.concat " " ["  su"]) /\
  exists P', Sandbox.Execute Demo.host (Demo.configWith ["rm -rf /"; "sudo su"])
               "SUDO" ["  su"] = (Sandbox.Err (Sandbox.ErrBlacklisted P'), []).
Proof.
  assert (Hin : "sudo su" ∈ Sandbox.CommandBlacklist
                  (Demo.configWith ["rm -rf /"; "sudo su"])).
  { cbn. apply elem_of_cons; right. apply elem_of_cons; left. reflexivity. }
  assert (Hm : denyListMatch Demo.host "sudo su"
                 ("SUDO" +:+ " " +:+ String.concat " " ["  su"])).
  { exists "", "sudo su", "". split; [reflexivity|].
    repeat (apply globMatch_byte; [discriminate|]). apply globMatch_nil. }
  split; [exact Hin|]. split; [exact Hm|].
  destruct (proj1 (deny_list_blocks_execution Demo.host _ _ Hin) "SUDO" ["  su"] Hm)
    as (P' & _ & HE & _).
  exists P'. exact HE.
Defined.

(** C1 (as stated) fails: the pattern is not whitespace-normalized.  With
    the deny-list pattern [sudo  su] (two spaces), the command [sudo su]
    matches the normalized pattern [sudo su], yet [checkBlacklist] lets it
    through and the process is started. *)
Lemma deny_list_pattern_not_normalized :
  let cfg := Demo.configWith ["sudo  su"] in
  "sudo  su" ∈ Sandbox.CommandBlacklist cfg /\
  denyListMatchNormalized Demo.host "sudo  su"
    ("sudo" +:+ " " +:+ String.concat " " ["su"]) /\
  Sandbox.checkBlacklist Demo.host cfg ("sudo" +:+ " " +:+ String.concat " " ["su"]) = None /\
  (Sandbox.Execute Demo.host cfg "sudo" ["su"]).1 =
    Sandbox.Ok {| Sandbox.Stdout := ""; Sandbox.Stderr := ""; Sandbox.ExitCode := 0;
                  Sandbox.Duration := 1000; Sandbox.TimedOut := false |} /\
  Sandbox.spawned (Sandbox.Execute Demo.host cfg "sudo" ["su"]).2 = true.
Proof.
  cbv zeta. split; [apply elem_of_cons; left; reflexivity|].
  split.
  - exists "", "sudo su", "". split; [reflexivity|].
    repeat (apply globMatch_byte; [discriminate|]). apply globMatch_nil.
  - repeat split; vm_compute; reflexivity.
Qed.

(** ** Scripts: the Python wrapper and the order of the checks *)

Section Scripts.
Import Sandbox.

Variable h : Host.

(** The trimmed script holds one of the ten markers. *)
Definition hasStatementMarker (trimmed : string) : bool :=
  existsb (Contains trimmed) statementMarkers.

(** The text [ExecuteScript] writes to the temporary file. *)
Definition scriptBody (interpreter script : string) : string :=
  if isPython interpreter then wrapPythonScript h script else script.

Lemma wrapPythonScript_marker (script : string) :
  wrapPythonScript h script =
    if hasStatementMarker (strings_TrimSpace h script) then script
    else pythonWrapper (base64_EncodeToString script).
Proof.
  unfold wrapPythonScript, hasStatementMarker, statementMarkers. cbn [existsb].
  rewrite orb_false_r, !orb_assoc. reflexivity.
Qed.

(** The log of a script run, once the deny-list let the script through. *)
Lemma ExecuteScript_log cfg interpreter script :
  checkBlacklist h cfg script = None ->
  forall tmpPath,
    os_CreateTemp h (os_TempDir h) ("looper-script-*" +:+ scriptExt interpreter)
      = inr tmpPath ->
    file_WriteString h tmpPath (scriptBody interpreter script) = None ->
    exists log,
      (ExecuteScript h cfg interpreter script).2 =
        [EffCreateTemp tmpPath; EffWriteFile tmpPath (scriptBody interpreter script)]
        ++ (if isShell interpreter then [EffChmod tmpPath] else [])
        ++ log ++ [EffRemove tmpPath]
      /\ ((exists cause, filepath_Abs h (WorkingDir cfg) = inl cause /\ log = [])
          \/ (exists absWorkDir cmd,
                filepath_Abs h (WorkingDir cfg) = inr absWorkDir /\ log = [EffRun cmd])).
Proof.
  intros Hcheck tmpPath Hcreate Hwrite. unfold ExecuteScript.
  rewrite Hcheck, Hcreate. fold (scriptBody interpreter script). rewrite Hwrite.
  set (log0 := if isShell interpreter then _ else _).
  set (cmd := scriptCmd _ _ _).
  destruct (runCommand_log h cfg log0 cmd) as [(cause & Habs & Hlog)|(absWorkDir & Habs & Hlog)];
    destruct (runCommand h cfg log0 cmd) as [res log1]; cbn [snd] in *; subst log1.
  - exists []. split; [|left; eauto]. unfold log0. destruct (isShell interpreter); reflexivity.
  - exists [EffRun (preparedCmd h cfg cmd absWorkDir)]. split; [|right; eauto].
    unfold log0. destruct (isShell interpreter); reflexivity.
Qed.

(** C8 (as amended): [wrapPythonScript] returns the script unchanged
    exactly when its trimmed text contains one of the substrings
    [print(], [print ], [import ], [def ], [class ], [if ], [for ],
    [while ], [with ], [try:]; every other script, single expression or
    not, becomes the wrapper built around the base64 encoding of the
    original source; and [ExecuteScript] writes that text to the file it
    runs for [python] and [python3], the script itself for every other
    interpreter. *)
Theorem wrapPythonScript_by_markers (script : string) :
  (hasStatementMarker (strings_TrimSpace h script) = true ->
   wrapPythonScript h script = script)
  /\ (hasStatementMarker (strings_TrimSpace h script) = false ->
      wrapPythonScript h script = pythonWrapper (base64_EncodeToString script))
  /\ (forall cfg interpreter tmpPath content,
        EffWriteFile tmpPath content ∈ (ExecuteScript h cfg interpreter script).2 ->
        content = if isPython interpreter then wrapPythonScript h script else script).
Proof.
  rewrite wrapPythonScript_marker.
  split; [by intros ->|]. split; [by intros ->|].
  intros cfg interpreter tmpPath content. unfold ExecuteScript.
  destruct (checkBlacklist h cfg script); [intros Hin; by apply elem_of_nil in Hin|].
  destruct (os_CreateTemp _ _ _) as [cause|path];
    [intros Hin; by apply elem_of_nil in Hin|].
  rewrite <- wrapPythonScript_marker.
  fold (scriptBody interpreter script).
  destruct (file_WriteString h path (scriptBody interpreter script)).
  { cbn. rewrite !elem_of_cons, elem_of_nil. intros [|[|[]]]; discriminate. }
  set (log0 := if isShell interpreter then _ else _).
  set (cmd := scriptCmd _ _ _).
  assert (Hlog0 : forall e, e ∈ log0 -> e = EffCreateTemp path \/
                    e = EffWriteFile path (scriptBody interpreter script) \/
                    e = EffChmod path).
  { intros e. unfold log0. destruct (isShell interpreter); cbn;
      rewrite !elem_of_cons, elem_of_nil; tauto. }
  assert (Hlog1 : forall log1 e,
            (log1 = log0 \/ exists c, log1 = log0 ++ [EffRun c]) ->
            e ∈ log1 ++ [EffRemove path] ->
            e = EffCreateTemp path \/
            e = EffWriteFile path (scriptBody interpreter script) \/
            e = EffChmod path \/ (exists c, e = EffRun c) \/ e = EffRemove path).
  { intros log1 e [->|[c ->]]; rewrite !elem_of_app, ?list_elem_of_singleton.
    - intros [Hin|Hin]; [apply Hlog0 in Hin|]; intuition eauto.
    - intros [[Hin|Hin]|Hin]; [apply Hlog0 in Hin| |]; intuition eauto. }
  intros Hin.
  assert (Hcases : (runCommand h cfg log0 cmd).2 = log0 \/
                   exists c, (runCommand h cfg log0 cmd).2 = log0 ++ [EffRun c]).
  { destruct (runCommand_log h cfg log0 cmd) as [(? & _ & ?)|(? & _ & ?)]; eauto. }
  destruct (runCommand h cfg log0 cmd) as [res log1]; cbn [snd] in *.
  apply (Hlog1 _ _ Hcases) in Hin.
  destruct Hin as [Hin|[Hin|[Hin|[[c Hin]|Hin]]]]; try discriminate.
  by injection Hin as _ <-.
Qed.

(** The fixed text of the wrapper, before and after the base64 digits of
    the source: the template of the [fmt.Sprintf] call. *)
Definition wrapperHead : string :=
  "import base64" +:+ nl +:+ "_code = base64.b64decode(" +:+ dq.

Definition wrapperTail : string :=
  dq +:+ ").decode(" +:+ dq +:+ "utf-8" +:+ dq +:+ ")" +:+ nl +:+
  "try:" +:+ nl +:+
  "    _result = eval(compile(_code, '<input>', 'eval'))" +:+ nl +:+
  "    if _result is not None:" +:+ nl +:+
  "        print(repr(_result))" +:+ nl +:+
  "except SyntaxError:" +:+ nl +:+
  "    exec(compile(_code, '<input>', 'exec'))" +:+ nl.

(** The text that reaches the temporary file: for [python] and [python3]
    and a script free of statement markers, the fixed wrapper text around
    the base64 digits of the script; the script itself otherwise. *)
Definition writtenText (interpreter script : string) : string :=
  if isPython interpreter && negb (hasStatementMarker (strings_TrimSpace h script))
  then wrapperHead +:+ base64_EncodeToString script +:+ wrapperTail
  else script.

Lemma pythonWrapper_text (encoded : string) :
  pythonWrapper encoded = wrapperHead +:+ encoded +:+ wrapperTail.
Proof. unfold pythonWrapper, wrapperHead, wrapperTail. by rewrite !append_assoc. Qed.

Lemma scriptBody_text (interpreter script : string) :
  scriptBody interpreter script = writtenText interpreter script.
Proof.
  unfold scriptBody, writtenText. rewrite wrapPythonScript_marker, pythonWrapper_text.
  by destruct (isPython interpreter), (hasStatementMarker _).
Qed.

(** No pattern of the list matches the text. *)
Definition passesDenyList (cfg : Config) (text : string) : Prop :=
  forall P, P ∈ CommandBlacklist cfg -> ~ denyListMatch h P text.

Lemma checkBlacklist_passes cfg text :
  passesDenyList cfg text -> checkBlacklist h cfg text = None.
Proof.
  intros Hpass. destruct (checkBlacklist h cfg text) as [e|] eqn:Hcheck; [|done].
  destruct (proj1 (checkBlacklist_spec h cfg text) e Hcheck) as (P & HP & _ & Hm).
  by destruct (Hpass P HP).
Qed.

Lemma runCommand_not_blacklisted cfg log cmd e :
  (runCommand h cfg log cmd).1 = Err e -> isBlacklistError e = false.
Proof.
  unfold runCommand.
  destruct (filepath_Abs h (WorkingDir cfg)) as [cause|absWorkDir]; [by intros [= <-]|].
  cbv zeta. set (ran := cmd_Run h log _).
  destruct (ctx_err ran), (run_err ran); cbn [fst]; try discriminate;
    by intros [= <-].
Qed.

(** C10: [ExecuteScript] decides on the original script text, before any
    wrapping and whatever the wrapper holds.  A script that a deny-list
    pattern matches is rejected with the blacklist error of a matching
    pattern, and nothing has happened: no file written, no process
    started.  A blacklist error is returned in no other case, so what the
    list says of the wrapper text never counts.  And a script that no
    pattern matches goes on: for [python] and [python3] and a script free
    of statement markers the text written to the file and run is the fixed
    wrapper text around the base64 digits of the script, the script itself
    otherwise, with no second look at the deny-list. *)
Theorem ExecuteScript_checks_original_script (cfg : Config) (interpreter script : string) :
  (forall P,
     P ∈ CommandBlacklist cfg -> denyListMatch h P script ->
     exists P', P' ∈ CommandBlacklist cfg /\ denyListMatch h P' script /\
       ExecuteScript h cfg interpreter script = (Err (ErrBlacklisted P'), []))
  /\ (forall e,
        (ExecuteScript h cfg interpreter script).1 = Err e ->
        isBlacklistError e = true ->
        exists P, P ∈ CommandBlacklist cfg /\ denyListMatch h P script /\
          ExecuteScript h cfg interpreter script = (Err (ErrBlacklisted P), []))
  /\ (passesDenyList cfg script ->
      forall tmpPath,
        os_CreateTemp h (os_TempDir h) ("looper-script-*" +:+ scriptExt interpreter)
          = inr tmpPath ->
        file_WriteString h tmpPath (writtenText interpreter script) = None ->
        EffWriteFile tmpPath (writtenText interpreter script)
          ∈ (ExecuteScript h cfg interpreter script).2
        /\ (forall absWorkDir,
              filepath_Abs h (WorkingDir cfg) = inr absWorkDir ->
              spawned (ExecuteScript h cfg interpreter script).2 = true)).
Proof.
  split; [|split].
  - intros P HP Hm.
    destruct (proj2 (checkBlacklist_spec h cfg script) P HP Hm) as (P' & HP' & Hcheck).
    destruct (proj1 (checkBlacklist_spec h cfg script) _ Hcheck) as (Q & _ & [= <-] & HQ).
    exists P'. by rewrite (ExecuteScript_blacklisted h _ _ _ _ Hcheck).
  - intros e. unfold ExecuteScript.
    destruct (checkBlacklist h cfg script) as [err|] eqn:Hcheck.
    + intros [= <-] _.
      destruct (proj1 (checkBlacklist_spec h cfg script) _ Hcheck) as (P & HP & -> & Hm).
      by exists P.
    + destruct (os_CreateTemp _ _ _) as [cause|path]; [by intros [= <-]|].
      destruct (file_WriteString _ _ _); [by intros [= <-]|].
      set (log0 := if isShell interpreter then _ else _).
      set (cmd := scriptCmd _ _ _).
      pose proof (runCommand_not_blacklisted cfg log0 cmd e) as Hrun.
      destruct (runCommand h cfg log0 cmd) as [res log1]. cbn [fst] in *.
      intros He Hb. rewrite (Hrun He) in Hb. discriminate.
  - intros Hpass tmpPath Hcreate. rewrite <- scriptBody_text. intros Hwrite.
    destruct (ExecuteScript_log cfg interpreter script (checkBlacklist_passes _ _ Hpass)
                tmpPath Hcreate Hwrite) as (log & -> & Hlog).
    split.
    + apply elem_of_app; left. apply elem_of_cons; right. apply elem_of_cons; by left.
    + intros absWorkDir Habs. destruct Hlog as [(cause & Hno & _)|(a & cmd & _ & ->)].
      * congruence.
      * unfold spawned. rewrite !existsb_app. cbn. by rewrite !orb_true_r.
Qed.

End Scripts.

(** C8 (as stated) fails in both directions.  The two-statement script
    [a = 1] / [b = 2] holds none of the markers, so it is not passed
    through: it is replaced by the wrapper.  And the single expression
    ['if only'] (a string literal) holds the marker [if ], so it is passed
    through without the wrapper. *)
Lemma wrapPythonScript_not_by_statement_count :
  let statements := "a = 1" +:+ nl +:+ "b = 2" in
  let expression := "'if only'" in
  Sandbox.wrapPythonScript Demo.host statements = Sandbox.pythonWrapper "YSA9IDEKYiA9IDI="
  /\ Sandbox.wrapPythonScript Demo.host statements <> statements
  /\ Sandbox.wrapPythonScript Demo.host expression = expression.
Proof.
  cbv zeta. split; [vm_compute; reflexivity|].
  split; [vm_compute; discriminate|vm_compute; reflexivity].
Qed.

(** The two halves of C10 on the concrete host.  The script [shutdown] is
    on the deny-list and is rejected, although the wrapper that would have
    been run does not match the list; the script [1+1] passes, and its
    wrapper is written and run although the wrapper matches the pattern
    [import base64] of the list. *)
Lemma ExecuteScript_wrapper_unchecked :
  let cfg := Demo.configWith ["shutdown"; "import base64"] in
  Sandbox.ExecuteScript Demo.host cfg "python3" "shutdown"
    = (Sandbox.Err (Sandbox.ErrBlacklisted "shutdown"), [])
  /\ Sandbox.checkBlacklist Demo.host (Demo.configWith ["shutdown"])
       (Sandbox.wrapPythonScript Demo.host "shutdown") = None
  /\ Sandbox.checkBlacklist Demo.host cfg (Sandbox.wrapPythonScript Demo.host "1+1")
       = Some (Sandbox.ErrBlacklisted "import base64")
  /\ Sandbox.spawned (Sandbox.ExecuteScript Demo.host cfg "python3" "1+1").2 = true
  /\ Sandbox.EffWriteFile "/tmp/looper-script-*.py" (Sandbox.pythonWrapper "MSsx")
       ∈ (Sandbox.ExecuteScript Demo.host cfg "python3" "1+1").2.
Proof.
  cbv zeta. repeat split; try (vm_compute; reflexivity).
  vm_compute. apply elem_of_cons; right. apply elem_of_cons; left. reflexivity.
Qed.

(** The theorem on the concrete host, with the deny-list [shutdown],
    [import base64].  The script [shutdown] is rejected on its own text,
    for [python3] as for any interpreter.  The script [1+1] is matched by
    no pattern, so its wrapper is written and run, although the pattern
    [import base64] matches the wrapper. *)
Lemma ExecuteScript_checks_original_script_witness :
  let cfg := Demo.configWith ["shutdown"; "import base64"] in
  (exists P, Sandbox.ExecuteScript Demo.host cfg "python3" "shutdown"
               = (Sandbox.Err (Sandbox.ErrBlacklisted P), []))
  /\ denyListMatch Demo.host "import base64" (writtenText Demo.host "python3" "1+1")
  /\ Sandbox.EffWriteFile "/tmp/looper-script-*.py"
       (wrapperHead +:+ "MSsx" +:+ wrapperTail)
       ∈ (Sandbox.ExecuteScript Demo.host cfg "python3" "1+1").2
  /\ Sandbox.spawned (Sandbox.ExecuteScript Demo.host cfg "python3" "1+1").2 = true.
Proof.
  cbv zeta.
  set (cfg := Demo.configWith ["shutdown"; "import base64"]).
  assert (Hin : "shutdown" ∈ Sandbox.CommandBlacklist cfg)
    by (apply elem_of_cons; left; reflexivity).
  assert (Hm : denyListMatch Demo.host "shutdown" "shutdown")
    by (apply patternBlocks_spec; vm_compute; reflexivity).
  assert (Hpass : passesDenyList Demo.host cfg "1+1").
  { intros P HP Hmatch. apply patternBlocks_spec in Hmatch. revert HP Hmatch.
    cbn. rewrite !elem_of_cons, elem_of_nil.
    intros [->|[->|[]]]; vm_compute; discriminate. }
  pose proof (ExecuteScript_checks_original_script Demo.host cfg "python3") as H.
  split; [|split].
  - destruct (proj1 (H "shutdown") "shutdown" Hin Hm) as (P & _ & _ & HE). by exists P.
  - apply patternBlocks_spec. vm_compute. reflexivity.
  - destruct (proj2 (proj2 (H "1+1")) Hpass "/tmp/looper-script-*.py" eq_refl eq_refl)
      as [Hwritten Hrun].
    split; [exact Hwritten|exact (Hrun _ eq_refl)].
Defined.

(** The child environment of the concrete host: [API_TOKEN] of the parent
    is not passed on. *)
Lemma buildEnvironment_exact_witness :
  let cfg := Demo.configWith [] in
  Sandbox.range_CustomEnv Demo.host (Sandbox.CustomEnv cfg)
    ≡ₚ map_to_list (Sandbox.CustomEnv cfg)
  /\ Sandbox.buildEnvironment Demo.host cfg
     = ["PATH=/opt/bin:/usr/bin"; "HOME=/home/looper"; "LOOPER=1"]
  /\ Sandbox.os_LookupEnv Demo.host "API_TOKEN" = Some "hunter2"
  /\ "API_TOKEN=hunter2" ∉ Sandbox.buildEnvironment Demo.host cfg.
Proof.
  cbv zeta.
  assert (Hperm : Sandbox.range_CustomEnv Demo.host (Sandbox.CustomEnv (Demo.configWith []))
                  ≡ₚ map_to_list (Sandbox.CustomEnv (Demo.configWith []))) by reflexivity.
  split; [exact Hperm|].
  destruct (buildEnvironment_exact Demo.host (Demo.configWith []) Hperm)
    as (Heq & _ & _ & Hsrc).
  split; [rewrite Heq; vm_compute; reflexivity|].
  split; [reflexivity|].
  intros Hin. apply Hsrc in Hin.
  destruct Hin as [(key & val & Hkey & Hlook & Heq')|[(key & val & Hlook & Heq')|[Heq' _]]].
  - revert Hkey Hlook Heq'. cbn. rewrite !elem_of_cons, elem_of_nil.
    intros [->|[->|[->|[->|[->|[]]]]]]; vm_compute; congruence.
  - revert Hlook. cbn. intros Hlook.
    apply lookup_singleton_Some in Hlook as [<- <-]. discriminate.
  - discriminate.
Defined.

(** ** The conversation context *)

Section ConversationContext.
Import Llm Agent.

Context {Any : Type}.

(** C9: [Clear] empties the message history and zeroes the iteration
    counter, and leaves the loaded skills, the workspace path, the
    metadata map and both cumulative token counters as they were; this
    holds for every context, reachable or not. *)
Theorem Clear_resets_history_only (c : @Agent.Context Any) :
  Messages (Clear c) = []
  /\ IterationCount (Clear c) = 0
  /\ LoadedSkills (Clear c) = LoadedSkills c
  /\ WorkspacePath (Clear c) = WorkspacePath c
  /\ Metadata (Clear c) = Metadata c
  /\ TotalInputTokens (Clear c) = TotalInputTokens c
  /\ TotalOutputTokens (Clear c) = TotalOutputTokens c.
Proof. repeat split. Qed.

(** Resetting twice is resetting once. *)
Lemma Clear_idempotent (c : @Agent.Context Any) : Clear (Clear c) = Clear c.
Proof. reflexivity. Qed.

End ConversationContext.

(** ** The agent loop *)

Section AgentLoop.
Import Llm Agent.

Context {World Args Schema Any : Type}.
Variable rt : @Runtime World Args Schema.
Variable cfg : Config.
Variable reg : @Registry World Args Schema.

Abbreviation Ctx := (@Agent.Context Any).
Abbreviation Trace := (list (@TraceEvent Schema)).

(** The answers of [executeTool] for the calls of one response, each call
    run in the world its predecessors left. *)
Fixpoint toolAnswers (tcs : list ToolCall) (w : World) : list (result string) * World :=
  match tcs with
  | [] => ([], w)
  | tc :: rest =>
      let '(answer, w) := executeTool rt reg tc w in
      let '(answers, w) := toolAnswers rest w in
      (answer :: answers, w)
  end.

(** The tool-result message for a call and its answer. *)
Definition resultMessage (tc : ToolCall) (answer : result string) : Message :=
  NewToolResultMessage (ID tc) (toolResultText answer).

Definition appendMessages (c : Ctx) (msgs : list Message) : Ctx :=
  {| Messages := Messages c ++ msgs; LoadedSkills := LoadedSkills c;
     WorkspacePath := WorkspacePath c; Metadata := Metadata c;
     TotalInputTokens := TotalInputTokens c; TotalOutputTokens := TotalOutputTokens c;
     IterationCount := IterationCount c |}.

Lemma appendMessages_nil (c : Ctx) : appendMessages c [] = c.
Proof. destruct c. unfold appendMessages. cbn. by rewrite app_nil_r. Qed.

Lemma appendMessages_cons (c : Ctx) m msgs :
  appendMessages (AddMessage c m) msgs = appendMessages c (m :: msgs).
Proof. unfold appendMessages, AddMessage. cbn. by rewrite <- app_assoc. Qed.

Lemma toolAnswers_length tcs w : length (toolAnswers tcs w).1 = length tcs.
Proof.
  revert w. induction tcs as [|tc rest IH]; intros w; cbn; [done|].
  destruct (executeTool rt reg tc w) as [answer w1].
  specialize (IH w1). destruct (toolAnswers rest w1) as [answers w2].
  cbn in *. by rewrite IH.
Qed.

(** The inner [for] appends one tool-result message per call, in order,
    and nothing else changes in the context. *)
Lemma executeToolCalls_spec tcs (c : Ctx) w (tr : Trace) :
  executeToolCalls rt reg tcs c w tr =
    (appendMessages c (zip_with resultMessage tcs (toolAnswers tcs w).1),
     (toolAnswers tcs w).2,
     tr ++ zip_with TrExecuteTool tcs (toolAnswers tcs w).1).
Proof.
  revert c w tr. induction tcs as [|tc rest IH]; intros c w tr; cbn.
  - by rewrite appendMessages_nil, app_nil_r.
  - destruct (executeTool rt reg tc w) as [answer w1]. rewrite IH.
    destruct (toolAnswers rest w1) as [answers w2]. cbn.
    unfold AddToolResult. rewrite appendMessages_cons, <- app_assoc. done.
Qed.

(** One iteration that ends in tool calls: the events it adds to the
    trace, and the context it leaves. *)
Definition iterationBlock (req : CompletionRequest Schema) (resp : Response)
    (answers : list (result string)) : Trace :=
  TrComplete req (Success resp) :: zip_with TrExecuteTool (resp_ToolCalls resp) answers.

Definition afterToolCalls (c : Ctx) (resp : Response) (answers : list (result string)) : Ctx :=
  appendMessages (UpdateUsage (incrIteration c) (resp_Usage resp))
    (NewAssistantToolCallMessage (resp_ToolCalls resp)
     :: zip_with resultMessage (resp_ToolCalls resp) answers).

(** The loop's step when the provider answers with tool calls: the whole
    batch is executed, then control is back at the top of the loop. *)
Lemma runLoop_tool_calls fuel (c : Ctx) w (tr : Trace) resp w1 :
  limitReached cfg c = false ->
  ctx_Done rt w = None ->
  provider_Complete rt (buildRequest rt cfg reg (incrIteration c)) w = (Success resp, w1) ->
  resp_ToolCalls resp <> [] ->
  runLoop rt (S fuel) cfg reg c w tr =
    runLoop rt fuel cfg reg
      (afterToolCalls c resp (toolAnswers (resp_ToolCalls resp) w1).1)
      (toolAnswers (resp_ToolCalls resp) w1).2
      (tr ++ iterationBlock (buildRequest rt cfg reg (incrIteration c)) resp
                (toolAnswers (resp_ToolCalls resp) w1).1).
Proof.
  intros Hlim Hdone Hprov Hcalls. cbn [runLoop]. rewrite Hlim, Hdone, Hprov.
  replace (0 <? len (resp_ToolCalls resp)) with true.
  2:{ symmetry. apply Z.ltb_lt. unfold len. destruct (resp_ToolCalls resp); [done|cbn; lia]. }
  rewrite executeToolCalls_spec. unfold afterToolCalls, iterationBlock.
  rewrite appendMessages_cons, <- app_assoc. done.
Qed.

(** The world in which the [i]-th tool call of a batch is executed. *)
Definition worldBefore (tcs : list ToolCall) (w : World) (i : nat) : World :=
  (toolAnswers (take i tcs) w).2.

Lemma toolAnswers_lookup tcs w i tc :
  tcs !! i = Some tc ->
  (toolAnswers tcs w).1 !! i = Some (executeTool rt reg tc (worldBefore tcs w i)).1.
Proof.
  revert w i. induction tcs as [|tc0 rest IH]; intros w i Hi; [done|].
  unfold worldBefore. destruct i as [|i]; cbn in Hi |- *.
  - injection Hi as ->. destruct (executeTool rt reg tc w) as [answer w1].
    by destruct (toolAnswers rest w1).
  - destruct (executeTool rt reg tc0 w) as [answer w1].
    specialize (IH w1 i Hi). unfold worldBefore in IH.
    destruct (toolAnswers rest w1) as [answers w2].
    destruct (toolAnswers (take i rest) w1) as [answers' w2']. done.
Qed.

(** The loop only ever extends the trace it was given. *)
Lemma runLoop_trace_extends fuel (c : Ctx) w (tr : Trace) :
  exists rest, (runLoop rt fuel cfg reg c w tr).2 = tr ++ rest.
Proof.
  revert c w tr. induction fuel as [|fuel IH]; intros c w tr; cbn [runLoop].
  - exists []. by rewrite app_nil_r.
  - destruct (limitReached cfg c); [exists []; by rewrite app_nil_r|].
    destruct (ctx_Done rt w); [exists []; by rewrite app_nil_r|].
    destruct (provider_Complete rt _ w) as [[resp|err] w1];
      [|eexists; cbn; reflexivity].
    destruct (0 <? len (resp_ToolCalls resp)); [|eexists; cbn; reflexivity].
    rewrite executeToolCalls_spec.
    edestruct IH as [rest ->]. rewrite <- !app_assoc. eexists; reflexivity.
Qed.

(** The three ways [executeTool] fails, and no other. *)
Lemma executeTool_failure tc w err :
  (executeTool rt reg tc w).1 = Failure err <->
  (Get reg (Name tc) = None /\ err = "unknown tool: " +:+ Name tc)
  \/ (exists tool cause,
        Get reg (Name tc) = Some tool /\
        json_Unmarshal rt (Arguments tc) = Failure cause /\
        err = "invalid arguments: " +:+ cause)
  \/ (exists tool args,
        Get reg (Name tc) = Some tool /\
        json_Unmarshal rt (Arguments tc) = Success args /\
        (tool_Execute tool args w).1 = Failure err).
Proof.
  split.
  - unfold executeTool. destruct (Get reg (Name tc)) as [tool|] eqn:Hg.
    + destruct (json_Unmarshal rt (Arguments tc)) as [args|cause] eqn:Hj.
      * destruct (tool_Execute tool args w) as [[res|e] w'] eqn:Ht; cbn; [done|].
        intros [= <-]. right; right. exists tool, args. by rewrite Ht.
      * cbn. intros [= <-]. right; left. eauto.
    + cbn. intros [= <-]. by left.
  - intros [[Hg ->]|[(tool & cause & Hg & Hj & ->)|(tool & args & Hg & Hj & Ht)]];
      unfold executeTool; rewrite Hg, ?Hj; [done|done|].
    destruct (tool_Execute tool args w) as [[res|e] w']; cbn in *; congruence.
Qed.

(** A trace made of whole iterations: each completion request is followed
    by the execution of every tool call of its response, and only then by
    the next request. *)
Inductive batched : Trace -> nat -> Prop :=
| batched_nil : batched [] 0
| batched_snoc tr n req resp answers :
    batched tr n ->
    resp_ToolCalls resp <> [] ->
    length answers = length (resp_ToolCalls resp) ->
    batched (tr ++ iterationBlock req resp answers) (S n).

Lemma completions_app (tr1 tr2 : Trace) :
  completions (tr1 ++ tr2) = completions tr1 ++ completions tr2.
Proof. unfold completions. apply omap_app. Qed.

Lemma completions_tools tcs answers :
  completions (zip_with (@TrExecuteTool Schema) tcs answers) = [].
Proof.
  revert answers. induction tcs as [|tc rest IH]; intros [|a answers]; cbn; auto.
  apply IH.
Qed.

Lemma batched_completions tr n : batched tr n -> length (completions tr) = n.
Proof.
  induction 1 as [|tr n req resp answers _ IH _ _]; [done|].
  rewrite completions_app, length_app, IH. unfold iterationBlock.
  change (completions (?e :: ?l)) with (req :: completions l).
  rewrite completions_tools. cbn. lia.
Qed.

(** The provider always answers, and always with at least one tool call. *)
Definition alwaysToolCalls : Prop :=
  forall req w, exists resp w',
    provider_Complete rt req w = (Success resp, w') /\ resp_ToolCalls resp <> [].

(** The caller's context is not cancelled. *)
Definition neverCancelled : Prop := forall w, ctx_Done rt w = None.

Lemma afterToolCalls_count (c : Ctx) resp answers :
  IterationCount (afterToolCalls c resp answers) = int64_wrap (IterationCount c + 1).
Proof. reflexivity. Qed.

(** From a context whose counter is [k], the loop makes [M - k] whole
    iterations and then stops at the check that opens the next one. *)
Lemma runLoop_reaches_limit (n : nat) :
  0 < MaxIterations cfg -> int64_range (MaxIterations cfg) ->
  alwaysToolCalls -> neverCancelled ->
  forall (c : Ctx) w (tr : Trace) m,
    int64_range (IterationCount c) ->
    Z.to_nat (MaxIterations cfg - IterationCount c) = n ->
    batched tr m ->
    exists c' w' tr',
      (forall fuel, (n < fuel)%nat ->
         runLoop rt fuel cfg reg c w tr =
           (Returned "" (Some (ErrMaxIterations (MaxIterations cfg))), c', w', tr'))
      /\ batched tr' (m + n)
      /\ IterationCount c' = Z.max (IterationCount c) (MaxIterations cfg).
Proof.
  intros Hpos Hrange Hprov Hcancel.
  induction n as [|n IH]; intros c w tr m Hk Hn Hb.
  - exists c, w, tr. split; [|split].
    + intros [|fuel] Hfuel; [lia|]. cbn [runLoop].
      unfold limitReached.
      replace (0 <? MaxIterations cfg) with true by (symmetry; apply Z.ltb_lt; lia).
      replace (MaxIterations cfg <=? IterationCount c) with true
        by (symmetry; apply Z.leb_le; lia).
      done.
    + by rewrite Nat.add_0_r.
    + lia.
  - assert (Hlim : limitReached cfg c = false).
    { unfold limitReached. apply andb_false_iff. right. apply Z.leb_gt. lia. }
    destruct (Hprov (buildRequest rt cfg reg (incrIteration c)) w)
      as (resp & w1 & Hcomplete & Hcalls).
    set (answers := (toolAnswers (resp_ToolCalls resp) w1).1).
    set (c1 := afterToolCalls c resp answers).
    assert (Hcount : IterationCount c1 = IterationCount c + 1).
    { unfold c1. rewrite afterToolCalls_count. apply int64_wrap_id.
      unfold int64_range in *. lia. }
    destruct (IH c1 (toolAnswers (resp_ToolCalls resp) w1).2
                (tr ++ iterationBlock (buildRequest rt cfg reg (incrIteration c)) resp answers)
                (S m))
      as (c' & w' & tr' & Hrun & Hb' & Hk').
    + rewrite Hcount. unfold int64_range in *. lia.
    + rewrite Hcount. lia.
    + constructor; [done|done|]. apply toolAnswers_length.
    + exists c', w', tr'. split; [|split].
      * intros [|fuel] Hfuel; [lia|].
        rewrite (runLoop_tool_calls fuel c w tr resp w1 Hlim (Hcancel w) Hcomplete Hcalls).
        apply Hrun. lia.
      * replace (m + S n)%nat with (S m + n)%nat by lia. done.
      * rewrite Hk', Hcount. lia.
Qed.

End AgentLoop.

Section AgentRun.
Import Llm Agent.

Context {World Args Schema Any : Type}.
Variable rt : @Runtime World Args Schema.

(** C2 (as amended): with a positive ceiling [M], a provider that always
    answers with a tool call and a caller context that is not cancelled,
    [Run] returns the max-iterations error after exactly [M - k] completion
    requests, where [k] is the iteration counter of the conversation
    context on entry (none when [k >= M]); on a fresh or just-cleared
    context that is exactly [M].  The trace is made of whole iterations:
    the check that aborts sits before a completion request, after every
    tool call of the previous response has been executed. *)
Theorem Run_stops_at_iteration_limit (a : @Agent.Agent World Args Schema Any) (w : World)
    (userMessage : string) :
  0 < MaxIterations (config a) ->
  int64_range (MaxIterations (config a)) ->
  int64_range (IterationCount (ctx a)) ->
  alwaysToolCalls rt ->
  neverCancelled rt ->
  exists a' w' tr,
    (forall fuel,
       (Z.to_nat (MaxIterations (config a) - IterationCount (ctx a)) < fuel)%nat ->
       Run rt fuel a w userMessage =
         (Returned "" (Some (ErrMaxIterations (MaxIterations (config a)))), a', w', tr))
    /\ length (completions tr)
         = Z.to_nat (MaxIterations (config a) - IterationCount (ctx a))
    /\ batched tr (Z.to_nat (MaxIterations (config a) - IterationCount (ctx a)))
    /\ (IterationCount (ctx a) = 0 ->
        Z.of_nat (length (completions tr)) = MaxIterations (config a))
    /\ IterationCount (ctx a')
         = Z.max (IterationCount (ctx a)) (MaxIterations (config a)).
Proof.
  intros Hpos Hrange Hk Hprov Hcancel.
  destruct (runLoop_reaches_limit rt (config a) (registry a)
              (Z.to_nat (MaxIterations (config a) - IterationCount (ctx a)))
              Hpos Hrange Hprov Hcancel
              (AddUserMessage (ctx a) userMessage) w [] 0%nat Hk eq_refl (batched_nil))
    as (c' & w' & tr & Hrun & Hb & Hcount).
  exists {| config := config a; registry := registry a; ctx := c' |}, w', tr.
  split; [|split; [|split; [|split]]].
  - intros fuel Hfuel. unfold Run. by rewrite (Hrun fuel Hfuel).
  - by apply batched_completions in Hb.
  - exact Hb.
  - intros H0. apply batched_completions in Hb. rewrite Hb, H0. lia.
  - exact Hcount.
Qed.

(** C3 (as amended): when the provider's response holds tool calls and the
    [i]-th of them fails (unknown tool name, unparsable arguments, or an
    error returned by the tool), the iteration does not return: the text
    ["Error: " ++ message] is appended to the history as a tool-result
    message carrying the call's id, and control is back at the top of the
    loop.  The next iteration issues a completion request whose messages
    hold that text, unless the iteration ceiling has been reached or the
    caller's context is cancelled, in which case [Run] returns that
    error. *)
Theorem tool_errors_are_fed_back (cfg : Config) (reg : @Registry World Args Schema)
    (c : @Agent.Context Any) (w : World) (tr : list TraceEvent)
    (resp : Response) (w1 : World) (i : nat) (tc : ToolCall) (err : string) :
  limitReached cfg c = false ->
  ctx_Done rt w = None ->
  provider_Complete rt (buildRequest rt cfg reg (incrIteration c)) w = (Success resp, w1) ->
  resp_ToolCalls resp !! i = Some tc ->
  (executeTool rt reg tc (worldBefore rt reg (resp_ToolCalls resp) w1 i)).1 = Failure err ->
  let answers := (toolAnswers rt reg (resp_ToolCalls resp) w1).1 in
  let c2 := afterToolCalls c resp answers in
  let w2 := (toolAnswers rt reg (resp_ToolCalls resp) w1).2 in
  let tr2 := tr ++ iterationBlock (buildRequest rt cfg reg (incrIteration c)) resp answers in
  let m := NewToolResultMessage (ID tc) ("Error: " +:+ err) in
  let req2 := buildRequest rt cfg reg (incrIteration c2) in
  (forall fuel,
     runLoop rt (S fuel) cfg reg c w tr = runLoop rt fuel cfg reg c2 w2 tr2)
  /\ runLoop rt 1 cfg reg c w tr = (OutOfFuel, c2, w2, tr2)
  /\ Messages c2 !! (length (Messages c) + 1 + i)%nat = Some m
  /\ (limitReached cfg c2 = false -> ctx_Done rt w2 = None ->
      m ∈ req_Messages req2 /\
      forall fuel, exists rest,
        (runLoop rt (S (S fuel)) cfg reg c w tr).2
          = tr2 ++ TrComplete req2 (provider_Complete rt req2 w2).1 :: rest)
  /\ (limitReached cfg c2 = true ->
      forall fuel,
        runLoop rt (S (S fuel)) cfg reg c w tr =
          (Returned "" (Some (ErrMaxIterations (MaxIterations cfg))), c2, w2, tr2))
  /\ (forall cause, limitReached cfg c2 = false -> ctx_Done rt w2 = Some cause ->
      forall fuel,
        runLoop rt (S (S fuel)) cfg reg c w tr =
          (Returned "" (Some (ErrContext cause)), incrIteration c2, w2, tr2)).
Proof.
  intros Hlim Hdone Hprov Hi Herr answers c2 w2 tr2 m req2.
  assert (Hcalls : resp_ToolCalls resp <> []) by (intros E; by rewrite E in Hi).
  assert (Hstep : forall fuel,
            runLoop rt (S fuel) cfg reg c w tr = runLoop rt fuel cfg reg c2 w2 tr2).
  { intros fuel. by apply runLoop_tool_calls. }
  assert (Hm : Messages c2 !! (length (Messages c) + 1 + i)%nat = Some m).
  { unfold c2, afterToolCalls, appendMessages. cbn [Messages UpdateUsage incrIteration].
    rewrite lookup_app_r by lia.
    replace (length (Messages c) + 1 + i - length (Messages c))%nat with (S i) by lia.
    cbn [lookup list_lookup]. change (zip_with resultMessage (resp_ToolCalls resp) answers !! i = Some m).
    rewrite lookup_zip_with, Hi. cbn.
    unfold answers. rewrite (toolAnswers_lookup rt reg _ _ _ _ Hi), Herr. done. }
  split; [exact Hstep|]. split; [by rewrite Hstep|]. split; [exact Hm|].
  split; [|split].
  - intros Hlim2 Hdone2. split.
    + change (req_Messages req2) with (Messages c2). by eapply list_elem_of_lookup_2.
    + intros fuel. rewrite Hstep. cbn [runLoop]. rewrite Hlim2, Hdone2. fold req2.
      destruct (provider_Complete rt req2 w2) as [[resp2|err2] w3]; cbn [fst];
        [|exists []; reflexivity].
      destruct (0 <? len (resp_ToolCalls resp2)); [|exists []; reflexivity].
      rewrite executeToolCalls_spec.
      edestruct (runLoop_trace_extends (Any:=Any) rt cfg reg fuel) as [rest ->].
      rewrite <- !app_assoc. eexists; reflexivity.
  - intros Hlim2 fuel. rewrite Hstep. cbn [runLoop]. by rewrite Hlim2.
  - intros cause Hlim2 Hdone2 fuel. rewrite Hstep. cbn [runLoop].
    by rewrite Hlim2, Hdone2.
Qed.

End AgentRun.

(** ** The streaming variant of the loop *)

Section AgentRunStream.
Import Llm Agent.

Context {World Args Schema Any : Type}.
Variable rt : @Runtime World Args Schema.
Variable completeStream :
  CompletionRequest Schema -> World -> result (list StreamEvent) * World.
Variable handler : option StreamHandler.

Abbreviation Ctx := (@Agent.Context Any).
Abbreviation Trace := (list (@TraceEvent Schema)).

(** An event that is not a completion request. *)
Definition isProgress (e : @TraceEvent Schema) : Prop :=
  match e with
  | TrComplete _ _ | TrCompleteStream _ _ => False
  | _ => True
  end.

Lemma completions_snoc_progress (tr : Trace) e :
  isProgress e -> completions (tr ++ [e]) = completions tr.
Proof.
  intros He. rewrite completions_app. destruct e; try done; cbn; by rewrite app_nil_r.
Qed.

Lemma completions_notify f e (tr : Trace) :
  isProgress e -> completions (notify handler f e tr) = completions tr.
Proof.
  intros He. unfold notify. destruct (handles handler f); [|done].
  by apply completions_snoc_progress.
Qed.

(** What the event loop gathers does not depend on the handler or on the
    trace; the handler only adds progress entries. *)
Lemma consumeEvents_spec events st (tr : Trace) :
  (consumeEvents handler events st tr).1
    = (consumeEvents (Schema := Schema) None events st []).1
  /\ completions (consumeEvents handler events st tr).2 = completions tr.
Proof.
  revert st tr. induction events as [|e rest IH]; intros st tr; [done|].
  destruct e as [text|etc index|index d|etc index|usage reason|err]; cbn [consumeEvents].
  - destruct (IH {| ss_content := ss_content st +:+ text; ss_toolCalls := ss_toolCalls st;
                    ss_currentToolCalls := ss_currentToolCalls st;
                    ss_usage := ss_usage st |}
                 (notify handler OnText (TrOnText text) tr)) as [-> ->].
    split; [done|]. by apply completions_notify.
  - apply IH.
  - apply IH.
  - destruct (ss_currentToolCalls st !! index); apply IH.
  - apply IH.
  - done.
Qed.

(** The calls and the failure a stream amounts to for [RunStream]. *)
Definition streamFailure (events : list StreamEvent) : option string :=
  (consumeEvents (Schema := Schema) None events streamInit []).1.1.

Definition streamToolCalls (events : list StreamEvent) : list ToolCall :=
  ss_toolCalls (consumeEvents (Schema := Schema) None events streamInit []).1.2.

Lemma executeToolCallsStream_spec reg tcs (c : Ctx) w (tr : Trace) :
  IterationCount (executeToolCallsStream rt reg handler tcs c w tr).1.1 = IterationCount c
  /\ completions (executeToolCallsStream rt reg handler tcs c w tr).2 = completions tr.
Proof.
  revert c w tr. induction tcs as [|tc rest IH]; intros c w tr; [done|].
  cbn [executeToolCallsStream]. destruct (executeTool rt reg tc w) as [answer w1].
  edestruct IH as [-> ->]. split; [done|].
  rewrite completions_notify, completions_snoc_progress, completions_notify; done.
Qed.

(** The stream provider always answers with a stream that holds no error
    event and completes at least one tool call. *)
Definition alwaysToolCallsStream : Prop :=
  forall req w, exists events w',
    completeStream req w = (Success events, w')
    /\ streamFailure events = None /\ streamToolCalls events <> [].

Lemma runStreamLoop_reaches_limit cfg reg (n : nat) :
  0 < MaxIterations cfg -> int64_range (MaxIterations cfg) ->
  alwaysToolCallsStream -> neverCancelled rt ->
  forall (c : Ctx) w (tr : Trace),
    int64_range (IterationCount c) ->
    Z.to_nat (MaxIterations cfg - IterationCount c) = n ->
    exists c' w' tr',
      (forall fuel, (n < fuel)%nat ->
         runStreamLoop rt completeStream handler fuel cfg reg c w tr =
           (Returned "" (Some (ErrMaxIterations (MaxIterations cfg))), c', w', tr'))
      /\ length (completions tr') = (length (completions tr) + n)%nat
      /\ IterationCount c' = Z.max (IterationCount c) (MaxIterations cfg).
Proof.
  intros Hpos Hrange Hprov Hcancel.
  induction n as [|n IH]; intros c w tr Hk Hn.
  - exists c, w, tr. split; [|split; [lia|lia]].
    intros [|fuel] Hfuel; [lia|]. cbn [runStreamLoop]. unfold limitReached.
    replace (0 <? MaxIterations cfg) with true by (symmetry; apply Z.ltb_lt; lia).
    replace (MaxIterations cfg <=? IterationCount c) with true
      by (symmetry; apply Z.leb_le; lia).
    done.
  - assert (Hlim : limitReached cfg c = false).
    { unfold limitReached. apply andb_false_iff. right. apply Z.leb_gt. lia. }
    set (req := buildRequest rt cfg reg (incrIteration c)).
    destruct (Hprov req w) as (events & w1 & Hcomplete & Hfail & Hcalls).
    set (tr1 := tr ++ [TrCompleteStream req (Success events)]).
    destruct (consumeEvents_spec events streamInit tr1) as [Hsame Hcomp].
    destruct (consumeEvents handler events streamInit tr1) as [[failed st] tr2] eqn:Hconsume.
    cbn [fst snd] in Hsame, Hcomp.
    assert (Hfailed : failed = None).
    { unfold streamFailure in Hfail. rewrite <- Hsame in Hfail. exact Hfail. }
    assert (Hst : ss_toolCalls st <> []).
    { unfold streamToolCalls in Hcalls. rewrite <- Hsame in Hcalls. exact Hcalls. }
    set (c1 := AddMessage (UpdateUsage (incrIteration c) (ss_usage st))
                 (NewAssistantToolCallMessage (ss_toolCalls st))).
    set (tr3 := notify handler OnUsage
                  (TrOnUsage (InputTokens (ss_usage st)) (OutputTokens (ss_usage st))) tr2).
    destruct (executeToolCallsStream_spec reg (ss_toolCalls st) c1 w1 tr3) as [Hcount Hcomp3].
    destruct (executeToolCallsStream rt reg handler (ss_toolCalls st) c1 w1 tr3)
      as [[c2 w2] tr4] eqn:Hexec.
    cbn [fst snd] in Hcount, Hcomp3.
    assert (Hc2 : IterationCount c2 = IterationCount c + 1).
    { rewrite Hcount. cbn. apply int64_wrap_id. unfold int64_range in *. lia. }
    destruct (IH c2 w2 tr4) as (c' & w' & tr' & Hrun & Hlen & Hk').
    + rewrite Hc2. unfold int64_range in *. lia.
    + rewrite Hc2. lia.
    + exists c', w', tr'. split; [|split].
      * intros [|fuel] Hfuel; [lia|]. cbn [runStreamLoop].
        rewrite Hlim, (Hcancel w). fold req. rewrite Hcomplete. fold tr1.
        rewrite Hconsume, Hfailed.
        replace (0 <? len (ss_toolCalls st)) with true.
        2:{ symmetry. apply Z.ltb_lt. unfold len.
            destruct (ss_toolCalls st); [done|cbn; lia]. }
        fold c1 tr3. rewrite Hexec. apply Hrun. lia.
      * rewrite Hlen, Hcomp3. unfold tr3. rewrite completions_notify by done.
        rewrite Hcomp. unfold tr1. rewrite completions_app, length_app. cbn. lia.
      * rewrite Hk', Hc2. lia.
Qed.

End AgentRunStream.

Section AgentRunStreamLimit.
Import Llm Agent.

Context {World Args Schema Any : Type}.
Variable rt : @Runtime World Args Schema.

(** The streaming variant has the same ceiling: with a stream provider
    whose every stream completes at least one tool call and holds no error
    event, [RunStream] returns the max-iterations error after exactly
    [M - k] completion requests, whatever the handler; and with a provider
    that does not stream it is [Run], handler calls apart. *)
Theorem RunStream_stops_at_iteration_limit (a : @Agent.Agent World Args Schema Any)
    (w : World) (userMessage : string) (handler : option StreamHandler) :
  0 < MaxIterations (config a) ->
  int64_range (MaxIterations (config a)) ->
  int64_range (IterationCount (ctx a)) ->
  neverCancelled rt ->
  (forall completeStream,
     provider_CompleteStream rt = Some completeStream ->
     alwaysToolCallsStream completeStream ->
     exists a' w' tr,
       (forall fuel,
          (Z.to_nat (MaxIterations (config a) - IterationCount (ctx a)) < fuel)%nat ->
          RunStream rt fuel a w userMessage handler =
            (Returned "" (Some (ErrMaxIterations (MaxIterations (config a)))), a', w', tr))
       /\ length (completions tr)
            = Z.to_nat (MaxIterations (config a) - IterationCount (ctx a)))
  /\ (provider_CompleteStream rt = None ->
      alwaysToolCalls rt ->
      exists a' w' tr,
        (forall fuel,
           (Z.to_nat (MaxIterations (config a) - IterationCount (ctx a)) < fuel)%nat ->
           RunStream rt fuel a w userMessage handler =
             (Returned "" (Some (ErrMaxIterations (MaxIterations (config a)))), a', w', tr))
        /\ length (completions tr)
             = Z.to_nat (MaxIterations (config a) - IterationCount (ctx a))).
Proof.
  intros Hpos Hrange Hk Hcancel. split.
  - intros completeStream Hsome Hprov.
    destruct (runStreamLoop_reaches_limit rt completeStream handler
                (config a) (registry a)
                (Z.to_nat (MaxIterations (config a) - IterationCount (ctx a)))
                Hpos Hrange Hprov Hcancel
                (AddUserMessage (ctx a) userMessage) w [] Hk eq_refl)
      as (c' & w' & tr & Hrun & Hlen & _).
    exists {| config := config a; registry := registry a; ctx := c' |}, w', tr.
    split; [|exact Hlen].
    intros fuel Hfuel. unfold RunStream. by rewrite Hsome, (Hrun fuel Hfuel).
  - intros Hnone Hprov.
    destruct (runLoop_reaches_limit rt (config a) (registry a)
                (Z.to_nat (MaxIterations (config a) - IterationCount (ctx a)))
                Hpos Hrange Hprov Hcancel
                (AddUserMessage (ctx a) userMessage) w [] 0%nat Hk eq_refl (batched_nil))
      as (c' & w' & tr & Hrun & Hb & _).
    exists {| config := config a; registry := registry a; ctx := c' |}, w', tr.
    split; [|by apply batched_completions in Hb].
    intros fuel Hfuel. unfold RunStream, Run. by rewrite Hnone, (Hrun fuel Hfuel).
Qed.

End AgentRunStreamLimit.

Lemma Demo_alwaysToolCalls : alwaysToolCalls Demo.runtime.
Proof. intros req w. exists Demo.alwaysNope, w. split; [reflexivity|discriminate]. Qed.

Lemma Demo_neverCancelled : neverCancelled Demo.runtime.
Proof. intros w. reflexivity. Qed.

(** A fresh agent with ceiling 3: three completion requests, then the
    error. *)
Lemma Run_stops_at_iteration_limit_witness :
  exists a' w' tr,
    Agent.Run Demo.runtime 4 (Demo.agentWithLimit 3) tt "hi" =
      (Agent.Returned "" (Some (Agent.ErrMaxIterations 3)), a', w', tr)
    /\ length (Agent.completions tr) = 3%nat.
Proof.
  destruct (Run_stops_at_iteration_limit Demo.runtime (Demo.agentWithLimit 3) tt "hi")
    as (a' & w' & tr & Hrun & Hlen & _).
  - reflexivity.
  - unfold int64_range. cbn. lia.
  - unfold int64_range. cbn. lia.
  - exact Demo_alwaysToolCalls.
  - exact Demo_neverCancelled.
  - exists a', w', tr. split; [apply Hrun; cbn; lia|exact Hlen].
Defined.

(** C2 (as stated) fails: the counter is kept in the conversation context
    and [Run] does not reset it.  The same agent, with ceiling 3 and the
    same provider, run a second time, aborts before its first completion
    request. *)
Lemma Run_limit_counts_earlier_turns :
  let first := Agent.Run Demo.runtime 10 (Demo.agentWithLimit 3) tt "first" in
  let second := Agent.Run Demo.runtime 10 first.1.1.2 first.1.2 "second" in
  first.1.1.1 = Agent.Returned "" (Some (Agent.ErrMaxIterations 3))
  /\ length (Agent.completions first.2) = 3%nat
  /\ Agent.MaxIterations (Agent.config first.1.1.2) = 3
  /\ second.1.1.1 = Agent.Returned "" (Some (Agent.ErrMaxIterations 3))
  /\ length (Agent.completions second.2) = 0%nat.
Proof. cbv zeta. repeat split; vm_compute; reflexivity. Qed.

(** The unknown tool of the concrete agent: its error text is in the
    history and in the next request. *)
Lemma tool_errors_are_fed_back_witness :
  let c := Agent.AddUserMessage (Agent.ctx (Demo.agentWithLimit 5)) "hi" in
  let cfg := Agent.config (Demo.agentWithLimit 5) in
  let m := Llm.NewToolResultMessage "call_1" "Error: unknown tool: nope" in
  (Agent.runLoop Demo.runtime 1 cfg Demo.emptyRegistry c tt []).1.1.1 = Agent.OutOfFuel
  /\ Agent.Messages (Agent.runLoop Demo.runtime 1 cfg Demo.emptyRegistry c tt []).1.1.2 !! 2%nat
       = Some m.
Proof.
  cbv zeta.
  pose proof (tool_errors_are_fed_back Demo.runtime
                (Agent.config (Demo.agentWithLimit 5)) Demo.emptyRegistry
                (Agent.AddUserMessage (Agent.ctx (Demo.agentWithLimit 5)) "hi") tt []
                Demo.alwaysNope tt 0 Demo.nopeCall "unknown tool: nope"
                eq_refl eq_refl eq_refl eq_refl eq_refl) as H.
  cbv zeta in H. destruct H as (_ & Hone & Hm & _).
  rewrite Hone. split; [reflexivity|exact Hm].
Defined.

(** C3 (as stated) fails at the ceiling: with [MaxIterations = 1] the
    failed tool call is recorded in the history, and the loop then aborts
    with the max-iterations error without another completion request. *)
Lemma tool_error_then_iteration_limit :
  let run := Agent.Run Demo.runtime 10 (Demo.agentWithLimit 1) tt "hi" in
  run.1.1.1 = Agent.Returned "" (Some (Agent.ErrMaxIterations 1))
  /\ last (Agent.Messages (Agent.ctx run.1.1.2))
       = Some (Llm.NewToolResultMessage "call_1" "Error: unknown tool: nope")
  /\ length (Agent.completions run.2) = 1%nat.
Proof. cbv zeta. repeat split; vm_compute; reflexivity. Qed.

(** ** The streaming adapters *)

Section StreamRoundTrip.
Import Llm Stream.

(** Every [ToolCallEnd] holds, at the moment it is sent, an object whose
    arguments are the fragments delivered for its index since that index
    was last started. *)
Definition endsCarrySinceStart (acts : list Action) : Prop :=
  forall pre p idx post,
    acts = pre ++ Send (SentToolCallEnd p idx) :: post ->
    exists tc, heapAfter pre !! p = Some tc
               /\ Arguments tc = deltasSinceStart idx "" (sent pre).

(** The effect of one event on the fragments gathered for [idx]. *)
Definition gather (idx : Z) (acc : string) (e : Sent) : string :=
  match e with
  | SentToolCallStart _ i => if Z.eqb i idx then "" else acc
  | SentToolCallDelta i d => if Z.eqb i idx then acc +:+ d else acc
  | _ => acc
  end.

(** An action that neither starts a call nor delivers a fragment nor ends
    a call. *)
Definition quiet (a : Action) : Prop :=
  match a with
  | Send (SentToolCallStart _ _) | Send (SentToolCallDelta _ _)
  | Send (SentToolCallEnd _ _) => False
  | _ => True
  end.

Lemma deltasSinceStart_fold idx acc events :
  deltasSinceStart idx acc events = fold_left (gather idx) events acc.
Proof.
  revert acc. induction events as [|e rest IH]; intros acc; [done|].
  destruct e; cbn; apply IH.
Qed.

Lemma deltasSinceStart_snoc idx acc events e :
  deltasSinceStart idx acc (events ++ [e]) = gather idx (deltasSinceStart idx acc events) e.
Proof. rewrite !deltasSinceStart_fold. apply fold_left_app. Qed.

Lemma sent_snoc acts a :
  sent (acts ++ [a]) = sent acts ++ match a with Send e => [e] | _ => [] end.
Proof. unfold sent. rewrite omap_app. by destruct a. Qed.

(** The fragments gathered after one more action. *)
Lemma gathered_snoc idx acts a :
  deltasSinceStart idx "" (sent (acts ++ [a])) =
    match a with
    | Send e => gather idx (deltasSinceStart idx "" (sent acts)) e
    | _ => deltasSinceStart idx "" (sent acts)
    end.
Proof.
  rewrite sent_snoc. destruct a; rewrite ?app_nil_r; try done.
  apply deltasSinceStart_snoc.
Qed.

Lemma gathered_quiet idx acts a :
  quiet a ->
  deltasSinceStart idx "" (sent (acts ++ [a])) = deltasSinceStart idx "" (sent acts).
Proof. intros Hq. rewrite gathered_snoc. destruct a as [| | | |[]]; done. Qed.

Lemma heapAfter_snoc acts a : heapAfter (acts ++ [a]) = perform (heapAfter acts) a.
Proof. apply fold_left_app. Qed.

(** An object, once allocated, stays. *)
Lemma allocated_snoc acts a p :
  is_Some (heapAfter acts !! p) -> is_Some (heapAfter (acts ++ [a]) !! p).
Proof.
  intros Hp. rewrite heapAfter_snoc.
  destruct a as [q tc|q id|q name|q args|e]; cbn [perform]; [| | | |done].
  - apply lookup_insert_is_Some. destruct (decide (q = p)); auto.
  - by apply lookup_alter_is_Some.
  - by apply lookup_alter_is_Some.
  - by apply lookup_alter_is_Some.
Qed.

Lemma endsCarrySinceStart_nil : endsCarrySinceStart [].
Proof. intros [|? pre] p idx post [=]. Qed.

Lemma endsCarrySinceStart_snoc acts a :
  endsCarrySinceStart acts ->
  match a with
  | Send (SentToolCallEnd p idx) =>
      exists tc, heapAfter acts !! p = Some tc
                 /\ Arguments tc = deltasSinceStart idx "" (sent acts)
  | _ => True
  end ->
  endsCarrySinceStart (acts ++ [a]).
Proof.
  intros Hev Ha pre p idx post Heq.
  destruct post as [|x post _] using rev_ind.
  - apply app_inj_tail in Heq as [-> ->]. exact Ha.
  - rewrite app_comm_cons, app_assoc in Heq.
    apply app_inj_tail in Heq as [-> _]. by eapply Hev.
Qed.

Lemma argsAt_insert_eq (m : gmap Z string) idx v : argsAt (<[idx := v]> m) idx = v.
Proof. unfold argsAt. by rewrite lookup_insert_eq. Qed.

Lemma argsAt_insert_ne (m : gmap Z string) idx j v :
  idx <> j -> argsAt (<[idx := v]> m) j = argsAt m j.
Proof. intros H. unfold argsAt. by rewrite lookup_insert_ne. Qed.

(** The invariant of both read loops: no end event was sent so far that
    breaks the property, every registered call has its object, and the
    fragments kept for it are those delivered since its start event. *)
Definition streamInv (toolCalls : gmap Z addr) (toolCallArgs : gmap Z string)
    (acts : list Action) : Prop :=
  endsCarrySinceStart acts
  /\ forall idx p,
       toolCalls !! idx = Some p ->
       is_Some (heapAfter acts !! p)
       /\ argsAt toolCallArgs idx = deltasSinceStart idx "" (sent acts).

Lemma streamInv_quiet toolCalls toolCallArgs acts a :
  quiet a -> streamInv toolCalls toolCallArgs acts ->
  streamInv toolCalls toolCallArgs (acts ++ [a]).
Proof.
  intros Hq [Hends Hreg]. split.
  - apply endsCarrySinceStart_snoc; [done|]. by destruct a as [| | | |[]].
  - intros idx p Hp. destruct (Hreg idx p Hp) as [Halloc Hargs].
    split; [by apply allocated_snoc|]. by rewrite gathered_quiet.
Qed.

Lemma streamInv_quiet_all toolCalls toolCallArgs acts l :
  Forall quiet l -> streamInv toolCalls toolCallArgs acts ->
  streamInv toolCalls toolCallArgs (acts ++ l).
Proof.
  intros Hl. revert acts. induction Hl as [|a l Ha _ IH]; intros acts Hinv.
  - by rewrite app_nil_r.
  - rewrite cons_middle, app_assoc. apply IH. by apply streamInv_quiet.
Qed.

(** [tc := &ToolCall{...}], the two map assignments and the start event. *)
Lemma streamInv_start toolCalls toolCallArgs acts idx tc :
  streamInv toolCalls toolCallArgs acts ->
  streamInv (<[idx := fresh acts]> toolCalls) (<[idx := ""]> toolCallArgs)
    (acts ++ [Alloc (fresh acts) tc; Send (SentToolCallStart (fresh acts) idx)]).
Proof.
  intros [Hends Hreg]. rewrite cons_middle, app_assoc. split.
  - apply endsCarrySinceStart_snoc; [|done]. by apply endsCarrySinceStart_snoc.
  - intros j p. rewrite gathered_snoc, gathered_quiet by done. cbn [gather].
    destruct (Z.eqb_spec idx j) as [<-|Hne].
    + rewrite lookup_insert_eq. intros [= <-]. split; [|apply argsAt_insert_eq].
      apply allocated_snoc. rewrite heapAfter_snoc. cbn [perform].
      rewrite lookup_insert_eq. by eexists.
    + rewrite lookup_insert_ne, argsAt_insert_ne by done. intros Hp.
      destruct (Hreg j p Hp) as [Halloc Hargs].
      split; [by do 2 apply allocated_snoc|done].
Qed.

(** The fragment is kept and sent on. *)
Lemma streamInv_delta toolCalls toolCallArgs acts idx d :
  streamInv toolCalls toolCallArgs acts ->
  streamInv toolCalls (<[idx := argsAt toolCallArgs idx +:+ d]> toolCallArgs)
    (acts ++ [Send (SentToolCallDelta idx d)]).
Proof.
  intros [Hends Hreg]. split.
  - by apply endsCarrySinceStart_snoc.
  - intros j p Hp. destruct (Hreg j p Hp) as [Halloc Hargs].
    split; [by apply allocated_snoc|]. rewrite gathered_snoc. cbn [gather].
    destruct (Z.eqb_spec idx j) as [<-|Hne].
    + by rewrite argsAt_insert_eq, Hargs.
    + by rewrite argsAt_insert_ne.
Qed.

(** The payload is assigned to the registered object and the end event is
    sent. *)
Lemma streamInv_end toolCalls toolCallArgs acts idx p :
  toolCalls !! idx = Some p ->
  streamInv toolCalls toolCallArgs acts ->
  streamInv toolCalls toolCallArgs
    (acts ++ [AssignArguments p (argsAt toolCallArgs idx); Send (SentToolCallEnd p idx)]).
Proof.
  intros Hp Hinv. rewrite cons_middle, app_assoc.
  destruct (streamInv_quiet _ _ _ (AssignArguments p (argsAt toolCallArgs idx)) I Hinv)
    as [Hends Hreg].
  split.
  - apply endsCarrySinceStart_snoc; [done|].
    destruct Hinv as [_ Hreg0]. destruct (Hreg0 idx p Hp) as [[tc Htc] Hargs].
    exists {| ID := ID tc; Name := Name tc; Arguments := argsAt toolCallArgs idx |}.
    split.
    + rewrite heapAfter_snoc. cbn [perform]. by rewrite lookup_alter_eq, Htc.
    + by rewrite gathered_quiet.
  - intros j q Hq. destruct (Hreg j q Hq) as [Halloc Hargs].
    split; [by apply allocated_snoc|]. by rewrite gathered_snoc.
Qed.

(** *** OpenAI *)

Definition openaiInv (st : openaiState) (out : list Action) : Prop :=
  streamInv (oa_toolCalls st) (oa_toolCallArgs st) out.

Lemma quiet_updateMetadata d entry : Forall quiet (updateMetadata d entry).
Proof.
  destruct entry as [p|]; [|constructor]. cbn.
  destruct (nonEmpty (tcd_ID d)), (nonEmpty (tcd_FunctionName d)); repeat constructor.
Qed.

Lemma openaiStartOrUpdate_inv st out d :
  openaiInv st out ->
  openaiInv (openaiStartOrUpdate (st, out) d).1 (openaiStartOrUpdate (st, out) d).2.
Proof.
  intros Hinv. unfold openaiStartOrUpdate.
  destruct (nonEmpty (tcd_ID d) || nonEmpty (tcd_FunctionName d)); [|done].
  destruct (negb (startedAt (oa_toolCallStarted st) (tcd_Index d))); cbn [fst snd].
  - by apply streamInv_start.
  - apply streamInv_quiet_all; [apply quiet_updateMetadata|done].
Qed.

Lemma openaiAccumulate_inv st out d :
  openaiInv st out ->
  openaiInv (openaiAccumulate (st, out) d).1 (openaiAccumulate (st, out) d).2.
Proof.
  intros Hinv. unfold openaiAccumulate.
  destruct (nonEmpty (tcd_FunctionArguments d)); cbn [fst snd]; [|done].
  by apply streamInv_delta.
Qed.

Lemma openaiToolCallDelta_inv acc d :
  openaiInv acc.1 acc.2 ->
  openaiInv (openaiToolCallDelta acc d).1 (openaiToolCallDelta acc d).2.
Proof.
  destruct acc as [st out]. cbn [fst snd]. intros H. unfold openaiToolCallDelta.
  apply (openaiStartOrUpdate_inv _ _ d) in H.
  destruct (openaiStartOrUpdate (st, out) d) as [st1 out1].
  by apply openaiAccumulate_inv.
Qed.

Lemma openaiChunk_inv st out c :
  openaiInv st out -> openaiInv (openaiChunk st out c).1 (openaiChunk st out c).2.
Proof.
  intros H. unfold openaiChunk.
  set (st1 := match sr_Usage c with Some _ => _ | None => st end).
  assert (H1 : openaiInv st1 out) by (unfold st1; by destruct (sr_Usage c)).
  clearbody st1. destruct (sr_Choices c) as [|choice _]; [done|].
  set (st2 := if nonEmpty (choice_FinishReason choice) then _ else st1).
  assert (H2 : openaiInv st2 out) by (unfold st2; by destruct (nonEmpty _)).
  clearbody st2.
  set (out2 := if nonEmpty (delta_Content (choice_Delta choice)) then _ else out).
  assert (H3 : openaiInv st2 out2).
  { unfold out2. destruct (nonEmpty _); [|done]. by apply streamInv_quiet. }
  clearbody out2.
  change (openaiInv (st2, out2).1 (st2, out2).2) in H3.
  generalize dependent (st2, out2). clear.
  induction (delta_ToolCalls (choice_Delta choice)) as [|d ds IH]; intros acc H; [done|].
  cbn [fold_left]. apply IH. by apply openaiToolCallDelta_inv.
Qed.

Lemma openaiEnds_inv st out (l : list (Z * addr)) :
  (forall idx p, (idx, p) ∈ l -> oa_toolCalls st !! idx = Some p) ->
  openaiInv st out -> openaiInv st (out ++ concat (map (openaiEnd st) l)).
Proof.
  revert out. induction l as [|[idx p] l IH]; intros out Hl Hinv; cbn [map concat].
  - by rewrite app_nil_r.
  - rewrite app_assoc. apply IH.
    + intros j q Hin. apply Hl. by right.
    + apply streamInv_end; [|done]. apply Hl. by left.
Qed.

Lemma openaiFinalize_ends order st out :
  (forall m : gmap Z addr, order m ≡ₚ map_to_list m) ->
  openaiInv st out -> endsCarrySinceStart (openaiFinalize order st out).
Proof.
  intros Horder Hinv. unfold openaiFinalize. rewrite app_assoc.
  apply endsCarrySinceStart_snoc; [|done].
  apply openaiEnds_inv; [|done].
  intros idx p Hin. rewrite Horder in Hin. by apply elem_of_map_to_list.
Qed.

Lemma openaiLoop_ends order lines st out :
  (forall m : gmap Z addr, order m ≡ₚ map_to_list m) ->
  openaiInv st out -> endsCarrySinceStart (openaiLoop order lines st out).
Proof.
  intros Horder. revert st out.
  induction lines as [|line rest IH]; intros st out Hinv; cbn [openaiLoop].
  - by apply openaiFinalize_ends.
  - destruct line as [err|err| | |c].
    + apply endsCarrySinceStart_snoc; [apply Hinv|done].
    + apply endsCarrySinceStart_snoc; [apply Hinv|done].
    + by apply IH.
    + by apply openaiFinalize_ends.
    + pose proof (openaiChunk_inv st out c Hinv) as H.
      destruct (openaiChunk st out c) as [st1 out1]. by apply IH.
Qed.

(** *** Anthropic *)

Definition anthropicInv (st : anthropicState) (out : list Action) : Prop :=
  streamInv (an_toolCalls st) (an_toolCallArgs st) out.

Lemma anthropicEvent_inv st out event :
  anthropicInv st out ->
  anthropicInv (anthropicEvent st out event).1.1 (anthropicEvent st out event).1.2.
Proof.
  intros Hinv. unfold anthropicEvent.
  destruct (String.eqb (ev_Type event) "message_start").
  { by destruct (ev_MessageInputTokens event). }
  destruct (String.eqb (ev_Type event) "content_block_start").
  { destruct (ev_ContentBlock event) as [block|]; [|done].
    destruct (String.eqb (block_Type block) "tool_use"); [|done].
    by apply streamInv_start. }
  destruct (String.eqb (ev_Type event) "content_block_delta").
  { destruct (ev_Delta event) as [delta|]; [|done].
    destruct (String.eqb (ed_Type delta) "text_delta").
    { destruct (nonEmpty (ed_Text delta)); [|done]. by apply streamInv_quiet. }
    destruct (String.eqb (ed_Type delta) "input_json_delta"); [|done].
    destruct (nonEmpty (ed_PartialJSON delta)); [|done].
    by apply streamInv_delta. }
  destruct (String.eqb (ev_Type event) "content_block_stop").
  { destruct (an_toolCalls st !! ev_Index event) as [p|] eqn:Hp; [|done].
    by apply streamInv_end. }
  destruct (String.eqb (ev_Type event) "message_delta").
  { set (st1 := match ev_Delta event with Some _ => _ | None => st end).
    assert (H1 : anthropicInv st1 out).
    { unfold st1. destruct (ev_Delta event) as [delta|]; [|done].
      by destruct (nonEmpty (ed_StopReason delta)). }
    clearbody st1. by destruct (ev_UsageOutputTokens event). }
  destruct (String.eqb (ev_Type event) "message_stop"); [|done].
  by apply streamInv_quiet.
Qed.

Lemma anthropicLoop_ends lines st out :
  anthropicInv st out -> endsCarrySinceStart (anthropicLoop lines st out).
Proof.
  revert st out.
  induction lines as [|line rest IH]; intros st out Hinv; cbn [anthropicLoop].
  - apply endsCarrySinceStart_snoc; [apply Hinv|done].
  - destruct line as [err|err| | |event].
    + apply endsCarrySinceStart_snoc; [apply Hinv|done].
    + apply endsCarrySinceStart_snoc; [apply Hinv|done].
    + by apply IH.
    + apply endsCarrySinceStart_snoc; [apply Hinv|done].
    + pose proof (anthropicEvent_inv st out event Hinv) as H.
      destruct (anthropicEvent st out event) as [[st1 out1] returned].
      cbn [fst snd] in H. destruct returned; [apply H|by apply IH].
Qed.

(** What both adapters do for every input: the object a [ToolCallEnd]
    event holds has, when the event is sent, as its [Arguments] the
    concatenation, in delivery order, of the [ArgumentDelta] fragments
    delivered for its index since the latest [ToolCallStart] for that
    index.  For the OpenAI adapter this holds for every order in which the
    runtime iterates the map of pending calls. *)
Theorem ToolCallEnd_arguments_since_start :
  (forall order lines,
     (forall m : gmap Z addr, order m ≡ₚ map_to_list m) ->
     endsCarrySinceStart (openaiCompleteStream order lines))
  /\ (forall lines, endsCarrySinceStart (anthropicCompleteStream lines)).
Proof.
  split.
  - intros order lines Horder. apply openaiLoop_ends; [done|].
    split; [apply endsCarrySinceStart_nil|].
    intros idx p Hp. cbn in Hp. by rewrite lookup_empty in Hp.
  - intros lines. apply anthropicLoop_ends.
    split; [apply endsCarrySinceStart_nil|].
    intros idx p Hp. cbn in Hp. by rewrite lookup_empty in Hp.
Qed.

End StreamRoundTrip.

(** C7 fails when a fragment for an index is delivered before the chunk
    that starts that index: the fragment is kept and sent on, and the
    start then resets what was kept.  An OpenAI stream whose first chunk
    for index 0 is the fragment [[1,] with neither id nor name, followed by
    a chunk with the id, the name and the fragment [2]], delivers both
    fragments, and its end event holds [2]] only, whenever it is read. *)
Lemma ToolCallEnd_misses_early_fragments :
  let acts := Stream.openaiCompleteStream map_to_list Demo.earlyFragmentLines in
  acts =
    [Stream.Send (Stream.SentToolCallDelta 0 "[1,");
     Stream.Alloc 1 {| Llm.ID := "call_1"; Llm.Name := "read_file"; Llm.Arguments := "" |};
     Stream.Send (Stream.SentToolCallStart 1 0);
     Stream.Send (Stream.SentToolCallDelta 0 "2]");
     Stream.AssignArguments 1 "2]";
     Stream.Send (Stream.SentToolCallEnd 1 0);
     Stream.Send (Stream.SentDone {| Llm.InputTokens := 0; Llm.OutputTokens := 0 |} "")]
  /\ Stream.deltasFor 0 (Stream.sent acts) = "[1,2]"
  /\ forall t, (5 <= t)%nat ->
       Stream.readAt acts t (Stream.SentToolCallEnd 1 0) =
         Some (Llm.StreamEventToolCallEnd
                 {| Llm.ID := "call_1"; Llm.Name := "read_file"; Llm.Arguments := "2]" |} 0).
Proof.
  cbv zeta.
  assert (E : Stream.openaiCompleteStream map_to_list Demo.earlyFragmentLines =
    [Stream.Send (Stream.SentToolCallDelta 0 "[1,");
     Stream.Alloc 1 {| Llm.ID := "call_1"; Llm.Name := "read_file"; Llm.Arguments := "" |};
     Stream.Send (Stream.SentToolCallStart 1 0);
     Stream.Send (Stream.SentToolCallDelta 0 "2]");
     Stream.AssignArguments 1 "2]";
     Stream.Send (Stream.SentToolCallEnd 1 0);
     Stream.Send (Stream.SentDone {| Llm.InputTokens := 0; Llm.OutputTokens := 0 |} "")])
    by (vm_compute; reflexivity).
  split; [exact E|]. rewrite E. split; [reflexivity|].
  intros t Ht. do 5 (destruct t as [|t]; [lia|]).
  destruct t as [|[|t]]; try (vm_compute; reflexivity).
  unfold Stream.readAt. cbn [take]. rewrite take_nil. vm_compute. reflexivity.
Qed.

(** The end event holds the address of the object, not a copy.  An
    Anthropic stream that stops the block of index 0 twice, with a fragment
    in between, sends two end events that hold the same object: a receiver
    that reads each event as it is sent finds [{] in the first, one that
    reads after the second stop finds [{}] in both. *)
Lemma ToolCallEnd_object_is_shared :
  let acts := Stream.anthropicCompleteStream Demo.repeatedStopLines in
  let call args := {| Llm.ID := "toolu_1"; Llm.Name := "read_file"; Llm.Arguments := args |} in
  Stream.sent acts =
    [Stream.SentToolCallStart 0 0; Stream.SentToolCallDelta 0 "{";
     Stream.SentToolCallEnd 0 0; Stream.SentToolCallDelta 0 "}";
     Stream.SentToolCallEnd 0 0;
     Stream.SentDone {| Llm.InputTokens := 0; Llm.OutputTokens := 0 |} ""]
  /\ Stream.received acts (fun n => n) =
       [Llm.StreamEventToolCallStart (call "") 0; Llm.StreamEventToolCallDelta 0 "{";
        Llm.StreamEventToolCallEnd (call "{") 0; Llm.StreamEventToolCallDelta 0 "}";
        Llm.StreamEventToolCallEnd (call "{}") 0;
        Llm.StreamEventDone {| Llm.InputTokens := 0; Llm.OutputTokens := 0 |} ""]
  /\ Stream.received acts (fun _ => length acts) =
       [Llm.StreamEventToolCallStart (call "{}") 0; Llm.StreamEventToolCallDelta 0 "{";
        Llm.StreamEventToolCallEnd (call "{}") 0; Llm.StreamEventToolCallDelta 0 "}";
        Llm.StreamEventToolCallEnd (call "{}") 0;
        Llm.StreamEventDone {| Llm.InputTokens := 0; Llm.OutputTokens := 0 |} ""].
Proof. cbv zeta. repeat split; vm_compute; reflexivity. Qed.

Lemma Demo_alwaysToolCallsStream :
  alwaysToolCallsStream (World := unit) (Schema := unit)
    (fun _ w => (Agent.Success Demo.alwaysNopeStream, w)).
Proof.
  intros req w. exists Demo.alwaysNopeStream, w.
  split; [reflexivity|]. split; [reflexivity|]. vm_compute. discriminate.
Qed.

(** The streaming run of the concrete agent with ceiling 2 and no handler:
    two completion requests, then the error. *)
Lemma RunStream_stops_at_iteration_limit_witness :
  exists a' w' tr,
    Agent.RunStream Demo.runtime 3 (Demo.agentWithLimit 2) tt "hi" None =
      (Agent.Returned "" (Some (Agent.ErrMaxIterations 2)), a', w', tr)
    /\ length (Agent.completions tr) = 2%nat.
Proof.
  destruct (RunStream_stops_at_iteration_limit Demo.runtime (Demo.agentWithLimit 2) tt "hi" None)
    as [Hstream _].
  - reflexivity.
  - unfold int64_range. cbn. lia.
  - unfold int64_range. cbn. lia.
  - exact Demo_neverCancelled.
  - destruct (Hstream _ eq_refl Demo_alwaysToolCallsStream) as (a' & w' & tr & Hrun & Hlen).
    exists a', w', tr. split; [apply Hrun; cbn; lia|exact Hlen].
Defined.

(** [API_TOKEN] of the concrete parent never reaches the child. *)
Lemma buildEnvironment_isolation_witness :
  Sandbox.os_LookupEnv Demo.host "API_TOKEN" = Some "hunter2"
  /\ forall val, envEntry "API_TOKEN" val ∉ Sandbox.buildEnvironment Demo.host (Demo.configWith []).
Proof.
  split; [reflexivity|].
  apply (buildEnvironment_isolation Demo.host (Demo.configWith []) "API_TOKEN").
  - reflexivity.
  - cbn. intros key. rewrite !elem_of_cons, elem_of_nil.
    intros [->|[->|[->|[->|[->|[]]]]]]; reflexivity.
  - cbn. intros key val Hlook. apply lookup_singleton_Some in Hlook as [<- _]. reflexivity.
  - reflexivity.
  - cbn. rewrite !elem_of_cons, elem_of_nil. intros [|[|[|[|[|[]]]]]]; discriminate.
  - cbn. apply lookup_singleton_ne. discriminate.
  - discriminate.
Defined.

(** A cap of 4 bytes over the chunks [ab], [cdef], [gh]. *)
Lemma newCapture_first_bytes_witness :
  LimitedWriter.captured
    (LimitedWriter.writeAll (LimitedWriter.newCapture 4)
       [list_byte_of_string "ab"; list_byte_of_string "cdef"; list_byte_of_string "gh"])
  = list_byte_of_string "abcd".
Proof.
  destruct (newCapture_first_bytes 4
              [list_byte_of_string "ab"; list_byte_of_string "cdef"; list_byte_of_string "gh"])
    as [Heq _].
  - lia.
  - unfold int64_range. lia.
  - rewrite Heq. reflexivity.
Defined.

(** * Further properties of the agent loop *)

(** ** A rule for the loop of [Run] *)

Section LoopRule.
Import Llm Agent.

Context {World Args Schema Any : Type}.
Variable rt : @Runtime World Args Schema.
Variable cfg : Config.
Variable reg : @Registry World Args Schema.

Abbreviation Ctx := (@Agent.Context Any).
Abbreviation Trace := (list (@TraceEvent Schema)).
Abbreviation Outcome := (LoopStatus * Ctx * World * Trace)%type.

(** One more unit of fuel is one pass through the body of the [for]: the
    function returns in that pass, or the loop goes on from the state the
    pass leaves. *)
Lemma runLoop_pass fuel (c : Ctx) w (tr : Trace) :
  runLoop rt (S fuel) cfg reg c w tr =
    match runLoop rt 1 cfg reg c w tr with
    | (OutOfFuel, c', w', tr') => runLoop rt fuel cfg reg c' w' tr'
    | returned => returned
    end.
Proof.
  cbn [runLoop]. destruct (limitReached cfg c); [done|].
  destruct (ctx_Done rt w); [done|].
  destruct (provider_Complete rt _ w) as [[resp|err] w1]; [|done].
  destruct (0 <? len (resp_ToolCalls resp)); [|done].
  by destruct (executeToolCalls rt reg _ _ w1 _) as [[c2 w2] tr2].
Qed.

(** The five ways through one pass. *)
Lemma runLoop_one (c : Ctx) w (tr : Trace) (P : Outcome -> Prop) :
  let req := buildRequest rt cfg reg (incrIteration c) in
  (limitReached cfg c = true ->
   P (Returned "" (Some (ErrMaxIterations (MaxIterations cfg))), c, w, tr)) ->
  (forall cause,
     limitReached cfg c = false -> ctx_Done rt w = Some cause ->
     P (Returned "" (Some (ErrContext cause)), incrIteration c, w, tr)) ->
  (forall err w1,
     limitReached cfg c = false -> ctx_Done rt w = None ->
     provider_Complete rt req w = (Failure err, w1) ->
     P (Returned "" (Some (ErrLLM err)), incrIteration c, w1,
        tr ++ [TrComplete req (Failure err)])) ->
  (forall resp w1,
     limitReached cfg c = false -> ctx_Done rt w = None ->
     provider_Complete rt req w = (Success resp, w1) ->
     resp_ToolCalls resp = [] ->
     let c1 := UpdateUsage (incrIteration c) (resp_Usage resp) in
     P (Returned (resp_Content resp) None,
        (if nonEmptyContent (resp_Content resp)
         then AddAssistantMessage c1 (resp_Content resp) else c1),
        w1, tr ++ [TrComplete req (Success resp)])) ->
  (forall resp w1,
     limitReached cfg c = false -> ctx_Done rt w = None ->
     provider_Complete rt req w = (Success resp, w1) ->
     resp_ToolCalls resp <> [] ->
     let answers := (toolAnswers rt reg (resp_ToolCalls resp) w1).1 in
     P (OutOfFuel, afterToolCalls c resp answers,
        (toolAnswers rt reg (resp_ToolCalls resp) w1).2,
        tr ++ iterationBlock req resp answers)) ->
  P (runLoop rt 1 cfg reg c w tr).
Proof.
  intros req Hlimit Hcancel Hfail Hanswer Hcalls.
  destruct (limitReached cfg c) eqn:Hlim.
  { cbn [runLoop]. rewrite Hlim. by apply Hlimit. }
  destruct (ctx_Done rt w) as [cause|] eqn:Hdone.
  { cbn [runLoop]. rewrite Hlim, Hdone. by apply Hcancel. }
  destruct (provider_Complete rt req w) as [[resp|err] w1] eqn:Hprov.
  2:{ cbn [runLoop]. rewrite Hlim, Hdone. fold req. rewrite Hprov. by apply Hfail. }
  destruct (resp_ToolCalls resp) as [|tc tcs] eqn:Htcs.
  - cbn [runLoop]. rewrite Hlim, Hdone. fold req. rewrite Hprov, Htcs. cbn.
    by apply (Hanswer resp w1).
  - rewrite (runLoop_tool_calls rt cfg reg 0 c w tr resp w1 Hlim Hdone Hprov)
      by (by rewrite Htcs).
    cbn [runLoop]. apply Hcalls; try done. by rewrite Htcs.
Qed.

(** The loop rule: a property of the state that every pass keeps holds
    when the fuel runs out, and gives what the returning pass gives. *)
Lemma runLoop_rule (Inv : Ctx -> World -> Trace -> Prop) (Post : Outcome -> Prop) :
  (forall c w tr, Inv c w tr -> Post (OutOfFuel, c, w, tr)) ->
  (forall c w tr, Inv c w tr ->
     match runLoop rt 1 cfg reg c w tr with
     | (OutOfFuel, c', w', tr') => Inv c' w' tr'
     | returned => Post returned
     end) ->
  forall fuel c w tr, Inv c w tr -> Post (runLoop rt fuel cfg reg c w tr).
Proof.
  intros Hfuel Hpass. induction fuel as [|fuel IH]; intros c w tr HI.
  - by apply Hfuel.
  - rewrite runLoop_pass. specialize (Hpass c w tr HI).
    destruct (runLoop rt 1 cfg reg c w tr) as [[[[content err|] c'] w'] tr']; auto.
Qed.

End LoopRule.

(** ** The same for the loop of [RunStream] *)

Section StreamLoopRule.
Import Llm Agent.

Context {World Args Schema Any : Type}.
Variable rt : @Runtime World Args Schema.
Variable completeStream :
  CompletionRequest Schema -> World -> result (list StreamEvent) * World.
Variable handler : option StreamHandler.
Variable cfg : Config.
Variable reg : @Registry World Args Schema.

Abbreviation Ctx := (@Agent.Context Any).
Abbreviation Trace := (list (@TraceEvent Schema)).
Abbreviation Outcome := (LoopStatus * Ctx * World * Trace)%type.

(** The text fragments the event loop reads, up to the first error
    event. *)
Fixpoint streamedTexts (events : list StreamEvent) : list string :=
  match events with
  | [] => []
  | StreamEventText text :: rest => text :: streamedTexts rest
  | StreamEventError _ :: _ => []
  | _ :: rest => streamedTexts rest
  end.

Definition joinTexts (texts : list string) : string := fold_right append "" texts.

(** The calls of [OnText] for a stream. *)
Definition textEvents (events : list StreamEvent) : Trace :=
  if handles handler OnText then map TrOnText (streamedTexts events) else [].

(** *** What a stream amounts to

    The error, the usage and the completed calls of a stream, read off its
    events and not off the loop that consumes them. *)

Definition errorOf (e : StreamEvent) : option string :=
  match e with
  | StreamEventError err => Some err
  | _ => None
  end.

(** The error of the first error event. *)
Definition streamError (events : list StreamEvent) : option string :=
  head (omap errorOf events).

Definition doneUsage (e : StreamEvent) : option Usage :=
  match e with
  | StreamEventDone usage _ => Some usage
  | _ => None
  end.

(** The usage of the last done event; zero tokens without one. *)
Definition lastUsage (events : list StreamEvent) : Usage :=
  default {| InputTokens := 0; OutputTokens := 0 |} (last (omap doneUsage events)).

Definition startFor (index : Z) (e : StreamEvent) : option ToolCall :=
  match e with
  | StreamEventToolCallStart tc i => if Z.eqb i index then Some tc else None
  | _ => None
  end.

(** The start event in force for [index] after [events]: the latest. *)
Definition latestStart (index : Z) (events : list StreamEvent) : option ToolCall :=
  last (omap (startFor index) events).

(** The call the [k]-th event completes: it is an end event for an index
    that was started before it; the id and the name are those of the latest
    such start, the arguments those of the end event. *)
Definition completedAt (events : list StreamEvent) (k : nat) : option ToolCall :=
  match events !! k with
  | Some (StreamEventToolCallEnd etc index) =>
      (fun started => {| ID := ID started; Name := Name started;
                         Arguments := Arguments etc |})
        <$> latestStart index (take k events)
  | _ => None
  end.

Definition completedCalls (events : list StreamEvent) : list ToolCall :=
  omap (completedAt events) (seq 0 (length events)).

(** The response a stream without error event amounts to. *)
Definition streamResponse (events : list StreamEvent) : Response :=
  {| resp_Content := joinTexts (streamedTexts events);
     resp_ToolCalls := completedCalls events;
     resp_StopReason := "";
     resp_Usage := lastUsage events |}.

(** The locals of [RunStream] once the channel is closed. *)
Definition gathered (events : list StreamEvent) : streamState :=
  (consumeEvents (Schema := Schema) None events streamInit []).1.2.

Definition usageEvents (usage : Usage) : Trace :=
  if handles handler OnUsage
  then [TrOnUsage (InputTokens usage) (OutputTokens usage)] else [].

Definition doneEvents : Trace := if handles handler OnDone then [TrOnDone] else [].

(** What one tool call of [RunStream] adds to the trace. *)
Definition toolEvents (tc : ToolCall) (answer : result string) : Trace :=
  (if handles handler OnToolStart then [TrOnToolStart tc] else []) ++
  [TrExecuteTool tc answer] ++
  (if handles handler OnToolEnd
   then [TrOnToolEnd tc (toolResultText answer)
           (match answer with Failure err => Some err | Success _ => None end)]
   else []).

Lemma notify_app f e (tr : Trace) :
  notify handler f e tr = tr ++ (if handles handler f then [e] else []).
Proof. unfold notify. destruct (handles handler f); [done|by rewrite app_nil_r]. Qed.

Lemma consumeEvents_trace events st (tr : Trace) :
  (consumeEvents handler events st tr).2 = tr ++ textEvents events.
Proof.
  unfold textEvents. revert st tr.
  induction events as [|e rest IH]; intros st tr.
  - cbn. destruct (handles handler OnText); by rewrite app_nil_r.
  - destruct e as [text|etc index|index d|etc index|usage reason|err];
      cbn [consumeEvents streamedTexts]; try apply IH.
    + rewrite IH, notify_app. destruct (handles handler OnText); cbn.
      * by rewrite <- app_assoc.
      * by rewrite !app_nil_r.
    + destruct (ss_currentToolCalls st !! index); apply IH.
    + cbn. destruct (handles handler OnText); by rewrite app_nil_r.
Qed.

Lemma joinTexts_cons text texts : joinTexts (text :: texts) = text +:+ joinTexts texts.
Proof. reflexivity. Qed.

(** The content gathered is the concatenation of the fragments. *)
Lemma consumeEvents_content events st (tr : Trace) :
  ss_content (consumeEvents handler events st tr).1.2
    = ss_content st +:+ joinTexts (streamedTexts events).
Proof.
  revert st tr. induction events as [|e rest IH]; intros st tr.
  - cbn. by rewrite append_nil_r.
  - destruct e as [text|etc index|index d|etc index|usage reason|err];
      cbn [consumeEvents streamedTexts]; try (rewrite IH; reflexivity).
    + rewrite IH. cbn [ss_content]. by rewrite joinTexts_cons, append_assoc.
    + destruct (ss_currentToolCalls st !! index); rewrite IH; reflexivity.
    + cbn. by rewrite append_nil_r.
Qed.

(** The event loop computes exactly that. *)
Lemma consumeEvents_failure hd events st (tr : Trace) :
  (consumeEvents hd events st tr).1.1 = streamError events.
Proof.
  revert st tr. induction events as [|e rest IH]; intros st tr; [done|].
  destruct e as [text|etc index|index d|etc index|usage reason|err];
    cbn [consumeEvents]; try apply IH; [|done].
  destruct (ss_currentToolCalls st !! index); apply IH.
Qed.

Lemma consumeEvents_app hd l1 l2 st (tr : Trace) :
  consumeEvents hd (l1 ++ l2) st tr =
    match consumeEvents hd l1 st tr with
    | (Some err, st1, tr1) => (Some err, st1, tr1)
    | (None, st1, tr1) => consumeEvents hd l2 st1 tr1
    end.
Proof.
  revert st tr. induction l1 as [|e rest IH]; intros st tr; [done|].
  destruct e as [text|etc index|index d|etc index|usage reason|err];
    cbn [app consumeEvents]; try apply IH; [|done].
  destruct (ss_currentToolCalls st !! index); apply IH.
Qed.

Lemma streamError_app l1 l2 :
  streamError (l1 ++ l2) =
    match streamError l1 with Some err => Some err | None => streamError l2 end.
Proof. unfold streamError. rewrite omap_app. by destruct (omap errorOf l1). Qed.

Lemma lastUsage_snoc events e :
  lastUsage (events ++ [e]) =
    match doneUsage e with Some usage => usage | None => lastUsage events end.
Proof.
  unfold lastUsage. rewrite omap_app. cbn.
  destruct (doneUsage e); [by rewrite last_snoc|by rewrite app_nil_r].
Qed.

Lemma latestStart_snoc index events e :
  latestStart index (events ++ [e]) =
    match startFor index e with
    | Some tc => Some tc
    | None => latestStart index events
    end.
Proof.
  unfold latestStart. rewrite omap_app. cbn -[startFor].
  destruct (startFor index e); [by rewrite last_snoc|by rewrite app_nil_r].
Qed.

Lemma omap_agree {A B} (f g : A -> option B) (l : list A) :
  (forall x, x ∈ l -> f x = g x) -> omap f l = omap g l.
Proof.
  induction l as [|x l IH]; intros H; [done|]. cbn.
  rewrite (H x) by left. rewrite IH; [done|]. intros y Hy. apply H. by right.
Qed.

Lemma completedCalls_snoc events e :
  completedCalls (events ++ [e]) =
    completedCalls events ++
    match e with
    | StreamEventToolCallEnd etc index =>
        match latestStart index events with
        | Some started => [{| ID := ID started; Name := Name started;
                              Arguments := Arguments etc |}]
        | None => []
        end
    | _ => []
    end.
Proof.
  unfold completedCalls. rewrite length_app. cbn [length].
  rewrite seq_app, omap_app. cbn [seq omap]. f_equal.
  - apply omap_agree. intros k Hk. apply elem_of_seq in Hk.
    unfold completedAt. rewrite lookup_app_l, take_app_le by lia. done.
  - rewrite Nat.add_0_l.
    assert (Hat : completedAt (events ++ [e]) (length events) =
              match e with
              | StreamEventToolCallEnd etc index =>
                  (fun started => {| ID := ID started; Name := Name started;
                                     Arguments := Arguments etc |})
                    <$> latestStart index events
              | _ => None
              end).
    { unfold completedAt. by rewrite list_lookup_middle, take_app_length. }
    cbn [list_omap]. rewrite Hat.
    destruct e as [text|etc index|index d|etc index|usage reason|err]; try done.
    by destruct (latestStart index events).
Qed.

Lemma joinTexts_snoc texts text : joinTexts texts +:+ text = joinTexts (texts ++ [text]).
Proof.
  induction texts as [|t ts IH]; cbn [app].
  - by rewrite joinTexts_cons, append_nil_r.
  - by rewrite !joinTexts_cons, append_assoc, IH.
Qed.

Lemma streamedTexts_snoc events e :
  streamError events = None ->
  streamedTexts (events ++ [e]) =
    streamedTexts events ++ match e with StreamEventText text => [text] | _ => [] end.
Proof.
  induction events as [|x rest IH]; intros Herr.
  - by destruct e.
  - destruct x as [text|etc index|index d|etc index|usage reason|err];
      cbn [app streamedTexts]; try (apply IH; exact Herr); [|done].
    by rewrite (IH Herr).
Qed.

(** The state of the event loop after a stream without error event. *)
Lemma gathered_spec events :
  streamError events = None ->
  ss_content (gathered events) = joinTexts (streamedTexts events)
  /\ ss_toolCalls (gathered events) = completedCalls events
  /\ ss_usage (gathered events) = lastUsage events
  /\ forall index,
       (fun tc => (ID tc, Name tc)) <$> ss_currentToolCalls (gathered events) !! index
       = (fun tc => (ID tc, Name tc)) <$> latestStart index events.
Proof.
  induction events as [|e events IH] using rev_ind; intros Herr.
  { repeat split. }
  rewrite streamError_app in Herr.
  destruct (streamError events) eqn:Hprefix; [discriminate|].
  destruct (IH eq_refl) as (Hcontent & Hcalls & Husage & Hcurrent). clear IH.
  pose proof (consumeEvents_failure None events streamInit ([] : Trace)) as Hnone.
  rewrite Hprefix in Hnone.
  unfold gathered in *. rewrite consumeEvents_app.
  revert Hcontent Hcalls Husage Hcurrent Hnone.
  destruct (consumeEvents None events streamInit []) as [[failed st] tr0].
  cbn [fst snd]. intros Hcontent Hcalls Husage Hcurrent ->.
  rewrite streamedTexts_snoc, completedCalls_snoc, lastUsage_snoc by done.
  destruct e as [text|etc index|index d|etc index|usage reason|err];
    cbn [consumeEvents fst snd ss_content ss_toolCalls ss_usage ss_currentToolCalls
         doneUsage]; rewrite ?app_nil_r.
  - repeat split; try done.
    + rewrite Hcontent. apply joinTexts_snoc.
    + intros i. rewrite latestStart_snoc. apply Hcurrent.
  - repeat split; try done. intros i. rewrite latestStart_snoc. cbn [startFor].
    destruct (Z.eqb_spec index i) as [->|Hne].
    + by rewrite lookup_insert_eq.
    + rewrite lookup_insert_ne by done. apply Hcurrent.
  - repeat split; try done. intros i. rewrite latestStart_snoc. apply Hcurrent.
  - pose proof (Hcurrent index) as Hindex.
    destruct (ss_currentToolCalls st !! index) as [tc|] eqn:Htc;
      destruct (latestStart index events) as [started|] eqn:Hstarted;
      try discriminate Hindex; cbn [fst snd ss_content ss_toolCalls ss_usage
                                    ss_currentToolCalls].
    + injection Hindex as Hid Hname. rewrite Hid, Hname, Hcalls.
      repeat split; try done. intros i. rewrite latestStart_snoc. cbn [startFor].
      destruct (decide (index = i)) as [<-|Hne].
      * by rewrite lookup_insert_eq, Hstarted.
      * rewrite lookup_insert_ne by done. apply Hcurrent.
    + rewrite app_nil_r. repeat split; try done.
      intros i. rewrite latestStart_snoc. apply Hcurrent.
  - repeat split; try done. intros i. rewrite latestStart_snoc. apply Hcurrent.
  - discriminate.
Qed.

(** So the failure and the calls the event loop finds in a stream are the
    first error event and the calls the stream completes. *)
Lemma streamFailure_spec events :
  streamFailure (Schema := Schema) events = streamError events.
Proof. apply consumeEvents_failure. Qed.

Lemma streamToolCalls_spec events :
  streamError events = None ->
  streamToolCalls (Schema := Schema) events = completedCalls events.
Proof. intros Herr. by destruct (gathered_spec events Herr) as (_ & Hcalls & _). Qed.

Lemma executeToolCallsStream_unfold tcs (c : Ctx) w (tr : Trace) :
  executeToolCallsStream rt reg handler tcs c w tr =
    (appendMessages c (zip_with resultMessage tcs (toolAnswers rt reg tcs w).1),
     (toolAnswers rt reg tcs w).2,
     tr ++ concat (zip_with toolEvents tcs (toolAnswers rt reg tcs w).1)).
Proof.
  revert c w tr. induction tcs as [|tc rest IH]; intros c w tr; cbn.
  - by rewrite appendMessages_nil, app_nil_r.
  - destruct (executeTool rt reg tc w) as [answer w1]. rewrite IH.
    destruct (toolAnswers rt reg rest w1) as [answers w2]. cbn.
    unfold AddToolResult. rewrite appendMessages_cons.
    rewrite !notify_app. unfold toolEvents, resultMessage.
    by rewrite <- !app_assoc.
Qed.

Lemma runStreamLoop_pass fuel (c : Ctx) w (tr : Trace) :
  runStreamLoop rt completeStream handler (S fuel) cfg reg c w tr =
    match runStreamLoop rt completeStream handler 1 cfg reg c w tr with
    | (OutOfFuel, c', w', tr') =>
        runStreamLoop rt completeStream handler fuel cfg reg c' w' tr'
    | returned => returned
    end.
Proof.
  cbn [runStreamLoop]. destruct (limitReached cfg c); [done|].
  destruct (ctx_Done rt w); [done|].
  destruct (completeStream _ w) as [[events|err] w1]; [|done].
  destruct (consumeEvents handler events streamInit _) as [[[err|] st] tr1]; [done|].
  destruct (0 <? len (ss_toolCalls st)); [|done].
  by destruct (executeToolCallsStream rt reg handler _ _ w1 _) as [[c2 w2] tr2].
Qed.

(** The six ways through one pass. *)
Lemma runStreamLoop_one (c : Ctx) w (tr : Trace) (P : Outcome -> Prop) :
  let req := buildRequest rt cfg reg (incrIteration c) in
  (limitReached cfg c = true ->
   P (Returned "" (Some (ErrMaxIterations (MaxIterations cfg))), c, w, tr)) ->
  (forall cause,
     limitReached cfg c = false -> ctx_Done rt w = Some cause ->
     P (Returned "" (Some (ErrContext cause)), incrIteration c, w, tr)) ->
  (forall err w1,
     limitReached cfg c = false -> ctx_Done rt w = None ->
     completeStream req w = (Failure err, w1) ->
     P (Returned "" (Some (ErrLLM err)), incrIteration c, w1,
        tr ++ [TrCompleteStream req (Failure err)])) ->
  (forall events w1 err,
     limitReached cfg c = false -> ctx_Done rt w = None ->
     completeStream req w = (Success events, w1) ->
     streamError events = Some err ->
     P (Returned "" (Some (ErrStream err)), incrIteration c, w1,
        tr ++ TrCompleteStream req (Success events) :: textEvents events)) ->
  (forall events w1,
     limitReached cfg c = false -> ctx_Done rt w = None ->
     completeStream req w = (Success events, w1) ->
     streamError events = None ->
     resp_ToolCalls (streamResponse events) = [] ->
     let resp := streamResponse events in
     let c1 := UpdateUsage (incrIteration c) (resp_Usage resp) in
     P (Returned (resp_Content resp) None,
        (if nonEmptyContent (resp_Content resp)
         then AddAssistantMessage c1 (resp_Content resp) else c1),
        w1,
        tr ++ TrCompleteStream req (Success events) :: textEvents events
           ++ usageEvents (resp_Usage resp) ++ doneEvents)) ->
  (forall events w1,
     limitReached cfg c = false -> ctx_Done rt w = None ->
     completeStream req w = (Success events, w1) ->
     streamError events = None ->
     resp_ToolCalls (streamResponse events) <> [] ->
     let resp := streamResponse events in
     let answers := (toolAnswers rt reg (resp_ToolCalls resp) w1).1 in
     P (OutOfFuel, afterToolCalls c resp answers,
        (toolAnswers rt reg (resp_ToolCalls resp) w1).2,
        tr ++ TrCompleteStream req (Success events) :: textEvents events
           ++ usageEvents (resp_Usage resp)
           ++ concat (zip_with toolEvents (resp_ToolCalls resp) answers))) ->
  P (runStreamLoop rt completeStream handler 1 cfg reg c w tr).
Proof.
  intros req Hlimit Hcancel Hfail Herror Hanswer Hcalls.
  cbn [runStreamLoop].
  destruct (limitReached cfg c) eqn:Hlim; [by apply Hlimit|].
  destruct (ctx_Done rt w) as [cause|] eqn:Hdone; [by apply Hcancel|].
  fold req. destruct (completeStream req w) as [[events|err] w1] eqn:Hprov;
    [|by apply Hfail].
  pose proof (consumeEvents_spec handler events streamInit
                (tr ++ [TrCompleteStream req (Success events)])) as [Hsame _].
  pose proof (consumeEvents_trace events streamInit
                (tr ++ [TrCompleteStream req (Success events)])) as Htrace.
  pose proof (consumeEvents_failure handler events streamInit
                (tr ++ [TrCompleteStream req (Success events)])) as Hfailed.
  destruct (consumeEvents handler events streamInit _) as [[failed st] tr1].
  cbn [fst snd] in Hsame, Htrace, Hfailed. subst tr1.
  assert (Hst : st = gathered events) by (unfold gathered; by rewrite <- Hsame).
  rewrite <- app_assoc. cbn [app].
  destruct failed as [err|]; [by apply Herror|].
  destruct (gathered_spec events (eq_sym Hfailed)) as (Hcontent & Htools & Husage & _).
  rewrite <- Hst in Hcontent, Htools, Husage. clear Hst Hsame.
  change (joinTexts (streamedTexts events)) with (resp_Content (streamResponse events))
    in Hcontent.
  change (completedCalls events) with (resp_ToolCalls (streamResponse events)) in Htools.
  change (lastUsage events) with (resp_Usage (streamResponse events)) in Husage.
  rewrite Hcontent, Htools, Husage.
  rewrite notify_app. fold (usageEvents (resp_Usage (streamResponse events))).
  destruct (resp_ToolCalls (streamResponse events)) as [|tc tcs] eqn:Htcs.
  - cbn [len length Z.of_nat Z.ltb Z.compare]. rewrite notify_app. fold doneEvents.
    rewrite <- !app_assoc. cbn [app].
    apply (Hanswer events w1); done.
  - replace (0 <? len (tc :: tcs)) with true
      by (symmetry; apply Z.ltb_lt; unfold len; cbn; lia).
    rewrite <- Htcs, executeToolCallsStream_unfold, appendMessages_cons.
    rewrite <- !app_assoc. cbn [app].
    apply (Hcalls events w1); try done.
    by rewrite Htcs.
Qed.

Lemma runStreamLoop_rule (Inv : Ctx -> World -> Trace -> Prop) (Post : Outcome -> Prop) :
  (forall c w tr, Inv c w tr -> Post (OutOfFuel, c, w, tr)) ->
  (forall c w tr, Inv c w tr ->
     match runStreamLoop rt completeStream handler 1 cfg reg c w tr with
     | (OutOfFuel, c', w', tr') => Inv c' w' tr'
     | returned => Post returned
     end) ->
  forall fuel c w tr,
    Inv c w tr -> Post (runStreamLoop rt completeStream handler fuel cfg reg c w tr).
Proof.
  intros Hfuel Hpass. induction fuel as [|fuel IH]; intros c w tr HI.
  - by apply Hfuel.
  - rewrite runStreamLoop_pass. specialize (Hpass c w tr HI).
    destruct (runStreamLoop rt completeStream handler 1 cfg reg c w tr)
      as [[[[content err|] c'] w'] tr']; auto.
Qed.

End StreamLoopRule.

(** ** Streaming and not streaming *)

Section StreamingAgrees.
Import Llm Agent.

Context {World Args Schema Any : Type}.
Variable rt : @Runtime World Args Schema.
Variable completeStream :
  CompletionRequest Schema -> World -> result (list StreamEvent) * World.
Variable handler : option StreamHandler.

Abbreviation Ctx := (@Agent.Context Any).
Abbreviation Trace := (list (@TraceEvent Schema)).

(** The provider that answers a request with the response its stream
    amounts to, and fails when the stream fails or holds an error event. *)
Definition asProvider (req : CompletionRequest Schema) (w : World)
  : result Response * World :=
  let '(answer, w1) := completeStream req w in
  (match answer with
   | Failure err => Failure err
   | Success events =>
       match streamError events with
       | Some err => Failure err
       | None => Success (streamResponse events)
       end
   end, w1).

(** The runtime with that provider in place of the streaming one. *)
Definition notStreaming : @Runtime World Args Schema :=
  {| provider_Complete := asProvider;
     provider_CompleteStream := None;
     json_Unmarshal := json_Unmarshal rt;
     ctx_Done := ctx_Done rt;
     range_LoadedSkills := range_LoadedSkills rt |}.

(** The tool calls executed, with their answers, in order. *)
Definition toolRuns (tr : Trace) : list (ToolCall * result string) :=
  omap (fun e => match e with
                 | TrExecuteTool tc answer => Some (tc, answer)
                 | _ => None
                 end) tr.

(** Both variants return the same thing, up to the wrapping of an error
    that arrived as an event of the stream. *)
Definition statusAgrees (streamed plain : LoopStatus) : Prop :=
  streamed = plain
  \/ exists err, streamed = Returned "" (Some (ErrStream err))
                 /\ plain = Returned "" (Some (ErrLLM err)).

Lemma toolRuns_app (tr1 tr2 : Trace) : toolRuns (tr1 ++ tr2) = toolRuns tr1 ++ toolRuns tr2.
Proof. apply omap_app. Qed.

Lemma toolRuns_tools tcs answers :
  length answers = length tcs ->
  toolRuns (zip_with (@TrExecuteTool Schema) tcs answers) = zip tcs answers.
Proof.
  revert answers. induction tcs as [|tc rest IH]; intros [|a answers] Hlen;
    try done. cbn in *. f_equal. apply IH. lia.
Qed.

Lemma toolRuns_toolEvents tcs answers :
  length answers = length tcs ->
  toolRuns (concat (zip_with (toolEvents handler) tcs answers)) = zip tcs answers.
Proof.
  revert answers. induction tcs as [|tc rest IH]; intros [|a answers] Hlen;
    try done. cbn [zip_with concat]. rewrite toolRuns_app. cbn in Hlen.
  rewrite IH by lia. unfold toolEvents.
  destruct (handles handler OnToolStart), (handles handler OnToolEnd); reflexivity.
Qed.

Lemma toolRuns_textEvents events : toolRuns (textEvents handler events) = [].
Proof.
  unfold textEvents. destruct (handles handler OnText); [|done].
  induction (streamedTexts events) as [|t ts IH]; [done|apply IH].
Qed.

Lemma completions_textEvents events :
  completions (textEvents (Schema := Schema) handler events) = [].
Proof.
  unfold textEvents. destruct (handles handler OnText); [|done].
  induction (streamedTexts events) as [|t ts IH]; [done|apply IH].
Qed.

Lemma completions_toolEvents tcs answers :
  completions (concat (zip_with (toolEvents (Schema := Schema) handler) tcs answers)) = [].
Proof.
  revert answers. induction tcs as [|tc rest IH]; intros [|a answers]; try done.
  cbn [zip_with concat]. rewrite completions_app, IH. unfold toolEvents.
  destruct (handles handler OnToolStart), (handles handler OnToolEnd); reflexivity.
Qed.

Lemma toolAnswers_notStreaming reg tcs w :
  toolAnswers notStreaming reg tcs w = toolAnswers rt reg tcs w.
Proof.
  revert w. induction tcs as [|tc rest IH]; intros w; [done|].
  cbn [toolAnswers]. change (executeTool notStreaming reg tc w) with (executeTool rt reg tc w).
  destruct (executeTool rt reg tc w) as [answer w1]. by rewrite IH.
Qed.

(** The two loops, started in the same state, stay in step: same context,
    same world, same requests, same tool calls with the same answers. *)
Lemma runStreamLoop_in_step cfg reg fuel (c : Ctx) w (trS trP : Trace) :
  completions trS = completions trP -> toolRuns trS = toolRuns trP ->
  let s := runStreamLoop rt completeStream handler fuel cfg reg c w trS in
  let p := runLoop notStreaming fuel cfg reg c w trP in
  statusAgrees s.1.1.1 p.1.1.1 /\ s.1.1.2 = p.1.1.2 /\ s.1.2 = p.1.2
  /\ completions s.2 = completions p.2 /\ toolRuns s.2 = toolRuns p.2.
Proof.
  revert c w trS trP. induction fuel as [|fuel IH]; intros c w trS trP Hc Ht.
  { cbn. repeat split; try done. by left. }
  cbv zeta. rewrite runStreamLoop_pass, runLoop_pass.
  assert (Hreq : buildRequest notStreaming cfg reg (incrIteration c)
                 = buildRequest rt cfg reg (incrIteration c)) by reflexivity.
  apply (runStreamLoop_one rt completeStream handler cfg reg c w trS).
  - intros Hlim. cbn [runLoop]. rewrite Hlim. repeat split; try done. by left.
  - intros cause Hlim Hdone. cbn [runLoop]. rewrite Hlim.
    change (ctx_Done notStreaming w) with (ctx_Done rt w). rewrite Hdone.
    repeat split; try done. by left.
  - intros err w1 Hlim Hdone Hprov. cbn [runLoop]. rewrite Hlim.
    change (ctx_Done notStreaming w) with (ctx_Done rt w). rewrite Hdone, Hreq.
    change (provider_Complete notStreaming) with asProvider.
    unfold asProvider. rewrite Hprov. cbn [fst snd].
    rewrite !completions_app, !toolRuns_app, Hc, Ht. repeat split; try done. by left.
  - intros events w1 err Hlim Hdone Hprov Hfail. cbn [runLoop]. rewrite Hlim.
    change (ctx_Done notStreaming w) with (ctx_Done rt w). rewrite Hdone, Hreq.
    change (provider_Complete notStreaming) with asProvider.
    unfold asProvider. rewrite Hprov, Hfail. cbn [fst snd].
    rewrite !completions_app, !toolRuns_app, Hc, Ht.
    change (completions (?e :: ?l)) with
      (buildRequest rt cfg reg (incrIteration c) :: completions l).
    change (toolRuns (TrCompleteStream ?r ?a :: ?l)) with (toolRuns l).
    rewrite completions_textEvents, toolRuns_textEvents.
    repeat split; try done. right. by exists err.
  - intros events w1 Hlim Hdone Hprov Hfail Htcs resp c1. subst resp c1.
    cbn [runLoop]. rewrite Hlim.
    change (ctx_Done notStreaming w) with (ctx_Done rt w). rewrite Hdone, Hreq.
    change (provider_Complete notStreaming) with asProvider.
    unfold asProvider. rewrite Hprov, Hfail. rewrite Htcs.
    change (0 <? len []) with false. cbn [fst snd].
    rewrite !completions_app, !toolRuns_app, Hc, Ht.
    change (completions (TrCompleteStream ?r ?a :: ?l)) with (r :: completions l).
    change (toolRuns (TrCompleteStream ?r ?a :: ?l)) with (toolRuns l).
    rewrite !completions_app, !toolRuns_app, completions_textEvents, toolRuns_textEvents.
    unfold usageEvents, doneEvents.
    destruct (handles handler OnUsage), (handles handler OnDone);
      repeat split; try done; by left.
  - intros events w1 Hlim Hdone Hprov Hfail Htcs resp answers.
    assert (Hp : provider_Complete notStreaming
                   (buildRequest notStreaming cfg reg (incrIteration c)) w
                 = (Success resp, w1)).
    { rewrite Hreq. change (provider_Complete notStreaming) with asProvider.
      unfold asProvider. by rewrite Hprov, Hfail. }
    rewrite (runLoop_tool_calls notStreaming cfg reg 0 c w trP resp w1 Hlim Hdone Hp Htcs).
    cbn [runLoop]. rewrite toolAnswers_notStreaming. fold answers.
    apply IH.
    + rewrite !completions_app, Hc, Hreq. unfold iterationBlock.
      change (completions (TrCompleteStream ?r ?a :: ?l)) with (r :: completions l).
      change (completions (TrComplete ?r ?a :: ?l)) with (r :: completions l).
      rewrite !completions_app, completions_textEvents, completions_toolEvents,
        completions_tools.
      unfold usageEvents. by destruct (handles handler OnUsage).
    + rewrite !toolRuns_app, Ht. unfold iterationBlock.
      change (toolRuns (TrCompleteStream ?r ?a :: ?l)) with (toolRuns l).
      change (toolRuns (TrComplete ?r ?a :: ?l)) with (toolRuns l).
      rewrite !toolRuns_app, toolRuns_textEvents.
      rewrite toolRuns_toolEvents, toolRuns_tools
        by (unfold answers; apply toolAnswers_length).
      unfold usageEvents. by destruct (handles handler OnUsage).
Qed.

End StreamingAgrees.

(** ** What a turn leaves in the conversation *)

Section Turn.
Import Llm Agent.

Context {World Args Schema Any : Type}.

Abbreviation Ctx := (@Agent.Context Any).
Abbreviation Trace := (list (@TraceEvent Schema)).
Abbreviation Rt := (@Runtime World Args Schema).

(** [RunStream] with a streaming provider and [Run] with the provider that
    answers each request with the response its stream amounts to return
    the same thing (an error event of the stream comes back bare from
    [RunStream] and wrapped as an LLM error from [Run]), leave the same
    conversation context and the same world, and issue the same requests
    and the same tool calls with the same answers, whatever the handler. *)
Theorem RunStream_agrees_with_Run (rt : Rt) (a : @Agent.Agent World Args Schema Any) (w : World)
    (userMessage : string) (handler : option StreamHandler) (fuel : nat)
    (completeStream : CompletionRequest Schema -> World
                      -> result (list StreamEvent) * World) :
  provider_CompleteStream rt = Some completeStream ->
  let s := RunStream rt fuel a w userMessage handler in
  let p := Run (notStreaming rt completeStream) fuel a w userMessage in
  statusAgrees s.1.1.1 p.1.1.1 /\ s.1.1.2 = p.1.1.2 /\ s.1.2 = p.1.2
  /\ completions s.2 = completions p.2 /\ toolRuns s.2 = toolRuns p.2.
Proof.
  intros Hsome. unfold RunStream, Run. rewrite Hsome.
  pose proof (runStreamLoop_in_step (Any := Any) rt completeStream handler
                (config a) (registry a) fuel
                (AddUserMessage (ctx a) userMessage) w [] [] eq_refl eq_refl) as H.
  cbv zeta in H.
  destruct (runStreamLoop rt completeStream handler fuel (config a) (registry a)
              (AddUserMessage (ctx a) userMessage) w []) as [[[s1 c1] w1] tr1].
  destruct (runLoop (notStreaming rt completeStream) fuel (config a) (registry a)
              (AddUserMessage (ctx a) userMessage) w []) as [[[s2 c2] w2] tr2].
  cbn [fst snd] in *. destruct H as (Hs & -> & -> & Hc & Ht). done.
Qed.

(** A tool-result message that answers the call. *)
Definition answersCall (tc : ToolCall) (m : Message) : Prop :=
  msg_Role m = RoleTool /\ msg_ToolCallID m = ID tc /\ msg_ToolCalls m = [].

(** Whole rounds of tool use: an assistant message that holds the calls of
    one response, followed by one tool-result message per call, in the
    order of the calls. *)
Inductive toolRounds : list Message -> Prop :=
| toolRounds_nil : toolRounds []
| toolRounds_snoc rounds tcs results :
    toolRounds rounds -> tcs <> [] -> Forall2 answersCall tcs results ->
    toolRounds (rounds ++ NewAssistantToolCallMessage tcs :: results).

(** The message that closes a turn: the answer, when there is one and it
    is not empty. *)
Definition finalMessage (status : LoopStatus) : list Message :=
  match status with
  | Returned content None =>
      if nonEmptyContent content then [NewAssistantMessage content] else []
  | _ => []
  end.

Definition sameSetting (c c' : Ctx) : Prop :=
  LoadedSkills c' = LoadedSkills c /\ WorkspacePath c' = WorkspacePath c
  /\ Metadata c' = Metadata c.

(** A turn: the user's message, whole rounds of tool use, the final
    message; nothing else of the agent changes. *)
Definition turnOf (a : @Agent.Agent World Args Schema Any) (userMessage : string)
    (out : LoopStatus * @Agent.Agent World Args Schema Any * World * Trace) : Prop :=
  config out.1.1.2 = config a /\ registry out.1.1.2 = registry a
  /\ sameSetting (ctx a) (ctx out.1.1.2)
  /\ exists rounds,
       toolRounds rounds /\
       Messages (ctx out.1.1.2) =
         Messages (ctx a) ++ NewUserMessage userMessage :: rounds ++ finalMessage out.1.1.1.

Lemma answersCall_results tcs (answers : list (result string)) :
  length answers = length tcs ->
  Forall2 answersCall tcs (zip_with resultMessage tcs answers).
Proof.
  revert answers. induction tcs as [|tc rest IH]; intros [|a answers] Hlen;
    try done; cbn in *; constructor; [done|apply IH; lia].
Qed.

Lemma runLoop_history (rt : Rt) cfg reg fuel (c0 : Ctx) w (tr : Trace) :
  let out := runLoop rt fuel cfg reg c0 w tr in
  sameSetting c0 out.1.1.2
  /\ exists rounds,
       toolRounds rounds /\
       Messages out.1.1.2 = Messages c0 ++ rounds ++ finalMessage out.1.1.1.
Proof.
  cbv zeta.
  apply (runLoop_rule rt cfg reg
           (fun c _ _ => sameSetting c0 c /\ exists rounds,
                toolRounds rounds /\ Messages c = Messages c0 ++ rounds)
           (fun out => sameSetting c0 out.1.1.2 /\ exists rounds,
                toolRounds rounds /\
                Messages out.1.1.2 = Messages c0 ++ rounds ++ finalMessage out.1.1.1)).
  - intros c w' tr' [Hs (rounds & Hr & Hm)]. split; [done|].
    exists rounds. by rewrite app_nil_r.
  - intros c w' tr' [Hs (rounds & Hr & Hm)].
    apply (runLoop_one rt cfg reg c w' tr').
    + intros _. split; [done|]. exists rounds. by rewrite app_nil_r.
    + intros cause _ _. split; [done|]. exists rounds. by rewrite app_nil_r.
    + intros err w1 _ _ _. split; [done|]. exists rounds. by rewrite app_nil_r.
    + intros resp w1 _ _ _ _ c1. cbn [fst snd finalMessage]. split.
      * by destruct (nonEmptyContent (resp_Content resp)).
      * exists rounds. split; [done|].
        destruct (nonEmptyContent (resp_Content resp)); cbn.
        -- by rewrite Hm, <- app_assoc.
        -- by rewrite Hm, app_nil_r.
    + intros resp w1 _ _ _ Htcs answers. split; [done|].
      exists (rounds ++ NewAssistantToolCallMessage (resp_ToolCalls resp)
                :: zip_with resultMessage (resp_ToolCalls resp) answers).
      split.
      * constructor; [done|done|]. apply answersCall_results, toolAnswers_length.
      * cbn. by rewrite Hm, <- app_assoc.
  - split; [done|]. exists []. split; [constructor|by rewrite app_nil_r].
Qed.

Lemma finalMessage_agrees streamed plain :
  statusAgrees streamed plain -> finalMessage streamed = finalMessage plain.
Proof. by intros [->|(err & -> & ->)]. Qed.

Lemma Run_turn (rt : Rt) fuel (a : @Agent.Agent World Args Schema Any) w userMessage :
  turnOf a userMessage (Run rt fuel a w userMessage).
Proof.
  unfold turnOf, Run.
  pose proof (runLoop_history rt (config a) (registry a) fuel
                (AddUserMessage (ctx a) userMessage) w []) as H.
  cbv zeta in H.
  destruct (runLoop rt fuel (config a) (registry a)
              (AddUserMessage (ctx a) userMessage) w []) as [[[s c] w'] tr].
  cbn [fst snd config registry ctx] in *.
  destruct H as [Hs (rounds & Hr & Hm)]. repeat split; try done; try apply Hs.
  exists rounds. split; [done|]. rewrite Hm. cbn. by rewrite <- app_assoc.
Qed.

Lemma RunStream_turn (rt : Rt) fuel (a : @Agent.Agent World Args Schema Any) w userMessage handler :
  turnOf a userMessage (RunStream rt fuel a w userMessage handler).
Proof.
  destruct (provider_CompleteStream rt) as [completeStream|] eqn:Hsome.
  - unfold turnOf, RunStream. rewrite Hsome.
    pose proof (runStreamLoop_in_step (Any := Any) rt completeStream handler
                  (config a) (registry a) fuel
                  (AddUserMessage (ctx a) userMessage) w [] [] eq_refl eq_refl) as H.
    pose proof (runLoop_history (notStreaming rt completeStream)
                  (config a) (registry a) fuel
                  (AddUserMessage (ctx a) userMessage) w []) as Hp.
    cbv zeta in H, Hp.
    destruct (runStreamLoop rt completeStream handler fuel (config a) (registry a)
                (AddUserMessage (ctx a) userMessage) w []) as [[[s1 c1] w1] tr1].
    destruct (runLoop (notStreaming rt completeStream) fuel (config a) (registry a)
                (AddUserMessage (ctx a) userMessage) w []) as [[[s2 c2] w2] tr2].
    cbn [fst snd config registry ctx] in *.
    destruct H as (Hs & -> & _). destruct Hp as [Hset (rounds & Hr & Hm)].
    repeat split; try done; try apply Hset.
    exists rounds. split; [done|].
    rewrite Hm, (finalMessage_agrees _ _ Hs). cbn. by rewrite <- app_assoc.
  - pose proof (Run_turn rt fuel a w userMessage) as Hp.
    unfold turnOf, RunStream in *. rewrite Hsome.
    destruct (Run rt fuel a w userMessage) as [[[s a'] w'] tr].
    by destruct s as [content [err|]|].
Qed.

(** Whatever the provider, the tools and the handler do, and however the
    turn ends, [Run] and [RunStream] leave the configuration, the registry,
    the loaded skills, the workspace path and the metadata as they were,
    and only append to the history: the user's message, then whole rounds
    of tool use (an assistant message with the calls of one response
    followed by one tool-result message per call, in order, each carrying
    the id of its call), then the answer when the turn succeeds with a
    non-empty one. *)
Theorem history_records_the_turn (rt : Rt) (fuel : nat)
    (a : @Agent.Agent World Args Schema Any) (w : World) (userMessage : string)
    (handler : option StreamHandler) :
  turnOf a userMessage (Run rt fuel a w userMessage)
  /\ turnOf a userMessage (RunStream rt fuel a w userMessage handler).
Proof. split; [apply Run_turn|apply RunStream_turn]. Qed.

End Turn.

(** ** Which tools run, and when the ceiling is reported *)

Section ToolsAndCeiling.
Import Llm Agent.

Context {World Args Schema Any : Type}.

Abbreviation Ctx := (@Agent.Context Any).
Abbreviation Trace := (list (@TraceEvent Schema)).
Abbreviation Rt := (@Runtime World Args Schema).

(** The tool calls a completion asks for: those of the response, or those
    a stream without error event completes. *)
Definition requestedBy (e : @TraceEvent Schema) : list ToolCall :=
  match e with
  | TrComplete _ (Success resp) => resp_ToolCalls resp
  | TrCompleteStream _ (Success events) =>
      match streamError events with
      | None => completedCalls events
      | Some _ => []
      end
  | _ => []
  end.

Definition requestedCalls (tr : Trace) : list ToolCall := concat (map requestedBy tr).

Definition executedCalls (tr : Trace) : list ToolCall := map fst (toolRuns tr).

Lemma requestedCalls_app (tr1 tr2 : Trace) :
  requestedCalls (tr1 ++ tr2) = requestedCalls tr1 ++ requestedCalls tr2.
Proof. unfold requestedCalls. by rewrite map_app, concat_app. Qed.

Lemma executedCalls_app (tr1 tr2 : Trace) :
  executedCalls (tr1 ++ tr2) = executedCalls tr1 ++ executedCalls tr2.
Proof. unfold executedCalls. by rewrite toolRuns_app, map_app. Qed.

Lemma fst_zip_same_length {A B} (l : list A) (k : list B) :
  length k = length l -> map fst (zip l k) = l.
Proof.
  revert k. induction l as [|x l IH]; intros [|y k] Hlen; try done.
  cbn in *. f_equal. apply IH. lia.
Qed.

Lemma requestedCalls_tools tcs answers :
  requestedCalls (zip_with (@TrExecuteTool Schema) tcs answers) = [].
Proof.
  revert answers. induction tcs as [|tc rest IH]; intros [|a answers]; try done.
  apply IH.
Qed.

Lemma requestedCalls_toolEvents handler tcs answers :
  requestedCalls (concat (zip_with (toolEvents (Schema := Schema) handler) tcs answers)) = [].
Proof.
  revert answers. induction tcs as [|tc rest IH]; intros [|a answers]; try done.
  cbn [zip_with concat]. rewrite requestedCalls_app, IH. unfold toolEvents.
  destruct (handles handler OnToolStart), (handles handler OnToolEnd); reflexivity.
Qed.

Lemma requestedCalls_textEvents handler events :
  requestedCalls (textEvents (Schema := Schema) handler events) = [].
Proof.
  unfold textEvents. destruct (handles handler OnText); [|done].
  induction (streamedTexts events) as [|t ts IH]; [done|apply IH].
Qed.

Lemma executedCalls_textEvents handler events :
  executedCalls (textEvents (Schema := Schema) handler events) = [].
Proof. unfold executedCalls. by rewrite toolRuns_textEvents. Qed.

Lemma runLoop_executes_requested (rt : Rt) cfg reg fuel (c : Ctx) w (tr : Trace) :
  executedCalls tr = requestedCalls tr ->
  executedCalls (runLoop rt fuel cfg reg c w tr).2
    = requestedCalls (runLoop rt fuel cfg reg c w tr).2.
Proof.
  intros Htr.
  apply (runLoop_rule rt cfg reg
           (fun _ _ tr => executedCalls tr = requestedCalls tr)
           (fun out => executedCalls out.2 = requestedCalls out.2));
    [done| |exact Htr].
  clear. intros c w tr' HI. apply (runLoop_one rt cfg reg c w tr'); try done.
  - intros err w1 _ _ _. cbn [snd]. by rewrite executedCalls_app, requestedCalls_app, HI.
  - intros resp w1 _ _ _ Htcs c1. cbn [snd].
    rewrite executedCalls_app, requestedCalls_app, HI. cbn.
    by rewrite Htcs.
  - intros resp w1 _ _ _ _ answers. unfold iterationBlock.
    rewrite executedCalls_app, requestedCalls_app, HI. f_equal.
    change (requestedCalls (TrComplete ?r (Success resp) :: ?l))
      with (resp_ToolCalls resp ++ requestedCalls l).
    rewrite requestedCalls_tools, app_nil_r.
    change (executedCalls (TrComplete ?r ?a :: ?l)) with (executedCalls l).
    unfold executedCalls. rewrite toolRuns_tools by apply toolAnswers_length.
    apply fst_zip_same_length, toolAnswers_length.
Qed.

Lemma runStreamLoop_executes_requested (rt : Rt) completeStream handler cfg reg fuel
    (c : Ctx) w (tr : Trace) :
  executedCalls tr = requestedCalls tr ->
  executedCalls (runStreamLoop rt completeStream handler fuel cfg reg c w tr).2
    = requestedCalls (runStreamLoop rt completeStream handler fuel cfg reg c w tr).2.
Proof.
  intros Htr.
  apply (runStreamLoop_rule rt completeStream handler cfg reg
           (fun _ _ tr => executedCalls tr = requestedCalls tr)
           (fun out => executedCalls out.2 = requestedCalls out.2));
    [done| |exact Htr].
  clear. intros c w tr' HI.
  apply (runStreamLoop_one rt completeStream handler cfg reg c w tr'); try done.
  - intros err w1 _ _ _. cbn [snd]. by rewrite executedCalls_app, requestedCalls_app, HI.
  - intros events w1 err _ _ _ Hfail. cbn [snd].
    rewrite executedCalls_app, requestedCalls_app, HI. f_equal.
    change (executedCalls (TrCompleteStream ?r ?a :: ?l)) with (executedCalls l).
    change (requestedCalls (TrCompleteStream ?r (Success events) :: ?l))
      with (requestedBy (TrCompleteStream r (Success events)) ++ requestedCalls l).
    cbn [requestedBy]. rewrite Hfail.
    by rewrite executedCalls_textEvents, requestedCalls_textEvents.
  - intros events w1 _ _ _ Hfail Htcs resp c1. cbn [snd].
    rewrite executedCalls_app, requestedCalls_app, HI. f_equal.
    change (executedCalls (TrCompleteStream ?r ?a :: ?l)) with (executedCalls l).
    change (requestedCalls (TrCompleteStream ?r (Success events) :: ?l))
      with (requestedBy (TrCompleteStream r (Success events)) ++ requestedCalls l).
    cbn [requestedBy]. rewrite Hfail.
    change (completedCalls events) with (resp_ToolCalls (streamResponse events)).
    rewrite Htcs, !executedCalls_app, !requestedCalls_app.
    rewrite executedCalls_textEvents, requestedCalls_textEvents.
    unfold usageEvents, doneEvents.
    by destruct (handles handler OnUsage), (handles handler OnDone).
  - intros events w1 _ _ _ Hfail Htcs resp answers. cbn [snd].
    rewrite executedCalls_app, requestedCalls_app, HI. f_equal.
    change (executedCalls (TrCompleteStream ?r ?a :: ?l)) with (executedCalls l).
    change (requestedCalls (TrCompleteStream ?r (Success events) :: ?l))
      with (requestedBy (TrCompleteStream r (Success events)) ++ requestedCalls l).
    cbn [requestedBy]. rewrite Hfail.
    change (completedCalls events) with (resp_ToolCalls resp).
    rewrite !executedCalls_app, !requestedCalls_app.
    rewrite executedCalls_textEvents, requestedCalls_textEvents, requestedCalls_toolEvents.
    unfold executedCalls at 2. rewrite toolRuns_toolEvents by apply toolAnswers_length.
    rewrite fst_zip_same_length by apply toolAnswers_length.
    unfold usageEvents. destruct (handles handler OnUsage); cbn; by rewrite ?app_nil_r.
Qed.

(** Every tool call a completion asks for is executed, once, in the order
    the provider gave them, and no other tool call is: the calls executed
    over a turn are the calls of its responses (for a stream, the calls it
    completes when it holds no error event), one after the other.  This
    holds however the turn ends. *)
Theorem tool_calls_executed_as_requested (rt : Rt) (fuel : nat)
    (a : @Agent.Agent World Args Schema Any) (w : World) (userMessage : string)
    (handler : option StreamHandler) :
  executedCalls (Run rt fuel a w userMessage).2
    = requestedCalls (Run rt fuel a w userMessage).2
  /\ executedCalls (RunStream rt fuel a w userMessage handler).2
     = requestedCalls (RunStream rt fuel a w userMessage handler).2.
Proof.
  assert (Hrun : executedCalls (Run rt fuel a w userMessage).2
                 = requestedCalls (Run rt fuel a w userMessage).2).
  { unfold Run.
    pose proof (runLoop_executes_requested rt (config a) (registry a) fuel
                  (AddUserMessage (ctx a) userMessage) w [] eq_refl) as H.
    by destruct (runLoop rt fuel (config a) (registry a)
                   (AddUserMessage (ctx a) userMessage) w []) as [[[s c] w'] tr]. }
  split; [exact Hrun|].
  unfold RunStream. destruct (provider_CompleteStream rt) as [completeStream|].
  - pose proof (runStreamLoop_executes_requested rt completeStream handler
                  (config a) (registry a) fuel
                  (AddUserMessage (ctx a) userMessage) w [] eq_refl) as H.
    by destruct (runStreamLoop rt completeStream handler fuel (config a) (registry a)
                   (AddUserMessage (ctx a) userMessage) w []) as [[[s c] w'] tr].
  - destruct (Run rt fuel a w userMessage) as [[[s a'] w'] tr]. cbn [snd] in Hrun.
    destruct s as [content [err|]|]; cbn [snd]; try done.
    rewrite !notify_app, !executedCalls_app, !requestedCalls_app, Hrun.
    by destruct (handles handler OnText), (handles handler OnDone).
Qed.

End ToolsAndCeiling.

Section Ceiling.
Import Llm Agent.

Context {World Args Schema Any : Type}.

Abbreviation Ctx := (@Agent.Context Any).
Abbreviation Trace := (list (@TraceEvent Schema)).
Abbreviation Rt := (@Runtime World Args Schema).

(** The max-iterations error is only ever reported with an empty content,
    for the configured ceiling, and when that ceiling is positive and the
    counter of the context has reached it. *)
Definition reportsCeiling (cfg : Config) (status : LoopStatus) (c : Ctx) : Prop :=
  forall content limit,
    status = Returned content (Some (ErrMaxIterations limit)) ->
    content = "" /\ limit = MaxIterations cfg
    /\ 0 < MaxIterations cfg <= IterationCount c.

Lemma runLoop_ceiling (rt : Rt) cfg reg fuel (c : Ctx) w (tr : Trace) :
  let out := runLoop rt fuel cfg reg c w tr in
  reportsCeiling cfg out.1.1.1 out.1.1.2.
Proof.
  cbv zeta.
  apply (runLoop_rule rt cfg reg (fun _ _ _ => True)
           (fun out => reportsCeiling cfg out.1.1.1 out.1.1.2)); [done| |done].
  clear. intros c w tr _. apply (runLoop_one rt cfg reg c w tr); try done.
  intros Hlim content limit Heq. injection Heq as <- <-. unfold limitReached in Hlim.
  apply andb_true_iff in Hlim as [Hpos Hle].
  apply Z.ltb_lt in Hpos. apply Z.leb_le in Hle. done.
Qed.

Lemma statusAgrees_ceiling cfg streamed plain (c : Ctx) :
  statusAgrees streamed plain -> reportsCeiling cfg plain c -> reportsCeiling cfg streamed c.
Proof.
  intros [-> | (err & -> & ->)] H; [done|]. intros content limit [=].
Qed.

(** [Run] and [RunStream] return the max-iterations error only when the
    configured ceiling is positive and the iteration counter of the
    conversation has reached it; the error names the configured ceiling
    and comes with an empty content.  So with [MaxIterations <= 0] the
    error is never returned: only the provider, the caller's context or a
    final answer end the loop. *)
Theorem max_iterations_error_only_at_the_ceiling (rt : Rt) (fuel : nat)
    (a : @Agent.Agent World Args Schema Any) (w : World) (userMessage : string)
    (handler : option StreamHandler) :
  reportsCeiling (config a) (Run rt fuel a w userMessage).1.1.1
    (ctx (Run rt fuel a w userMessage).1.1.2)
  /\ reportsCeiling (config a) (RunStream rt fuel a w userMessage handler).1.1.1
       (ctx (RunStream rt fuel a w userMessage handler).1.1.2).
Proof.
  assert (Hrun : forall rt' : Rt,
            reportsCeiling (config a) (Run rt' fuel a w userMessage).1.1.1
              (ctx (Run rt' fuel a w userMessage).1.1.2)).
  { intros rt'. unfold Run.
    pose proof (runLoop_ceiling rt' (config a) (registry a) fuel
                  (AddUserMessage (ctx a) userMessage) w []) as H.
    by destruct (runLoop rt' fuel (config a) (registry a)
                   (AddUserMessage (ctx a) userMessage) w []) as [[[s c] w'] tr]. }
  split; [apply Hrun|].
  destruct (provider_CompleteStream rt) as [completeStream|] eqn:Hsome.
  - unfold RunStream. rewrite Hsome.
    pose proof (runStreamLoop_in_step (Any := Any) rt completeStream handler
                  (config a) (registry a) fuel
                  (AddUserMessage (ctx a) userMessage) w [] [] eq_refl eq_refl) as H.
    pose proof (runLoop_ceiling (notStreaming rt completeStream)
                  (config a) (registry a) fuel
                  (AddUserMessage (ctx a) userMessage) w []) as Hp.
    cbv zeta in H, Hp.
    destruct (runStreamLoop rt completeStream handler fuel (config a) (registry a)
                (AddUserMessage (ctx a) userMessage) w []) as [[[s1 c1] w1] tr1].
    destruct (runLoop (notStreaming rt completeStream) fuel (config a) (registry a)
                (AddUserMessage (ctx a) userMessage) w []) as [[[s2 c2] w2] tr2].
    cbn [fst snd ctx] in *. destruct H as (Hs & -> & _).
    by apply (statusAgrees_ceiling _ _ _ _ Hs).
  - specialize (Hrun rt). unfold RunStream. rewrite Hsome.
    destruct (Run rt fuel a w userMessage) as [[[s a'] w'] tr].
    by destruct s as [c0 [err|]|].
Qed.

End Ceiling.

(** ** The last assistant message *)

Section LastAssistant.
Import Llm Agent.

Context {World Args Schema Any : Type}.

Abbreviation Ctx := (@Agent.Context Any).
Abbreviation Trace := (list (@TraceEvent Schema)).
Abbreviation Rt := (@Runtime World Args Schema).

Lemma isAssistant_spec m : isAssistant m = true <-> msg_Role m = RoleAssistant.
Proof. unfold isAssistant. by destruct (msg_Role m). Qed.

Lemma lastAssistantFrom_spec msgs (n : nat) :
  match lastAssistantFrom msgs n with
  | Some (i, m) =>
      (i < n)%nat /\ msgs !! i = Some m /\ msg_Role m = RoleAssistant
      /\ forall j m', (i < j < n)%nat -> msgs !! j = Some m' -> msg_Role m' <> RoleAssistant
  | None =>
      (n <= length msgs)%nat ->
      forall j m', (j < n)%nat -> msgs !! j = Some m' -> msg_Role m' <> RoleAssistant
  end.
Proof.
  induction n as [|n IH]; cbn [lastAssistantFrom].
  - intros _ j m' Hj. lia.
  - destruct (msgs !! n) as [m|] eqn:Hn.
    + destruct (isAssistant m) eqn:Hm.
      * split; [lia|]. split; [done|]. split; [by apply isAssistant_spec|].
        intros j m' Hj. lia.
      * assert (Hnot : msg_Role m <> RoleAssistant).
        { intros E. apply isAssistant_spec in E. congruence. }
        destruct (lastAssistantFrom msgs n) as [[i m0]|].
        -- destruct IH as (Hi & Hlook & Hrole & Hlater).
           split; [lia|]. split; [done|]. split; [done|].
           intros j m' Hj Hj'. destruct (decide (j = n)) as [->|Hne].
           ++ congruence.
           ++ apply (Hlater j m'); [lia|done].
        -- intros Hlen j m' Hj Hj'. destruct (decide (j = n)) as [->|Hne].
           ++ congruence.
           ++ apply (IH ltac:(lia) j m'); [lia|done].
    + intros Hlen. apply lookup_ge_None in Hn. lia.
Qed.

(** [GetLastAssistantMessage] points at the assistant message of highest
    index in the history, and returns nil exactly when the history holds
    no assistant message. *)
Theorem GetLastAssistantMessage_spec (c : Ctx) :
  match GetLastAssistantMessage c with
  | Some (i, m) =>
      Messages c !! i = Some m /\ msg_Role m = RoleAssistant
      /\ forall j m', (i < j)%nat -> Messages c !! j = Some m' ->
                      msg_Role m' <> RoleAssistant
  | None => forall m, m ∈ Messages c -> msg_Role m <> RoleAssistant
  end.
Proof.
  unfold GetLastAssistantMessage.
  pose proof (lastAssistantFrom_spec (Messages c) (length (Messages c))) as H.
  destruct (lastAssistantFrom (Messages c) (length (Messages c))) as [[i m]|].
  - destruct H as (Hi & Hlook & Hrole & Hlater). split; [done|]. split; [done|].
    intros j m' Hj Hj'. apply (Hlater j m'); [|done].
    apply lookup_lt_Some in Hj'. lia.
  - intros m Hm. apply list_elem_of_lookup in Hm as [j Hj].
    apply (H ltac:(lia) j m); [|done]. by apply lookup_lt_Some in Hj.
Qed.

Lemma lastAssistantFrom_snoc msgs m :
  msg_Role m = RoleAssistant ->
  lastAssistantFrom (msgs ++ [m]) (length (msgs ++ [m])) = Some (length msgs, m).
Proof.
  intros Hm. rewrite length_app. cbn [length]. rewrite Nat.add_1_r.
  cbn [lastAssistantFrom]. rewrite lookup_app_r by lia.
  rewrite Nat.sub_diag. cbn. unfold isAssistant. by rewrite Hm.
Qed.

Lemma turnOf_answer (a : @Agent.Agent World Args Schema Any) userMessage
    (out : LoopStatus * @Agent.Agent World Args Schema Any * World * Trace) content :
  turnOf a userMessage out -> content <> "" -> out.1.1.1 = Returned content None ->
  exists before, Messages (ctx out.1.1.2) = before ++ [NewAssistantMessage content]
                 /\ GetLastAssistantMessage (ctx out.1.1.2)
                    = Some (length before, NewAssistantMessage content).
Proof.
  intros (_ & _ & _ & rounds & _ & Hm) Hne Hs. rewrite Hs in Hm. cbn in Hm.
  assert (Hnon : nonEmptyContent content = true).
  { unfold nonEmptyContent. apply negb_true_iff, String.eqb_neq. done. }
  rewrite Hnon in Hm.
  exists (Messages (ctx a) ++ NewUserMessage userMessage :: rounds).
  unfold GetLastAssistantMessage. rewrite Hm.
  replace (Messages (ctx a) ++ NewUserMessage userMessage :: rounds ++ [NewAssistantMessage content])
    with ((Messages (ctx a) ++ NewUserMessage userMessage :: rounds) ++ [NewAssistantMessage content])
    by (by rewrite <- app_assoc).
  split; [done|]. by apply lastAssistantFrom_snoc.
Qed.

(** After a turn that succeeds with a non-empty answer, the answer is the
    last message of the history, and it is the message
    [GetLastAssistantMessage] returns: an assistant message whose content
    is the string [Run] (or [RunStream]) returned and that holds no tool
    call. *)
Theorem answer_is_last_assistant_message (rt : Rt) (fuel : nat)
    (a : @Agent.Agent World Args Schema Any) (w : World) (userMessage : string)
    (handler : option StreamHandler) (content : string) :
  content <> "" ->
  ((Run rt fuel a w userMessage).1.1.1 = Returned content None ->
   exists before,
     Messages (ctx (Run rt fuel a w userMessage).1.1.2)
       = before ++ [NewAssistantMessage content]
     /\ GetLastAssistantMessage (ctx (Run rt fuel a w userMessage).1.1.2)
        = Some (length before, NewAssistantMessage content))
  /\ ((RunStream rt fuel a w userMessage handler).1.1.1 = Returned content None ->
      exists before,
        Messages (ctx (RunStream rt fuel a w userMessage handler).1.1.2)
          = before ++ [NewAssistantMessage content]
        /\ GetLastAssistantMessage (ctx (RunStream rt fuel a w userMessage handler).1.1.2)
           = Some (length before, NewAssistantMessage content)).
Proof.
  intros Hne. split; intros Hs.
  - by apply (turnOf_answer a userMessage _ content (Run_turn rt fuel a w userMessage)).
  - by apply (turnOf_answer a userMessage _ content
                (RunStream_turn rt fuel a w userMessage handler)).
Qed.

End LastAssistant.

(** ** Token accounting *)

Section Usage.
Import Llm Agent.

Context {World Args Schema Any : Type}.

Abbreviation Ctx := (@Agent.Context Any).
Abbreviation Trace := (list (@TraceEvent Schema)).
Abbreviation Rt := (@Runtime World Args Schema).

(** The usage a completion reports: that of the response, or that of the
    last done event of a stream without error event. *)
Definition usageOf (e : @TraceEvent Schema) : option Usage :=
  match e with
  | TrComplete _ (Success resp) => Some (resp_Usage resp)
  | TrCompleteStream _ (Success events) =>
      match streamError events with
      | None => Some (resp_Usage (streamResponse events))
      | Some _ => None
      end
  | _ => None
  end.

Definition usages (tr : Trace) : list Usage := omap usageOf tr.

Definition inputSum (us : list Usage) : Z :=
  fold_right (fun u acc => InputTokens u + acc) 0 us.

Definition outputSum (us : list Usage) : Z :=
  fold_right (fun u acc => OutputTokens u + acc) 0 us.

(** The counters of [c] are those of [c0] plus what the trace reports. *)
Definition accounted (c0 c : Ctx) (tr : Trace) : Prop :=
  TotalInputTokens c = int64_wrap (TotalInputTokens c0 + inputSum (usages tr))
  /\ TotalOutputTokens c = int64_wrap (TotalOutputTokens c0 + outputSum (usages tr)).

Lemma int64_wrap_add (z1 z2 : Z) : int64_wrap (int64_wrap z1 + z2) = int64_wrap (z1 + z2).
Proof.
  unfold int64_wrap.
  replace ((z1 + 2 ^ 63) mod 2 ^ 64 - 2 ^ 63 + z2 + 2 ^ 63)
    with ((z1 + 2 ^ 63) mod 2 ^ 64 + z2) by lia.
  rewrite Z.add_mod_idemp_l by lia. f_equal. f_equal. lia.
Qed.

Lemma usages_app (tr1 tr2 : Trace) : usages (tr1 ++ tr2) = usages tr1 ++ usages tr2.
Proof. apply omap_app. Qed.

Lemma inputSum_snoc us u : inputSum (us ++ [u]) = inputSum us + InputTokens u.
Proof. induction us as [|v us IH]; cbn; [lia|]. fold (inputSum (us ++ [u])). rewrite IH. cbn. fold (inputSum us). lia. Qed.

Lemma outputSum_snoc us u : outputSum (us ++ [u]) = outputSum us + OutputTokens u.
Proof. induction us as [|v us IH]; cbn; [lia|]. fold (outputSum (us ++ [u])). rewrite IH. cbn. fold (outputSum us). lia. Qed.

(** Progress entries report no usage. *)
Lemma usages_progress (tr : Trace) : Forall isProgress tr -> usages tr = [].
Proof.
  induction 1 as [|e tr He _ IH]; [done|].
  destruct e; try done; apply IH.
Qed.

Lemma progress_tools tcs answers :
  Forall isProgress (zip_with (@TrExecuteTool Schema) tcs answers).
Proof.
  revert answers. induction tcs as [|tc rest IH]; intros [|a answers];
    cbn; constructor; [done|apply IH].
Qed.

Lemma progress_textEvents handler events :
  Forall isProgress (textEvents (Schema := Schema) handler events).
Proof.
  unfold textEvents. destruct (handles handler OnText); [|constructor].
  induction (streamedTexts events) as [|t ts IH]; cbn; constructor; [done|apply IH].
Qed.

Lemma progress_usageEvents handler usage :
  Forall isProgress (usageEvents (Schema := Schema) handler usage).
Proof. unfold usageEvents. destruct (handles handler OnUsage); repeat constructor. Qed.

Lemma progress_doneEvents handler : Forall isProgress (doneEvents (Schema := Schema) handler).
Proof. unfold doneEvents. destruct (handles handler OnDone); repeat constructor. Qed.

Lemma progress_toolEvents handler tcs answers :
  Forall isProgress (concat (zip_with (toolEvents (Schema := Schema) handler) tcs answers)).
Proof.
  revert answers. induction tcs as [|tc rest IH]; intros [|a answers];
    cbn [zip_with concat]; try constructor.
  apply Forall_app. split; [|apply IH]. unfold toolEvents.
  destruct (handles handler OnToolStart), (handles handler OnToolEnd); repeat constructor.
Qed.

Lemma accounted_step (c0 c : Ctx) (tr : Trace) e u (rest : Trace) (c' : Ctx) :
  accounted c0 c tr -> usageOf e = Some u -> Forall isProgress rest ->
  TotalInputTokens c' = int64_wrap (TotalInputTokens c + InputTokens u) ->
  TotalOutputTokens c' = int64_wrap (TotalOutputTokens c + OutputTokens u) ->
  accounted c0 c' (tr ++ e :: rest).
Proof.
  intros [Hin Hout] He Hrest Hin' Hout'. unfold accounted.
  replace (usages (tr ++ e :: rest)) with (usages tr ++ [u]).
  2:{ rewrite usages_app. f_equal. change (usages (e :: rest)) with
        (match usageOf e with Some u => u :: usages rest | None => usages rest end).
      by rewrite He, (usages_progress rest Hrest). }
  rewrite inputSum_snoc, outputSum_snoc, Hin', Hout', Hin, Hout, !int64_wrap_add.
  split; f_equal; lia.
Qed.

Lemma accounted_skip (c0 c : Ctx) (tr : Trace) e (rest : Trace) (c' : Ctx) :
  accounted c0 c tr -> usageOf e = None -> Forall isProgress rest ->
  TotalInputTokens c' = TotalInputTokens c ->
  TotalOutputTokens c' = TotalOutputTokens c ->
  accounted c0 c' (tr ++ e :: rest).
Proof.
  intros [Hin Hout] He Hrest Hin' Hout'. unfold accounted.
  replace (usages (tr ++ e :: rest)) with (usages tr).
  2:{ rewrite usages_app. change (usages (e :: rest)) with
        (match usageOf e with Some u => u :: usages rest | None => usages rest end).
      by rewrite He, (usages_progress rest Hrest), app_nil_r. }
  by rewrite Hin', Hout'.
Qed.

Lemma runLoop_accounted (rt : Rt) cfg reg fuel (c0 c : Ctx) w (tr : Trace) :
  accounted c0 c tr ->
  let out := runLoop rt fuel cfg reg c w tr in accounted c0 out.1.1.2 out.2.
Proof.
  intros Hacc. cbv zeta.
  apply (runLoop_rule rt cfg reg (fun c _ tr => accounted c0 c tr)
           (fun out => accounted c0 out.1.1.2 out.2)); [done| |exact Hacc].
  clear. intros c w tr HI. apply (runLoop_one rt cfg reg c w tr); try done.
  - intros err w1 _ _ _. by apply (accounted_skip c0 c).
  - intros resp w1 _ _ _ _ c1.
    apply (accounted_step c0 c tr _ (resp_Usage resp)); try done.
    + by destruct (nonEmptyContent (resp_Content resp)).
    + by destruct (nonEmptyContent (resp_Content resp)).
  - intros resp w1 _ _ _ _ answers.
    apply (accounted_step c0 c tr _ (resp_Usage resp)); try done.
    apply progress_tools.
Qed.

Lemma runStreamLoop_accounted (rt : Rt) completeStream handler cfg reg fuel
    (c0 c : Ctx) w (tr : Trace) :
  accounted c0 c tr ->
  let out := runStreamLoop rt completeStream handler fuel cfg reg c w tr in
  accounted c0 out.1.1.2 out.2.
Proof.
  intros Hacc. cbv zeta.
  apply (runStreamLoop_rule rt completeStream handler cfg reg
           (fun c _ tr => accounted c0 c tr)
           (fun out => accounted c0 out.1.1.2 out.2)); [done| |exact Hacc].
  clear. intros c w tr HI.
  apply (runStreamLoop_one rt completeStream handler cfg reg c w tr); try done.
  - intros err w1 _ _ _. by apply (accounted_skip c0 c).
  - intros events w1 err _ _ _ Hfail.
    apply (accounted_skip c0 c); try done.
    + cbn. by rewrite Hfail.
    + apply progress_textEvents.
  - intros events w1 _ _ _ Hfail _ resp c1.
    apply (accounted_step c0 c tr _ (resp_Usage resp)); try done.
    + cbn. by rewrite Hfail.
    + repeat (apply Forall_app; split);
        auto using progress_textEvents, progress_usageEvents, progress_doneEvents.
    + by destruct (nonEmptyContent (resp_Content resp)).
    + by destruct (nonEmptyContent (resp_Content resp)).
  - intros events w1 _ _ _ Hfail _ resp answers.
    apply (accounted_step c0 c tr _ (resp_Usage resp)); try done.
    + cbn. by rewrite Hfail.
    + repeat (apply Forall_app; split);
        auto using progress_textEvents, progress_usageEvents, progress_toolEvents.
Qed.

(** The cumulative token counters after a turn are the counters before it
    plus the usage of every completion of the turn that succeeded (for a
    stream: that held no error event; its usage is that of its last done
    event), with 64-bit wrap-around; a failed request, a stream cut by an
    error event and the tool calls add nothing.  This holds however the
    turn ends. *)
Theorem usage_is_accumulated (rt : Rt) (fuel : nat)
    (a : @Agent.Agent World Args Schema Any) (w : World) (userMessage : string)
    (handler : option StreamHandler) :
  int64_range (TotalInputTokens (ctx a)) ->
  int64_range (TotalOutputTokens (ctx a)) ->
  accounted (ctx a) (ctx (Run rt fuel a w userMessage).1.1.2) (Run rt fuel a w userMessage).2
  /\ accounted (ctx a) (ctx (RunStream rt fuel a w userMessage handler).1.1.2)
       (RunStream rt fuel a w userMessage handler).2.
Proof.
  intros Hin Hout.
  assert (H0 : accounted (ctx a) (AddUserMessage (ctx a) userMessage) ([] : Trace)).
  { split; cbn; rewrite Z.add_0_r; symmetry; by apply int64_wrap_id. }
  assert (Hrun : accounted (ctx a) (ctx (Run rt fuel a w userMessage).1.1.2)
                   (Run rt fuel a w userMessage).2).
  { unfold Run.
    pose proof (runLoop_accounted rt (config a) (registry a) fuel (ctx a) _ w [] H0) as H.
    cbv zeta in H.
    by destruct (runLoop rt fuel (config a) (registry a)
                   (AddUserMessage (ctx a) userMessage) w []) as [[[s c] w'] tr]. }
  split; [exact Hrun|].
  unfold RunStream. destruct (provider_CompleteStream rt) as [completeStream|].
  - pose proof (runStreamLoop_accounted rt completeStream handler (config a) (registry a)
                  fuel (ctx a) _ w [] H0) as H.
    cbv zeta in H.
    by destruct (runStreamLoop rt completeStream handler fuel (config a) (registry a)
                   (AddUserMessage (ctx a) userMessage) w []) as [[[s c] w'] tr].
  - destruct (Run rt fuel a w userMessage) as [[[s a'] w'] tr]. cbn [fst snd] in Hrun.
    destruct s as [content [err|]|]; cbn [fst snd]; try done.
    rewrite !notify_app. destruct Hrun as [H1 H2]. unfold accounted.
    rewrite !usages_app.
    rewrite (usages_progress (if handles handler OnText then _ else _))
      by (destruct (handles handler OnText); repeat constructor).
    rewrite (usages_progress (if handles handler OnDone then _ else _))
      by (destruct (handles handler OnDone); repeat constructor).
    by rewrite !app_nil_r.
Qed.

End Usage.

(** ** What the stream handler is told *)

Section Handler.
Import Llm Agent.

Context {World Args Schema Any : Type}.

Abbreviation Ctx := (@Agent.Context Any).
Abbreviation Trace := (list (@TraceEvent Schema)).
Abbreviation Rt := (@Runtime World Args Schema).
Abbreviation Outcome := (LoopStatus * Ctx * World * Trace)%type.

Definition isRequest (e : @TraceEvent Schema) : bool :=
  match e with
  | TrComplete _ _ | TrCompleteStream _ _ => true
  | _ => false
  end.

(** The part of the trace that follows the last completion request. *)
Definition sinceLastRequest (tr : Trace) : Trace :=
  fold_left (fun acc e => if isRequest e then [] else acc ++ [e]) tr [].

(** The arguments of the calls of [OnText], [OnToolStart] and
    [OnToolEnd], and the number of calls of [OnDone]. *)
Definition reportedTexts (tr : Trace) : list string :=
  omap (fun e => match e with TrOnText text => Some text | _ => None end) tr.

Definition toolStarts (tr : Trace) : list ToolCall :=
  omap (fun e => match e with TrOnToolStart tc => Some tc | _ => None end) tr.

Definition toolEnds (tr : Trace) : list (ToolCall * string * option string) :=
  omap (fun e => match e with
                 | TrOnToolEnd tc res err => Some (tc, res, err)
                 | _ => None
                 end) tr.

Definition doneCalls (tr : Trace) : nat :=
  length (omap (fun e => match e with TrOnDone => Some tt | _ => None end) tr).

(** What [OnToolEnd] is given for a tool call and its answer. *)
Definition endOf (run : ToolCall * result string) : ToolCall * string * option string :=
  (run.1, toolResultText run.2,
   match run.2 with Failure err => Some err | Success _ => None end).

(** The trace holds no call of the handler. *)
Definition silent (tr : Trace) : Prop :=
  reportedTexts tr = [] /\ toolStarts tr = [] /\ toolEnds tr = [] /\ doneCalls tr = 0%nat.

Lemma fold_progress (tail acc : Trace) :
  Forall isProgress tail ->
  fold_left (fun acc e => if isRequest e then [] else acc ++ [e]) tail acc = acc ++ tail.
Proof.
  intros H. revert acc. induction H as [|e tail He _ IH]; intros acc; cbn.
  - by rewrite app_nil_r.
  - destruct e; try done; cbn; rewrite IH, <- app_assoc; done.
Qed.

Lemma sinceLastRequest_last (tr : Trace) e (tail : Trace) :
  isRequest e = true -> Forall isProgress tail ->
  sinceLastRequest (tr ++ e :: tail) = tail.
Proof.
  intros He Htail. unfold sinceLastRequest. rewrite fold_left_app. cbn [fold_left].
  rewrite He. by rewrite fold_progress.
Qed.

Lemma reportedTexts_app (tr1 tr2 : Trace) :
  reportedTexts (tr1 ++ tr2) = reportedTexts tr1 ++ reportedTexts tr2.
Proof. apply omap_app. Qed.

Lemma toolStarts_app (tr1 tr2 : Trace) : toolStarts (tr1 ++ tr2) = toolStarts tr1 ++ toolStarts tr2.
Proof. apply omap_app. Qed.

Lemma toolEnds_app (tr1 tr2 : Trace) : toolEnds (tr1 ++ tr2) = toolEnds tr1 ++ toolEnds tr2.
Proof. apply omap_app. Qed.

Lemma doneCalls_app (tr1 tr2 : Trace) : doneCalls (tr1 ++ tr2) = (doneCalls tr1 + doneCalls tr2)%nat.
Proof. unfold doneCalls. by rewrite omap_app, length_app. Qed.

Lemma reportedTexts_textEvents handler events :
  handles handler OnText = true ->
  reportedTexts (textEvents (Schema := Schema) handler events) = streamedTexts events.
Proof.
  intros H. unfold textEvents. rewrite H.
  induction (streamedTexts events) as [|t ts IH]; [done|]. cbn. f_equal. apply IH.
Qed.

Lemma textEvents_quiet handler events :
  toolStarts (textEvents (Schema := Schema) handler events) = []
  /\ toolEnds (textEvents (Schema := Schema) handler events) = []
  /\ doneCalls (textEvents (Schema := Schema) handler events) = 0%nat.
Proof.
  unfold textEvents. destruct (handles handler OnText); [|done].
  induction (streamedTexts events) as [|t ts IH]; [done|apply IH].
Qed.

Lemma usageEvents_quiet handler usage :
  reportedTexts (usageEvents (Schema := Schema) handler usage) = []
  /\ toolStarts (usageEvents (Schema := Schema) handler usage) = []
  /\ toolEnds (usageEvents (Schema := Schema) handler usage) = []
  /\ doneCalls (usageEvents (Schema := Schema) handler usage) = 0%nat.
Proof. unfold usageEvents. by destruct (handles handler OnUsage). Qed.

Lemma toolEvents_told handler tcs answers :
  length answers = length tcs ->
  let tr := concat (zip_with (toolEvents (Schema := Schema) handler) tcs answers) in
  reportedTexts tr = [] /\ doneCalls tr = 0%nat
  /\ toolStarts tr = (if handles handler OnToolStart then tcs else [])
  /\ toolEnds tr = (if handles handler OnToolEnd then map endOf (zip tcs answers) else []).
Proof.
  revert answers. induction tcs as [|tc rest IH]; intros [|a answers] Hlen; try done.
  - cbn. by destruct (handles handler OnToolStart), (handles handler OnToolEnd).
  - cbn in Hlen. destruct (IH answers ltac:(lia)) as (H1 & H2 & H3 & H4).
    cbn [zip_with concat]. cbv zeta.
    rewrite reportedTexts_app, doneCalls_app, toolStarts_app, toolEnds_app, H1, H2, H3, H4.
    unfold toolEvents.
    destruct (handles handler OnToolStart), (handles handler OnToolEnd); done.
Qed.

(** [Run] never calls a handler. *)
Lemma runLoop_silent (rt : Rt) cfg reg fuel (c : Ctx) w (tr : Trace) :
  silent tr -> silent (runLoop rt fuel cfg reg c w tr).2.
Proof.
  intros Htr.
  apply (runLoop_rule rt cfg reg (fun _ _ tr => silent tr) (fun out => silent out.2));
    [done| |exact Htr].
  clear. intros c w tr (H1 & H2 & H3 & H4).
  assert (Hsnoc : forall e, isRequest e = true -> silent (tr ++ [e])).
  { intros e He. unfold silent.
    rewrite reportedTexts_app, toolStarts_app, toolEnds_app, doneCalls_app, H1, H2, H3, H4.
    by destruct e. }
  apply (runLoop_one rt cfg reg c w tr); try done.
  - intros err w1 _ _ _. by apply Hsnoc.
  - intros resp w1 _ _ _ _ c1. by apply Hsnoc.
  - intros resp w1 _ _ _ _ answers. unfold silent, iterationBlock.
    rewrite reportedTexts_app, toolStarts_app, toolEnds_app, doneCalls_app, H1, H2, H3, H4.
    cbn [app].
    change (reportedTexts (TrComplete ?r ?a :: ?l)) with (reportedTexts l).
    change (toolStarts (TrComplete ?r ?a :: ?l)) with (toolStarts l).
    change (toolEnds (TrComplete ?r ?a :: ?l)) with (toolEnds l).
    change (doneCalls (TrComplete ?r ?a :: ?l)) with (doneCalls l).
    generalize (resp_ToolCalls resp) answers. clear.
    induction l as [|tc tcs IH]; intros [|a answers]; try done. apply IH.
Qed.

(** A successful [Run] ends with the completion that gave the answer. *)
Lemma runLoop_answer (rt : Rt) cfg reg fuel (c : Ctx) w (tr : Trace) content :
  (runLoop rt fuel cfg reg c w tr).1.1.1 = Returned content None ->
  exists tr0 e, (runLoop rt fuel cfg reg c w tr).2 = tr0 ++ [e] /\ isRequest e = true.
Proof.
  apply (runLoop_rule rt cfg reg (fun _ _ _ => True)
           (fun out => out.1.1.1 = Returned content None ->
                       exists tr0 e, out.2 = tr0 ++ [e] /\ isRequest e = true));
    [done| |done].
  clear. intros c w tr _. apply (runLoop_one rt cfg reg c w tr); try done.
  intros resp w1 _ _ _ _ c1 _. by eexists _, _.
Qed.

(** What the passes of [RunStream] that come back to the top of the loop
    keep, and what the returning pass gives. *)
Definition told (handler : option StreamHandler) (tr : Trace) : Prop :=
  doneCalls tr = 0%nat
  /\ toolStarts tr = (if handles handler OnToolStart then executedCalls tr else [])
  /\ toolEnds tr = (if handles handler OnToolEnd then map endOf (toolRuns tr) else []).

Definition toldAtReturn (handler : option StreamHandler) (out : Outcome) : Prop :=
  toolStarts out.2 = (if handles handler OnToolStart then executedCalls out.2 else [])
  /\ toolEnds out.2 = (if handles handler OnToolEnd then map endOf (toolRuns out.2) else [])
  /\ match out.1.1.1 with
     | Returned content None =>
         (exists tr0, out.2 = tr0 ++ doneEvents handler /\ doneCalls tr0 = 0%nat)
         /\ (handles handler OnText = true ->
             joinTexts (reportedTexts (sinceLastRequest out.2)) = content)
     | _ => doneCalls out.2 = 0%nat
     end.

Lemma told_extend handler (tr : Trace) e (tail : Trace) :
  told handler tr -> isRequest e = true ->
  doneCalls tail = 0%nat ->
  toolStarts tail = (if handles handler OnToolStart then executedCalls tail else []) ->
  toolEnds tail = (if handles handler OnToolEnd then map endOf (toolRuns tail) else []) ->
  told handler (tr ++ e :: tail).
Proof.
  intros (H1 & H2 & H3) He Hd Hs Hn. unfold told, executedCalls.
  rewrite doneCalls_app, toolStarts_app, toolEnds_app, toolRuns_app, H1, H2, H3.
  change (e :: tail) with ([e] ++ tail).
  rewrite doneCalls_app, toolStarts_app, toolEnds_app, toolRuns_app, Hd, Hs, Hn.
  unfold executedCalls. rewrite !map_app.
  destruct e; try done;
    destruct (handles handler OnToolStart), (handles handler OnToolEnd); done.
Qed.

Lemma runStreamLoop_told (rt : Rt) completeStream handler cfg reg fuel (c : Ctx) w :
  toldAtReturn handler (runStreamLoop rt completeStream handler fuel cfg reg c w []).
Proof.
  apply (runStreamLoop_rule rt completeStream handler cfg reg
           (fun _ _ tr => told handler tr) (toldAtReturn handler)).
  - intros c' w' tr (H1 & H2 & H3). done.
  - clear. intros c w tr HI. pose proof HI as (H1 & H2 & H3).
    apply (runStreamLoop_one rt completeStream handler cfg reg c w tr); try done.
    + intros err w1 _ _ _.
      destruct (told_extend handler tr (TrCompleteStream
                  (buildRequest rt cfg reg (incrIteration c)) (Failure err)) []
                  HI eq_refl eq_refl) as (Hd & Hs & He).
      * by destruct (handles handler OnToolStart).
      * by destruct (handles handler OnToolEnd).
      * done.
    + intros events w1 err _ _ _ _.
      destruct (textEvents_quiet handler events) as (T1 & T2 & T3).
      destruct (told_extend handler tr (TrCompleteStream
                  (buildRequest rt cfg reg (incrIteration c)) (Success events))
                  (textEvents handler events) HI eq_refl T3) as (Hd & Hs & He).
      * rewrite T1. unfold executedCalls. rewrite toolRuns_textEvents.
        by destruct (handles handler OnToolStart).
      * rewrite T2, toolRuns_textEvents. by destruct (handles handler OnToolEnd).
      * done.
    + intros events w1 _ _ _ _ _ resp c1.
      destruct (textEvents_quiet handler events) as (T1 & T2 & T3).
      destruct (usageEvents_quiet handler (resp_Usage resp)) as (U0 & U1 & U2 & U3).
      set (tail := (textEvents handler events ++ usageEvents handler (resp_Usage resp) : Trace)).
      assert (Htail : told handler
                (tr ++ TrCompleteStream (buildRequest rt cfg reg (incrIteration c))
                         (Success events) :: tail)).
      { apply told_extend; try done; unfold tail.
        - by rewrite doneCalls_app, T3, U3.
        - rewrite toolStarts_app, T1, U1. unfold executedCalls, usageEvents.
          rewrite toolRuns_app, toolRuns_textEvents.
          by destruct (handles handler OnToolStart), (handles handler OnUsage).
        - rewrite toolEnds_app, T2, U2. unfold usageEvents.
          rewrite toolRuns_app, toolRuns_textEvents.
          by destruct (handles handler OnToolEnd), (handles handler OnUsage). }
      destruct Htail as (Hd & Hs & He). unfold toldAtReturn. cbn [fst snd].
      replace (tr ++ TrCompleteStream (buildRequest rt cfg reg (incrIteration c))
                       (Success events)
                  :: textEvents handler events ++
                     usageEvents handler (resp_Usage resp) ++ doneEvents handler)
        with ((tr ++ TrCompleteStream (buildRequest rt cfg reg (incrIteration c))
                       (Success events) :: tail) ++ doneEvents handler)
        by (unfold tail; rewrite <- app_assoc; cbn [app]; by rewrite <- app_assoc).
      split; [|split; [|split]].
      * rewrite toolStarts_app, Hs. unfold executedCalls, doneEvents.
        rewrite !toolRuns_app, !map_app.
        destruct (handles handler OnToolStart), (handles handler OnDone);
          cbn; by rewrite ?app_nil_r.
      * rewrite toolEnds_app, He. unfold doneEvents. rewrite !toolRuns_app, !map_app.
        destruct (handles handler OnToolEnd), (handles handler OnDone);
          cbn; by rewrite ?app_nil_r.
      * eexists. split; [reflexivity|exact Hd].
      * intros Htext. rewrite <- app_assoc. cbn [app].
        rewrite sinceLastRequest_last; [|done|].
        2:{ unfold tail. repeat (apply Forall_app; split);
              auto using progress_textEvents, progress_usageEvents, progress_doneEvents. }
        unfold tail. rewrite !reportedTexts_app, reportedTexts_textEvents, U0 by done.
        replace (reportedTexts (doneEvents handler)) with (@nil string)
          by (unfold doneEvents; by destruct (handles handler OnDone)).
        by rewrite !app_nil_r.
    + intros events w1 _ _ _ _ _ resp answers.
      destruct (textEvents_quiet handler events) as (T1 & T2 & T3).
      destruct (usageEvents_quiet handler (resp_Usage resp)) as (U0 & U1 & U2 & U3).
      destruct (toolEvents_told handler (resp_ToolCalls resp) answers
                  (toolAnswers_length rt reg _ _)) as (E0 & E1 & E2 & E3).
      apply told_extend; try done.
      * by rewrite !doneCalls_app, T3, U3, E1.
      * rewrite !toolStarts_app, T1, U1, E2. unfold executedCalls.
        rewrite !toolRuns_app, toolRuns_textEvents, toolRuns_toolEvents
          by apply toolAnswers_length.
        unfold usageEvents.
        destruct (handles handler OnToolStart), (handles handler OnUsage); cbn;
          rewrite ?fst_zip_same_length by apply toolAnswers_length; done.
      * rewrite !toolEnds_app, T2, U2, E3.
        rewrite !toolRuns_app, toolRuns_textEvents, toolRuns_toolEvents
          by apply toolAnswers_length.
        unfold usageEvents.
        by destruct (handles handler OnToolEnd), (handles handler OnUsage).
  - unfold told, executedCalls. cbn.
    by destruct (handles handler OnToolStart), (handles handler OnToolEnd).
Qed.

End Handler.

Section HandlerTheorems.
Import Llm Agent.

Context {World Args Schema Any : Type}.

Abbreviation Rt := (@Runtime World Args Schema).
Abbreviation Trace := (list (@TraceEvent Schema)).
Abbreviation AgentT := (@Agent.Agent World Args Schema Any).

(** The streaming path of [RunStream]. *)
Lemma RunStream_told (rt : Rt) fuel (a : AgentT) w userMessage handler completeStream :
  provider_CompleteStream rt = Some completeStream ->
  let out := RunStream rt fuel a w userMessage handler in
  toolStarts out.2 = (if handles handler OnToolStart then executedCalls out.2 else [])
  /\ toolEnds out.2 = (if handles handler OnToolEnd then map endOf (toolRuns out.2) else [])
  /\ match out.1.1.1 with
     | Returned content None =>
         (exists tr0, out.2 = tr0 ++ doneEvents handler /\ doneCalls tr0 = 0%nat)
         /\ (handles handler OnText = true ->
             joinTexts (reportedTexts (sinceLastRequest out.2)) = content)
     | _ => doneCalls out.2 = 0%nat
     end.
Proof.
  intros Hsome. cbv zeta. unfold RunStream. rewrite Hsome.
  pose proof (runStreamLoop_told (Any := Any) rt completeStream handler
                (config a) (registry a) fuel (AddUserMessage (ctx a) userMessage) w) as H.
  unfold toldAtReturn in H.
  by destruct (runStreamLoop rt completeStream handler fuel (config a) (registry a)
                 (AddUserMessage (ctx a) userMessage) w []) as [[[s c] w'] tr].
Qed.

(** The fall-back path: [Run], then one call of [OnText] with the whole
    answer and one of [OnDone] when the turn succeeded. *)
Lemma RunStream_fallback (rt : Rt) fuel (a : AgentT) w userMessage handler :
  provider_CompleteStream rt = None ->
  let out := RunStream rt fuel a w userMessage handler in
  toolStarts out.2 = [] /\ toolEnds out.2 = []
  /\ match out.1.1.1 with
     | Returned content None =>
         (exists tr0, out.2 = tr0 ++ doneEvents handler /\ doneCalls tr0 = 0%nat)
         /\ (handles handler OnText = true ->
             joinTexts (reportedTexts (sinceLastRequest out.2)) = content)
     | _ => doneCalls out.2 = 0%nat
     end.
Proof.
  intros Hnone. cbv zeta. unfold RunStream, Run. rewrite Hnone.
  pose proof (runLoop_silent (Any := Any) rt (config a) (registry a) fuel
                (AddUserMessage (ctx a) userMessage) w []
                (conj eq_refl (conj eq_refl (conj eq_refl eq_refl)))) as Hsilent.
  pose proof (runLoop_answer (Any := Any) rt (config a) (registry a) fuel
                (AddUserMessage (ctx a) userMessage) w []) as Hanswer.
  destruct (runLoop rt fuel (config a) (registry a)
              (AddUserMessage (ctx a) userMessage) w []) as [[[s c] w'] tr].
  cbn [fst snd] in *. destruct Hsilent as (S1 & S2 & S3 & S4).
  destruct s as [content [err|]|]; cbn [fst snd]; try done.
  rewrite !notify_app. fold (doneEvents (Schema := Schema) handler).
  rewrite !toolStarts_app, !toolEnds_app, S2, S3.
  assert (Hd : forall f, doneCalls (Schema := Schema)
                           (if handles handler f then [TrOnText content] else [])
                         = 0%nat) by (intros f; by destruct (handles handler f)).
  split; [unfold doneEvents; by destruct (handles handler OnText), (handles handler OnDone)|].
  split; [unfold doneEvents; by destruct (handles handler OnText), (handles handler OnDone)|].
  split.
  - eexists. split; [reflexivity|]. by rewrite doneCalls_app, S4, Hd.
  - intros Htext. rewrite Htext.
    destruct (Hanswer content eq_refl) as (tr0 & e & -> & He).
    rewrite <- !app_assoc. cbn [app].
    rewrite sinceLastRequest_last; [|done|].
    2:{ constructor; [done|apply progress_doneEvents]. }
    change (reportedTexts (TrOnText content :: ?l)) with (content :: reportedTexts l).
    replace (reportedTexts (doneEvents (Schema := Schema) handler)) with (@nil string)
      by (unfold doneEvents; by destruct (handles handler OnDone)).
    cbn. apply append_nil_r.
Qed.

(** When [RunStream] succeeds, the string it returns is the concatenation
    of the fragments it handed to [OnText] since its last completion
    request: the text events of the last stream, in order, or the whole
    answer in one call when the provider does not stream. *)
Theorem RunStream_content_is_streamed_text (rt : Rt) (fuel : nat) (a : AgentT) (w : World)
    (userMessage : string) (handler : option StreamHandler) (content : string) :
  handles handler OnText = true ->
  (RunStream rt fuel a w userMessage handler).1.1.1 = Returned content None ->
  joinTexts (reportedTexts (sinceLastRequest (RunStream rt fuel a w userMessage handler).2))
    = content.
Proof.
  intros Htext Hs. destruct (provider_CompleteStream rt) as [completeStream|] eqn:Hsome.
  - pose proof (RunStream_told rt fuel a w userMessage handler completeStream Hsome) as H.
    cbv zeta in H. rewrite Hs in H. destruct H as (_ & _ & _ & H). by apply H.
  - pose proof (RunStream_fallback rt fuel a w userMessage handler Hsome) as H.
    cbv zeta in H. rewrite Hs in H. destruct H as (_ & _ & _ & H). by apply H.
Qed.

(** [OnDone] is called exactly when [RunStream] succeeds: once, as the
    last thing [RunStream] does.  It is not called when [RunStream]
    returns an error. *)
Theorem RunStream_calls_OnDone_on_success (rt : Rt) (fuel : nat) (a : AgentT) (w : World)
    (userMessage : string) (handler : option StreamHandler) :
  handles handler OnDone = true ->
  match (RunStream rt fuel a w userMessage handler).1.1.1 with
  | Returned _ None =>
      exists tr0, (RunStream rt fuel a w userMessage handler).2 = tr0 ++ [TrOnDone]
                  /\ doneCalls tr0 = 0%nat
  | _ => doneCalls (RunStream rt fuel a w userMessage handler).2 = 0%nat
  end.
Proof.
  intros Hdone.
  assert (H : match (RunStream rt fuel a w userMessage handler).1.1.1 with
              | Returned content None =>
                  (exists tr0, (RunStream rt fuel a w userMessage handler).2
                                 = tr0 ++ doneEvents handler /\ doneCalls tr0 = 0%nat)
                  /\ (handles handler OnText = true ->
                      joinTexts (reportedTexts (sinceLastRequest
                                   (RunStream rt fuel a w userMessage handler).2)) = content)
              | _ => doneCalls (RunStream rt fuel a w userMessage handler).2 = 0%nat
              end).
  { destruct (provider_CompleteStream rt) as [completeStream|] eqn:Hsome.
    - apply (RunStream_told rt fuel a w userMessage handler completeStream Hsome).
    - apply (RunStream_fallback rt fuel a w userMessage handler Hsome). }
  destruct ((RunStream rt fuel a w userMessage handler).1.1.1) as [content [err|]|];
    try done.
  destruct H as [(tr0 & Htr & H0) _]. exists tr0. split; [|done].
  rewrite Htr. unfold doneEvents. by rewrite Hdone.
Qed.

(** With a streaming provider the handler is told of every tool call that
    is executed, in order: [OnToolStart] gets the call, [OnToolEnd] the
    call, the text that goes into the history and the error, if any.  When
    [RunStream] falls back to [Run] the tools are executed without a word
    to the handler. *)
Theorem RunStream_reports_tool_calls (rt : Rt) (fuel : nat) (a : AgentT) (w : World)
    (userMessage : string) (handler : option StreamHandler) :
  let tr := (RunStream rt fuel a w userMessage handler).2 in
  (forall completeStream,
     provider_CompleteStream rt = Some completeStream ->
     (handles handler OnToolStart = true -> toolStarts tr = executedCalls tr)
     /\ (handles handler OnToolEnd = true -> toolEnds tr = map endOf (toolRuns tr)))
  /\ (provider_CompleteStream rt = None -> toolStarts tr = [] /\ toolEnds tr = []).
Proof.
  cbv zeta. split.
  - intros completeStream Hsome.
    pose proof (RunStream_told rt fuel a w userMessage handler completeStream Hsome) as H.
    cbv zeta in H. destruct H as (Hs & He & _). split; intros Hh; by rewrite Hh in *.
  - intros Hnone.
    pose proof (RunStream_fallback rt fuel a w userMessage handler Hnone) as H.
    cbv zeta in H. by destruct H as (Hs & He & _).
Qed.

End HandlerTheorems.

(** ** The turn of the concrete agent

    The provider of [Demo.helpful] asks for the unknown tool [nope], sees
    the error and answers [hello]: two completion requests, one tool call,
    a history of four messages. *)

Lemma RunStream_agrees_with_Run_witness :
  let s := Agent.RunStream (Demo.helpful true) 5 (Demo.agentWithLimit 5) tt "hi"
             Demo.fullHandler in
  let p := Agent.Run (notStreaming (Demo.helpful true) Demo.helpfulStream) 5
             (Demo.agentWithLimit 5) tt "hi" in
  streamResponse Demo.alwaysNopeStream =
    {| Llm.resp_Content := "Let me check."; Llm.resp_ToolCalls := [Demo.nopeCall];
       Llm.resp_StopReason := "";
       Llm.resp_Usage := {| Llm.InputTokens := 10; Llm.OutputTokens := 5 |} |}
  /\ s.1.1.1 = Agent.Returned "hello" None /\ s.1.1.2 = p.1.1.2
  /\ length (Agent.Messages (Agent.ctx s.1.1.2)) = 4%nat
  /\ Agent.TotalInputTokens (Agent.ctx p.1.1.2) = 17
  /\ toolRuns s.2 = [(Demo.nopeCall, Agent.Failure "unknown tool: nope")]
  /\ toolRuns p.2 = [(Demo.nopeCall, Agent.Failure "unknown tool: nope")].
Proof.
  cbv zeta.
  destruct (RunStream_agrees_with_Run (Demo.helpful true) (Demo.agentWithLimit 5) tt "hi"
              Demo.fullHandler 5 Demo.helpfulStream eq_refl) as (_ & Hctx & _ & _ & Hruns).
  split; [vm_compute; reflexivity|]. split; [vm_compute; reflexivity|].
  split; [exact Hctx|]. split; [vm_compute; reflexivity|].
  split; [rewrite <- Hctx; vm_compute; reflexivity|].
  split; [vm_compute; reflexivity|]. rewrite <- Hruns. vm_compute. reflexivity.
Defined.

(** The streamed turn runs the one call its first stream completes. *)
Lemma tool_calls_executed_as_requested_witness :
  let out := Agent.RunStream (Demo.helpful true) 5 (Demo.agentWithLimit 5) tt "hi"
               Demo.fullHandler in
  requestedCalls out.2 = [Demo.nopeCall] /\ executedCalls out.2 = [Demo.nopeCall].
Proof.
  cbv zeta.
  destruct (tool_calls_executed_as_requested (Demo.helpful true) 5 (Demo.agentWithLimit 5)
              tt "hi" Demo.fullHandler) as [_ Hstream].
  rewrite Hstream. split; vm_compute; reflexivity.
Defined.

Lemma answer_is_last_assistant_message_witness :
  Agent.GetLastAssistantMessage
    (Agent.ctx (Agent.Run (Demo.helpful false) 5 (Demo.agentWithLimit 5) tt "hi").1.1.2)
  = Some (3%nat, Llm.NewAssistantMessage "hello").
Proof.
  destruct (answer_is_last_assistant_message (Demo.helpful false) 5 (Demo.agentWithLimit 5)
              tt "hi" None "hello") as [Hrun _]; [discriminate|].
  destruct (Hrun eq_refl) as (before & Hm & Hlast).
  rewrite Hlast. f_equal. f_equal.
  assert (Hlen : length (Agent.Messages (Agent.ctx
                   (Agent.Run (Demo.helpful false) 5 (Demo.agentWithLimit 5) tt "hi").1.1.2))
                 = 4%nat) by (vm_compute; reflexivity).
  rewrite Hm, length_app in Hlen. cbn [length] in Hlen. lia.
Defined.

(** The streamed turn: the done events of its two streams report 10 and 5,
    then 7 and 2 tokens. *)
Lemma usage_is_accumulated_witness :
  let out := Agent.RunStream (Demo.helpful true) 5 (Demo.agentWithLimit 5) tt "hi"
               Demo.fullHandler in
  usages out.2 = [{| Llm.InputTokens := 10; Llm.OutputTokens := 5 |};
                  {| Llm.InputTokens := 7; Llm.OutputTokens := 2 |}]
  /\ Agent.TotalInputTokens (Agent.ctx out.1.1.2) = 17
  /\ Agent.TotalOutputTokens (Agent.ctx out.1.1.2) = 7.
Proof.
  cbv zeta.
  destruct (usage_is_accumulated (Demo.helpful true) 5 (Demo.agentWithLimit 5) tt "hi"
              Demo.fullHandler)
    as [_ [Hin Hout]].
  - unfold int64_range. cbn. lia.
  - unfold int64_range. cbn. lia.
  - split; [vm_compute; reflexivity|]. rewrite Hin, Hout. split; vm_compute; reflexivity.
Defined.

Lemma RunStream_content_is_streamed_text_witness :
  let out := Agent.RunStream (Demo.helpful true) 5 (Demo.agentWithLimit 5) tt "hi"
               Demo.fullHandler in
  reportedTexts out.2 = ["Let me check."; "hel"; "lo"]
  /\ reportedTexts (sinceLastRequest out.2) = ["hel"; "lo"]
  /\ joinTexts (reportedTexts (sinceLastRequest out.2)) = "hello".
Proof.
  cbv zeta. split; [vm_compute; reflexivity|]. split; [vm_compute; reflexivity|].
  apply (RunStream_content_is_streamed_text (Demo.helpful true) 5 (Demo.agentWithLimit 5)
           tt "hi" Demo.fullHandler "hello"); vm_compute; reflexivity.
Defined.

Lemma RunStream_calls_OnDone_on_success_witness :
  exists tr0,
    (Agent.RunStream (Demo.helpful true) 5 (Demo.agentWithLimit 5) tt "hi"
       Demo.fullHandler).2 = tr0 ++ [Agent.TrOnDone]
    /\ doneCalls tr0 = 0%nat.
Proof.
  pose proof (RunStream_calls_OnDone_on_success (Demo.helpful true) 5
                (Demo.agentWithLimit 5) tt "hi" Demo.fullHandler eq_refl) as H.
  exact H.
Defined.

(** * Further properties of the sandbox *)

(** ** What a run leaves on the host *)

Section SandboxEffects.
Import Sandbox.

Variable h : Host.
Variable cfg : Config.

(** The text written to the temporary file, its name pattern, and the log
    before the command is run. *)
Definition scriptPattern (interpreter : string) : string :=
  "looper-script-*" +:+ scriptExt interpreter.

Definition scriptLog (interpreter script tmpPath : string) : list Effect :=
  [EffCreateTemp tmpPath; EffWriteFile tmpPath (scriptBody h interpreter script)]
  ++ (if isShell interpreter then [EffChmod tmpPath] else []).

(** The ways through [ExecuteScript]. *)
Lemma ExecuteScript_cases (interpreter script : string) :
  let out := ExecuteScript h cfg interpreter script in
  (exists err, checkBlacklist h cfg script = Some err /\ out = (Err err, []))
  \/ (exists cause,
        checkBlacklist h cfg script = None /\
        os_CreateTemp h (os_TempDir h) (scriptPattern interpreter) = inl cause /\
        out = (Err (ErrCreateTemp cause), []))
  \/ (exists tmpPath cause,
        checkBlacklist h cfg script = None /\
        os_CreateTemp h (os_TempDir h) (scriptPattern interpreter) = inr tmpPath /\
        file_WriteString h tmpPath (scriptBody h interpreter script) = Some cause /\
        out = (Err (ErrWriteScript cause), [EffCreateTemp tmpPath; EffRemove tmpPath]))
  \/ (exists tmpPath,
        checkBlacklist h cfg script = None /\
        os_CreateTemp h (os_TempDir h) (scriptPattern interpreter) = inr tmpPath /\
        file_WriteString h tmpPath (scriptBody h interpreter script) = None /\
        let ran := runCommand h cfg (scriptLog interpreter script tmpPath)
                     (scriptCmd interpreter tmpPath (applyTimeout cfg)) in
        out = (ran.1, ran.2 ++ [EffRemove tmpPath])).
Proof.
  cbv zeta. unfold ExecuteScript, scriptPattern.
  destruct (checkBlacklist h cfg script) as [err|]; [left; eauto|]. right.
  destruct (os_CreateTemp h _ _) as [cause|tmpPath]; [left; eauto|]. right.
  fold (scriptBody h interpreter script).
  destruct (file_WriteString h tmpPath _) as [cause|] eqn:Hw.
  - left. exists tmpPath, cause. done.
  - right. exists tmpPath. repeat split; try done.
    change (([EffCreateTemp tmpPath] ++ [EffWriteFile tmpPath (scriptBody h interpreter script)]))
      with [EffCreateTemp tmpPath; EffWriteFile tmpPath (scriptBody h interpreter script)].
    replace (if isShell interpreter
             then [EffCreateTemp tmpPath; EffWriteFile tmpPath (scriptBody h interpreter script)]
                  ++ [EffChmod tmpPath]
             else [EffCreateTemp tmpPath; EffWriteFile tmpPath (scriptBody h interpreter script)])
      with (scriptLog interpreter script tmpPath)
      by (unfold scriptLog; by destruct (isShell interpreter)).
    by destruct (runCommand h cfg _ _).
Qed.

(** An effect that touches no file but [tmpPath], and neither creates
    nor removes one. *)
Definition within (tmpPath : string) (e : Effect) : Prop :=
  match e with
  | EffWriteFile path _ | EffChmod path => path = tmpPath
  | EffRun _ => True
  | EffCreateTemp _ | EffRemove _ => False
  end.

(** [ExecuteScript] removes the temporary file it created on every path,
    as the last thing it does, and touches no other file: its effects are
    none at all, or the creation of the file, then writes and mode changes
    of that file and at most the run of the command, then the removal of
    the file.  [Execute] touches no file: it starts at most one process. *)
Theorem ExecuteScript_removes_its_temporary_file (interpreter script : string) :
  ((ExecuteScript h cfg interpreter script).2 = []
   \/ exists tmpPath middle,
        (ExecuteScript h cfg interpreter script).2
          = EffCreateTemp tmpPath :: middle ++ [EffRemove tmpPath]
        /\ Forall (within tmpPath) middle)
  /\ (forall command args,
        (Execute h cfg command args).2 = []
        \/ exists cmd, (Execute h cfg command args).2 = [EffRun cmd]).
Proof.
  split.
  - destruct (ExecuteScript_cases interpreter script)
      as [(err & _ & ->)|[(cause & _ & _ & ->)|[(tmpPath & cause & _ & _ & _ & ->)
          |(tmpPath & _ & _ & _ & ->)]]]; try (by left).
    + right. exists tmpPath, []. done.
    + right. cbn [snd].
      destruct (runCommand_log h cfg (scriptLog interpreter script tmpPath)
                  (scriptCmd interpreter tmpPath (applyTimeout cfg)))
        as [(cause & _ & ->)|(absWorkDir & _ & ->)]; unfold scriptLog.
      * exists tmpPath,
          (EffWriteFile tmpPath (scriptBody h interpreter script)
           :: (if isShell interpreter then [EffChmod tmpPath] else [])).
        destruct (isShell interpreter); split; try reflexivity; repeat constructor.
      * exists tmpPath,
          (EffWriteFile tmpPath (scriptBody h interpreter script)
           :: (if isShell interpreter then [EffChmod tmpPath] else [])
              ++ [EffRun (preparedCmd h cfg (scriptCmd interpreter tmpPath (applyTimeout cfg))
                            absWorkDir)]).
        destruct (isShell interpreter); split; try reflexivity; repeat constructor.
  - intros command args. unfold Execute.
    destruct (checkBlacklist h cfg _); [by left|].
    destruct (runCommand_log h cfg [] {| Path := command; Args := args; Dir := ""; Env := [];
                                         Deadline := applyTimeout cfg |})
      as [(cause & _ & ->)|(absWorkDir & _ & ->)]; [by left|right; eauto].
Qed.






End SandboxEffects.

(** ** The output cap, as the caller sees it *)

Section CappedOutput.
Import LimitedWriter Sandbox.

Variable h : Host.
Variable cfg : Config.

Lemma length_string_of_list_byte (l : list byte) :
  String.length (string_of_list_byte l) = length l.
Proof.
  unfold string_of_list_byte. induction l as [|b l IH]; cbn; [done|by rewrite IH].
Qed.

Lemma captureStream_first_bytes (cap : Z) (writes : list (list byte)) :
  0 <= cap -> int64_range cap ->
  captureStream cap writes = string_of_list_byte (take (Z.to_nat cap) (concat writes)).
Proof.
  intros Hcap Hrange. unfold captureStream.
  rewrite writeAll_captured by (cbn; auto).
  cbn [newCapture captured w buf_bytes limit written app]. do 2 f_equal. lia.
Qed.

(** What the child wrote, as [runCommand] reads it back. *)
Definition captures (ran : RunOutcome) (r : ExecutionResult) : Prop :=
  Stdout r = string_of_list_byte
               (take (Z.to_nat (MaxOutputBytes cfg)) (concat (stdout_writes ran)))
  /\ Stderr r = string_of_list_byte
                  (take (Z.to_nat (MaxOutputBytes cfg)) (concat (stderr_writes ran))).

Definition capped (r : ExecutionResult) : Prop :=
  Z.of_nat (String.length (Stdout r)) <= MaxOutputBytes cfg
  /\ Z.of_nat (String.length (Stderr r)) <= MaxOutputBytes cfg.

Lemma runCommand_captures (log : list Effect) (cmd : Cmd) (r : ExecutionResult) :
  0 <= MaxOutputBytes cfg -> int64_range (MaxOutputBytes cfg) ->
  (runCommand h cfg log cmd).1 = Ok r ->
  exists absWorkDir,
    filepath_Abs h (WorkingDir cfg) = inr absWorkDir
    /\ captures (cmd_Run h log (preparedCmd h cfg cmd absWorkDir)) r.
Proof.
  intros Hcap Hrange. unfold runCommand.
  destruct (filepath_Abs h (WorkingDir cfg)) as [cause|absWorkDir]; [done|].
  fold (preparedCmd h cfg cmd absWorkDir).
  set (ran := cmd_Run h log (preparedCmd h cfg cmd absWorkDir)).
  intros Hr. exists absWorkDir. split; [done|]. unfold captures.
  rewrite <- !captureStream_first_bytes by done.
  destruct (ctx_err ran), (run_err ran); cbn in Hr; try discriminate;
    injection Hr as <-; done.
Qed.

Lemma captures_capped (ran : RunOutcome) (r : ExecutionResult) :
  0 <= MaxOutputBytes cfg -> captures ran r -> capped r.
Proof.
  intros Hcap [Hout Herr]. unfold capped. rewrite Hout, Herr.
  rewrite !length_string_of_list_byte, !length_take. lia.
Qed.

(** With a cap [N = MaxOutputBytes] in the range of an [int64], the
    [Stdout] and the [Stderr] of every result are the first [N] bytes of
    what the child wrote to that stream, however the writes were chunked;
    so neither is ever longer than [N] bytes, for [Execute] and for
    [ExecuteScript] alike. *)
Theorem output_is_capped :
  0 <= MaxOutputBytes cfg -> int64_range (MaxOutputBytes cfg) ->
  (forall log cmd r,
     (runCommand h cfg log cmd).1 = Ok r ->
     exists absWorkDir,
       filepath_Abs h (WorkingDir cfg) = inr absWorkDir
       /\ captures (cmd_Run h log (preparedCmd h cfg cmd absWorkDir)) r)
  /\ (forall command args r, (Execute h cfg command args).1 = Ok r -> capped r)
  /\ (forall interpreter script r,
        (ExecuteScript h cfg interpreter script).1 = Ok r -> capped r).
Proof.
  intros Hcap Hrange. split; [intros log cmd r; by apply runCommand_captures|]. split.
  - intros command args r. unfold Execute.
    destruct (checkBlacklist h cfg _); [done|]. intros Hr.
    apply runCommand_captures in Hr as (absWorkDir & _ & Hr); try done.
    by apply captures_capped in Hr.
  - intros interpreter script r.
    destruct (ExecuteScript_cases h cfg interpreter script)
      as [(err & _ & ->)|[(cause & _ & _ & ->)|[(tmpPath & cause & _ & _ & _ & ->)
          |(tmpPath & _ & _ & _ & ->)]]]; try done.
    cbn [fst]. intros Hr.
    apply runCommand_captures in Hr as (absWorkDir & _ & Hr); try done.
    by apply captures_capped in Hr.
Qed.

End CappedOutput.

(** The child of [Demo.noisyHost] writes [hello world]; with a cap of
    eight bytes the caller gets [hello wo]. *)
Lemma output_is_capped_witness :
  let cfg := {| Sandbox.WorkingDir := "work"; Sandbox.Timeout := 0;
                Sandbox.AllowedEnv := []; Sandbox.CustomEnv := ∅;
                Sandbox.MaxOutputBytes := 8; Sandbox.CommandBlacklist := [] |} in
  (Sandbox.Execute Demo.noisyHost cfg "echo" ["hello world"]).1
    = Sandbox.Ok {| Sandbox.Stdout := "hello wo"; Sandbox.Stderr := "oops";
                    Sandbox.ExitCode := 3; Sandbox.Duration := 2000;
                    Sandbox.TimedOut := false |}
  /\ capped cfg {| Sandbox.Stdout := "hello wo"; Sandbox.Stderr := "oops";
                   Sandbox.ExitCode := 3; Sandbox.Duration := 2000;
                   Sandbox.TimedOut := false |}.
Proof.
  cbv zeta.
  assert (E : (Sandbox.Execute Demo.noisyHost
                 {| Sandbox.WorkingDir := "work"; Sandbox.Timeout := 0;
                    Sandbox.AllowedEnv := []; Sandbox.CustomEnv := ∅;
                    Sandbox.MaxOutputBytes := 8; Sandbox.CommandBlacklist := [] |}
                 "echo" ["hello world"]).1
              = Sandbox.Ok {| Sandbox.Stdout := "hello wo"; Sandbox.Stderr := "oops";
                              Sandbox.ExitCode := 3; Sandbox.Duration := 2000;
                              Sandbox.TimedOut := false |})
    by (vm_compute; reflexivity).
  split; [exact E|].
  destruct (output_is_capped Demo.noisyHost
              {| Sandbox.WorkingDir := "work"; Sandbox.Timeout := 0;
                 Sandbox.AllowedEnv := []; Sandbox.CustomEnv := ∅;
                 Sandbox.MaxOutputBytes := 8; Sandbox.CommandBlacklist := [] |})
    as (_ & Hexec & _).
  - cbn. lia.
  - unfold int64_range. cbn. lia.
  - exact (Hexec "echo" ["hello world"] _ E).
Defined.

(** ** The default deny-list *)

Section DefaultDenyList.
Import Sandbox.

Variable h : Host.

(** Lower-casing a default pattern leaves no run of white space in it:
    the pattern is its own normal form. *)
Lemma DefaultBlacklist_normal :
  Forall (fun P => collapseSpace (Demo.asciiToLower P) = Demo.asciiToLower P)
         DefaultBlacklist.
Proof. unfold DefaultBlacklist. repeat constructor. Qed.

(** For the patterns of the default deny-list the deny-list does what its
    strictest reading asks: a command line or a script whose lower-cased,
    whitespace-normalized text matches the lower-cased,
    whitespace-normalized pattern is answered with a blacklist error, and
    nothing is run.  The host's [strings.ToLower] is only asked to lower
    these ASCII patterns as ASCII. *)
Theorem default_deny_list_blocks_normalized_matches (workingDir P : string) :
  (forall Q, Q ∈ DefaultBlacklist -> strings_ToLower h Q = Demo.asciiToLower Q) ->
  P ∈ DefaultBlacklist ->
  (forall command args,
     denyListMatchNormalized h P (command +:+ " " +:+ String.concat " " args) ->
     exists P', P' ∈ DefaultBlacklist /\
       Execute h (DefaultConfig workingDir) command args = (Err (ErrBlacklisted P'), []))
  /\ (forall interpreter script,
        denyListMatchNormalized h P script ->
        exists P', P' ∈ DefaultBlacklist /\
          ExecuteScript h (DefaultConfig workingDir) interpreter script
            = (Err (ErrBlacklisted P'), [])).
Proof.
  intros Hlower HP.
  assert (Hsame : forall input, denyListMatchNormalized h P input -> denyListMatch h P input).
  { intros input. unfold denyListMatchNormalized, denyListMatch.
    rewrite (Hlower P HP).
    pose proof DefaultBlacklist_normal as Hn. rewrite Forall_forall in Hn.
    by rewrite (Hn P HP). }
  split.
  - intros command args Hm. apply Hsame in Hm.
    destruct (proj2 (checkBlacklist_spec h (DefaultConfig workingDir) _) P HP Hm)
      as (P' & HP' & Hcheck).
    exists P'. split; [done|]. by apply Execute_blacklisted.
  - intros interpreter script Hm. apply Hsame in Hm.
    destruct (proj2 (checkBlacklist_spec h (DefaultConfig workingDir) _) P HP Hm)
      as (P' & HP' & Hcheck).
    exists P'. split; [done|]. by apply ExecuteScript_blacklisted.
Qed.

End DefaultDenyList.

(** With the default configuration, [CURL -s http://x |  SH] is blocked by
    the pattern [curl * | sh]. *)
Lemma default_deny_list_blocks_normalized_matches_witness :
  exists P',
    Sandbox.Execute Demo.host (Sandbox.DefaultConfig ".") "CURL" ["-s"; "http://x"; "|"; " SH"]
    = (Sandbox.Err (Sandbox.ErrBlacklisted P'), []).
Proof.
  destruct (default_deny_list_blocks_normalized_matches Demo.host "." "curl * | sh")
    as [Hexec _].
  - intros Q _. reflexivity.
  - unfold Sandbox.DefaultBlacklist. rewrite !elem_of_cons. do 24 right. by left.
  - destruct (Hexec "CURL" ["-s"; "http://x"; "|"; " SH"]) as (P' & _ & HE).
    + exists "", "curl -s http://x | sh", "". split; [reflexivity|].
      do 5 (apply globMatch_byte; [discriminate|]).
      apply (globMatch_star _ "-s http://x" " | sh").
      do 5 (apply globMatch_byte; [discriminate|]). apply globMatch_nil.
    + exists P'. exact HE.
Defined.

(** * The tools that run code *)

Section CodeTools.
Import Agent.
Import Sandbox.
Import Tools.

Variable f : Fmt.
Variable h : Host.
Variable cfg : Sandbox.Config.

(** The command line the sandbox checks for the bash tool. *)
Definition bashLine (command : string) : string :=
  "bash" +:+ " " +:+ String.concat " " ["-c"; command].

(** The text of a blacklist error as the tools return it. *)
Definition blockedText (pattern : string) : string :=
  "execution failed: command blocked by blacklist: matches pattern "
  +:+ strconv_Quote f pattern.

Lemma asString_lookup (args : gmap string Value) (key s : string) :
  asString args key = (s, true) <-> args !! key = Some (VString s).
Proof.
  unfold asString. destruct (args !! key) as [[s'| | |]|]; split; try done.
  - by intros [= ->].
  - by intros [= ->].
Qed.

Lemma BashTool_Execute_command (args : gmap string Value) (command : string) :
  args !! "command" = Some (VString command) -> command <> "" ->
  BashTool_Execute f h cfg args =
    match Execute h cfg "bash" ["-c"; command] with
    | (Err err, log) => (Failure ("execution failed: " +:+ Error (strconv_Quote f) err), log)
    | (Ok result, log) => (Success (formatBash result), log)
    end.
Proof.
  intros Hargs Hne. unfold BashTool_Execute.
  apply asString_lookup in Hargs. rewrite Hargs.
  apply String.eqb_neq in Hne. by rewrite Hne.
Qed.




(** A bash command that a deny-list pattern matches (on the line
    [bash -c <command>], lower-cased and whitespace-normalized) never
    runs: the tool returns the blacklist error as its error, with no effect
    on the host; and the agent turns that into the tool-result message
    [Error: execution failed: command blocked by blacklist: matches
    pattern <quoted pattern>] for the call, leaving the world as it was. *)
Theorem bash_tool_reports_blocked_commands (P command : string)
    (args : gmap string Value) :
  P ∈ CommandBlacklist cfg ->
  denyListMatch h P (bashLine command) ->
  args !! "command" = Some (VString command) ->
  command <> "" ->
  exists P',
    P' ∈ CommandBlacklist cfg
    /\ BashTool_Execute f h cfg args = (Failure (blockedText P'), [])
    /\ forall (Schema : Type) (schema : Schema)
              (rt : @Runtime (list Effect) (gmap string Value) Schema)
              (reg : @Registry (list Effect) (gmap string Value) Schema)
              (tc : Llm.ToolCall) (w : list Effect),
         Get reg (Llm.Name tc) = Some (BashTool schema f h cfg) ->
         json_Unmarshal rt (Llm.Arguments tc) = Success args ->
         executeTool rt reg tc w = (Failure (blockedText P'), w)
         /\ resultMessage tc (executeTool rt reg tc w).1
            = Llm.NewToolResultMessage (Llm.ID tc) ("Error: " +:+ blockedText P').
Proof.
  intros HP Hm Hargs Hne.
  destruct (proj2 (checkBlacklist_spec h cfg _) P HP Hm) as (P' & HP' & Hcheck).
  assert (Htool : BashTool_Execute f h cfg args = (Failure (blockedText P'), [])).
  { rewrite (BashTool_Execute_command args command Hargs Hne).
    by rewrite (Execute_blacklisted h cfg "bash" ["-c"; command] _ Hcheck). }
  exists P'. split; [done|]. split; [done|].
  intros Schema schema rt reg tc w Hget Hjson.
  assert (E : executeTool rt reg tc w = (Failure (blockedText P'), w)).
  { unfold executeTool. rewrite Hget, Hjson. cbn [BashTool tool_Execute].
    rewrite Htool. by rewrite app_nil_r. }
  split; [exact E|]. by rewrite E.
Qed.


(** A bash command that runs into the deadline is not a tool error: the
    tool returns, as its result, a text that starts with the warning
    [Execution timed out] and ends with [Exit code: -1], whatever the
    child wrote and whatever [cmd.Run] returned. *)
Theorem bash_tool_reports_a_timeout_as_a_result (args : gmap string Value)
    (command absWorkDir : string) :
  args !! "command" = Some (VString command) ->
  command <> "" ->
  checkBlacklist h cfg (bashLine command) = None ->
  filepath_Abs h (WorkingDir cfg) = inr absWorkDir ->
  let cmd := {| Path := "bash"; Args := ["-c"; command]; Dir := absWorkDir;
                Env := buildEnvironment h cfg; Deadline := applyTimeout cfg |} in
  ctx_err (cmd_Run h [] cmd) = CtxDeadlineExceeded ->
  exists body,
    BashTool_Execute f h cfg args
      = (Success (timedOutWarning +:+ body +:+ nl +:+ "Exit code: -1"), [EffRun cmd]).
Proof.
  intros Hargs Hne Hcheck Habs cmd Hctx.
  rewrite (BashTool_Execute_command args command Hargs Hne).
  unfold Execute. fold (bashLine command). rewrite Hcheck.
  unfold runCommand. rewrite Habs. cbn [Path Args Deadline]. fold cmd.
  rewrite Hctx. cbn [app].
  set (out := captureStream (MaxOutputBytes cfg) (stdout_writes (cmd_Run h [] cmd))).
  set (err := captureStream (MaxOutputBytes cfg) (stderr_writes (cmd_Run h [] cmd))).
  unfold formatBash. cbn [TimedOut Stdout Stderr ExitCode].
  change (negb (-1 =? 0)) with true. change (formatInt (-1)) with "-1".
  rewrite append_nil_l.
  set (stdoutPart := if negb (String.eqb out "")
                     then if negb (HasSuffix out nl) then out +:+ nl else out
                     else "").
  set (stderrPart := if negb (String.eqb err "")
                     then nl +:+ "STDERR:" +:+ nl +:+ err else "").
  exists (stdoutPart +:+ stderrPart). f_equal. f_equal.
  assert (Hlen : forall s, (0 <? Z.of_nat (String.length (timedOutWarning +:+ s))) = true).
  { intros s. apply Z.ltb_lt. unfold timedOutWarning. rewrite !append_cons. cbn. lia. }
  unfold stdoutPart, stderrPart.
  destruct (String.eqb out ""), (String.eqb err ""); cbn [negb];
    try destruct (HasSuffix out nl); cbn [negb];
    rewrite ?Hlen, ?append_nil_r, ?append_assoc; try reflexivity.
  all: rewrite <- (append_nil_r timedOutWarning) at 1; rewrite Hlen;
    by rewrite ?append_nil_r, ?append_assoc.
Qed.

End CodeTools.

(** The bash tool of the concrete host, with the deny-list [rm -rf /]:
    the command [rm  -rf /tmp/x] is blocked. *)
Lemma bash_tool_reports_blocked_commands_witness :
  Tools.BashTool_Execute Demo.fmt Demo.host (Demo.configWith ["rm -rf /"])
    {[ "command" := Tools.VString "rm  -rf /tmp/x" ]}
  = (Agent.Failure ("execution failed: command blocked by blacklist: matches pattern "
                    +:+ dq +:+ "rm -rf /" +:+ dq), []).
Proof.
  destruct (bash_tool_reports_blocked_commands Demo.fmt Demo.host
              (Demo.configWith ["rm -rf /"]) "rm -rf /" "rm  -rf /tmp/x"
              {[ "command" := Tools.VString "rm  -rf /tmp/x" ]})
    as (P' & HP' & Htool & _).
  - apply elem_of_cons; by left.
  - exists "bash -c ", "rm -rf /", "tmp/x". split; [reflexivity|].
    repeat (apply globMatch_byte; [discriminate|]). apply globMatch_nil.
  - reflexivity.
  - discriminate.
  - cbn in HP'. apply list_elem_of_singleton in HP'. subst P'. exact Htool.
Defined.

(** The bash tool of the host whose child is killed by the deadline. *)
Lemma bash_tool_reports_a_timeout_as_a_result_witness :
  (Tools.BashTool_Execute Demo.fmt Demo.slowHost (Demo.configWith [])
     {[ "command" := Tools.VString "sleep 60" ]}).1
  = Agent.Success (Tools.timedOutWarning +:+ "partial" +:+ nl +:+ nl +:+ "Exit code: -1").
Proof.
  destruct (bash_tool_reports_a_timeout_as_a_result Demo.fmt Demo.slowHost
              (Demo.configWith []) {[ "command" := Tools.VString "sleep 60" ]}
              "sleep 60" "/srv/work")
    as (body & Htool);
    [reflexivity|discriminate|reflexivity|reflexivity|reflexivity|].
  vm_compute. reflexivity.
Defined.

(** * Choosing the deny-list *)

Section ChoosingTheDenyList.
Import Cli.

Variable h : Host.

(** A pattern [loadBlacklistFile] keeps: the trimmed text of a line,
    neither empty nor a comment. *)
Definition keptPattern (lines : list string) (P : string) : Prop :=
  P <> "" /\ Sandbox.HasPrefix P "#" = false
  /\ exists line, line ∈ lines /\ P = strings_TrimSpace h line.

(** The patterns of a file, in order. *)
Definition filePatterns (lines : list string) : list string :=
  List.filter (fun P => negb (String.eqb P "" || Sandbox.HasPrefix P "#"))
    (map (strings_TrimSpace h) lines).

Lemma collectPatterns_spec (lines : list string) (patterns : slice) :
  elements (collectPatterns h lines patterns) = elements patterns ++ filePatterns lines
  /\ (collectPatterns h lines patterns = None ->
      patterns = None /\ elements (collectPatterns h lines patterns) = []).
Proof.
  unfold filePatterns.
  revert patterns. induction lines as [|text rest IH]; intros patterns.
  - cbn. rewrite app_nil_r. split; [done|]. by intros ->.
  - cbn [collectPatterns map List.filter].
    destruct (String.eqb (strings_TrimSpace h text) "" ||
              Sandbox.HasPrefix (strings_TrimSpace h text) "#"); cbn [negb].
    + apply IH.
    + destruct (IH (append patterns (strings_TrimSpace h text))) as [IH1 IH2].
      split.
      * rewrite IH1. unfold append at 1. cbn [elements default]. unfold id.
        by rewrite <- app_assoc.
      * intros Hnone. by destruct (IH2 Hnone) as [? _].
Qed.

Lemma kept_filter (lines : list string) (P : string) :
  P ∈ filePatterns lines <-> keptPattern lines P.
Proof.
  unfold filePatterns. rewrite list_elem_of_In, filter_In, <- list_elem_of_In, list_elem_of_fmap.
  rewrite negb_true_iff, orb_false_iff, String.eqb_neq. unfold keptPattern.
  split.
  - intros [(line & -> & Hin) [Hne Hhash]]. eauto.
  - intros (Hne & Hhash & line & Hin & ->). eauto.
Qed.

(** The deny-list the sandbox of the agent gets from the two flags
    [-no-blacklist] and [-blacklist FILE].  With [-no-blacklist] it is
    empty, whatever the file holds.  Without it, and with a file that can
    be read, the deny-list is never empty: it is the list of the patterns
    of the file (the trimmed lines that are neither empty nor start with
    [#], in order) when there is at least one, and the default deny-list
    when the file holds none, since [loadBlacklistFile] then returns a nil
    slice, which [agent.New] takes for no setting.  With neither flag it is
    the default deny-list. *)
Theorem blacklist_file_never_disables_the_deny_list (disableBlacklist : bool)
    (blacklistFile : string) (config : BlacklistSettings) :
  applyFlags h disableBlacklist blacklistFile = Agent.Success config ->
  let effective := elements (sandboxBlacklist config) in
  (disableBlacklist = true -> effective = [])
  /\ (disableBlacklist = false -> blacklistFile = "" ->
      effective = Sandbox.DefaultBlacklist)
  /\ (disableBlacklist = false -> blacklistFile <> "" ->
      exists lines,
        scanFile h blacklistFile = Scanned lines None
        /\ effective <> []
        /\ (forall P, P ∈ filePatterns lines <-> keptPattern lines P)
        /\ effective = match filePatterns lines with
                       | [] => Sandbox.DefaultBlacklist
                       | patterns => patterns
                       end).
Proof.
  intros Hflags effective. subst effective.
  unfold applyFlags, loadBlacklistFile in Hflags.
  destruct (String.eqb_spec blacklistFile "") as [->|Hfile]; cbn [negb] in Hflags.
  - injection Hflags as <-. destruct disableBlacklist; cbn; repeat split; done.
  - destruct (scanFile h blacklistFile) as [err|lines [err|]] eqn:Hscan; try done.
    injection Hflags as <-.
    destruct (collectPatterns_spec lines None) as [Hel Hnone].
    cbn [elements default app] in Hel.
    split; [|split].
    + intros ->. reflexivity.
    + done.
    + intros -> _. exists lines. split; [done|].
      unfold sandboxBlacklist. cbn [DisableBlacklist CommandBlacklist defaultSettings].
      destruct (collectPatterns h lines None) as [patterns|] eqn:Hcollect.
      * cbn [elements default] in Hel |- *. unfold id in *.
        assert (Hne : patterns <> []).
        { clear -Hcollect. intros ->.
          assert (H : forall lines s, collectPatterns h lines s = Some [] -> s = Some []).
          { clear. induction lines as [|text rest IH]; intros s; cbn [collectPatterns];
              [done|].
            destruct (_ || _); [apply IH|]. intros Hc. apply IH in Hc.
            unfold append in Hc. injection Hc as Hc. by destruct (elements s). }
          by apply H in Hcollect. }
        subst patterns.
        split; [done|]. split; [intros P; apply kept_filter|].
        by destruct (filePatterns lines).
      * destruct (Hnone eq_refl) as [_ Hempty]. rewrite Hempty in Hel.
        cbn [elements default]. unfold id.
        split; [done|]. split; [intros P; apply kept_filter|]. by rewrite <- Hel.
Qed.

End ChoosingTheDenyList.

(** A file of comments and blank lines, and a file with two patterns. *)
Lemma blacklist_file_never_disables_the_deny_list_witness :
  let host := {| Cli.scanFile := fun path =>
                   if String.eqb path "empty.txt"
                   then Cli.Scanned ["# nothing here"; "   "; ""] None
                   else Cli.Scanned ["# mine"; "  make deploy "; ""; "git push*"] None;
                 Cli.strings_TrimSpace := Demo.asciiTrimSpace |} in
  (exists config, Cli.applyFlags host false "empty.txt" = Agent.Success config
                  /\ Cli.elements (Cli.sandboxBlacklist config) = Sandbox.DefaultBlacklist)
  /\ (exists config, Cli.applyFlags host false "mine.txt" = Agent.Success config
                     /\ Cli.elements (Cli.sandboxBlacklist config)
                        = ["make deploy"; "git push*"]).
Proof.
  cbv zeta. split.
  - eexists. split; [reflexivity|].
    match goal with |- Cli.elements (Cli.sandboxBlacklist ?c) = _ =>
      destruct (blacklist_file_never_disables_the_deny_list
                  {| Cli.scanFile := fun path =>
                       if String.eqb path "empty.txt"
                       then Cli.Scanned ["# nothing here"; "   "; ""] None
                       else Cli.Scanned ["# mine"; "  make deploy "; ""; "git push*"] None;
                     Cli.strings_TrimSpace := Demo.asciiTrimSpace |}
                  false "empty.txt" c eq_refl) as (_ & _ & Hfile)
    end.
    destruct (Hfile eq_refl ltac:(discriminate)) as (lines & Hscan & _ & _ & Heq).
    injection Hscan as <-. exact Heq.
  - eexists. split; [reflexivity|]. vm_compute. reflexivity.
Defined.

(** * Loading a skill from a string *)

Section SkillLoader.
Import Skills.

Variable h : Host.

Lemma Split_nonempty (s : string) : Split s <> [].
Proof.
  induction s as [|c s IH]; cbn; [done|].
  destruct (Ascii.eqb c newline); [done|]. by destruct (Split s).
Qed.

Lemma Split_cons (c : ascii) (s : string) :
  Ascii.eqb c newline = false ->
  exists line lines, Split s = line :: lines /\ Split (String c s) = String c line :: lines.
Proof.
  intros Hc. cbn. rewrite Hc. destruct (Split s) as [|line lines] eqn:E.
  - by apply Split_nonempty in E.
  - eauto.
Qed.

(** A line feed between two texts separates their lines. *)
Lemma Split_app (a b : string) : Split (a +:+ nl +:+ b) = Split a ++ Split b.
Proof.
  induction a as [|c a IH].
  - rewrite append_nil_l. reflexivity.
  - rewrite append_cons. destruct (Ascii.eqb c newline) eqn:Hc.
    + cbn [Split]. rewrite Hc, IH. reflexivity.
    + destruct (Split_cons c (a +:+ nl +:+ b) Hc) as (line & lines & E1 & ->).
      destruct (Split_cons c a Hc) as (line' & lines' & E2 & ->).
      rewrite IH, E2 in E1. injection E1 as <- <-. reflexivity.
Qed.

Lemma Split_line (a : string) : hasNewline a = false -> Split a = [a].
Proof.
  induction a as [|c a IH]; [done|]. cbn [hasNewline]. intros Hnl.
  apply orb_false_iff in Hnl as [Hc Hnl].
  destruct (Split_cons c a Hc) as (line & lines & E & ->).
  rewrite IH in E by done. by injection E as <- <-.
Qed.

Lemma Join_cons (line : string) (lines : list string) :
  lines <> [] -> Join (line :: lines) = line +:+ nl +:+ Join lines.
Proof. by destruct lines. Qed.

(** Joining the lines of a text gives the text back. *)
Lemma Join_Split (s : string) : Join (Split s) = s.
Proof.
  induction s as [|c s IH]; [done|].
  destruct (Ascii.eqb c newline) eqn:Hc.
  - cbn [Split]. rewrite Hc. rewrite Join_cons by apply Split_nonempty.
    rewrite IH. apply Ascii.eqb_eq in Hc as ->. reflexivity.
  - destruct (Split_cons c s Hc) as (line & lines & E & ->).
    rewrite E in IH. destruct lines as [|l ls].
    + cbn in *. by rewrite IH.
    + rewrite Join_cons in * by done. rewrite append_cons. by rewrite IH.
Qed.

Lemma findFence_found (i : Z) (before : list string) (fence : string) (after : list string) :
  Forall (fun line => isFence h line = false) before -> isFence h fence = true ->
  findFence h i (before ++ fence :: after) = i + len before.
Proof.
  intros Hbefore Hfence. revert i.
  induction Hbefore as [|line before Hline _ IH]; intros i; cbn [app findFence].
  - rewrite Hfence. unfold len. cbn. lia.
  - rewrite Hline, IH. unfold len. cbn [length]. lia.
Qed.

Lemma findFence_none (i : Z) (lines : list string) :
  0 <= i -> findFence h i lines = -1 <-> Forall (fun line => isFence h line = false) lines.
Proof.
  revert i. induction lines as [|line rest IH]; intros i Hi; cbn [findFence].
  - split; [constructor|done].
  - destruct (isFence h line) eqn:Hline.
    + split; [lia|]. intros H. inversion H; congruence.
    + rewrite IH by lia. split; [by constructor|]. by inversion 1.
Qed.

(** What [LoadFromString] does once the frontmatter text is known. *)
Definition parsed (frontmatterYAML body filePath : string) : Agent.Skill + error :=
  match yaml_Unmarshal h frontmatterYAML with
  | Agent.Failure cause => inr (ErrParse cause)
  | Agent.Success frontmatter =>
      if String.eqb (fm_Name frontmatter) "" then inr ErrNoName
      else if String.eqb (fm_Description frontmatter) "" then inr ErrNoDescription
      else inl {| Agent.skill_Name := fm_Name frontmatter;
                  Agent.skill_Description := fm_Description frontmatter;
                  Agent.skill_Content := body;
                  Agent.skill_FilePath := filePath |}
  end.

(** [LoadFromString] on a text whose lines are a fence, lines that are
    not fences, a fence, and the lines of the body. *)
Lemma LoadFromString_lines (content filePath first fence : string)
    (before after : list string) :
  Split content = first :: before ++ fence :: after ->
  isFence h first = true ->
  Forall (fun line => isFence h line = false) before ->
  isFence h fence = true ->
  LoadFromString h content filePath
    = parsed (Join before)
        (match after with [] => "" | _ => TrimLeftNewlines (Join after) end) filePath.
Proof.
  intros Hsplit Hfirst Hbefore Hfence. unfold LoadFromString. rewrite Hsplit.
  replace (len (first :: before ++ fence :: after) =? 0) with false
    by (symmetry; apply Z.eqb_neq; unfold len; cbn; lia).
  change ((first :: before ++ fence :: after) !! 0%nat) with (Some first).
  cbn [default]. unfold id. rewrite Hfirst. cbn [negb].
  change (drop 1 (first :: before ++ fence :: after)) with (drop 0 (before ++ fence :: after)).
  rewrite drop_0, (findFence_found 1 before fence after Hbefore Hfence).
  replace (1 + len before =? -1) with false
    by (symmetry; apply Z.eqb_neq; unfold len; lia).
  replace (subslice (first :: before ++ fence :: after) 1 (1 + len before)) with before.
  2:{ unfold subslice, len.
      replace (Z.to_nat (1 + Z.of_nat (length before) - 1)) with (length before) by lia.
      replace (Z.to_nat 1) with 1%nat by lia.
      change (drop 1 (first :: before ++ fence :: after))
        with (drop 0 (before ++ fence :: after)).
      by rewrite drop_0, take_app_length. }
  replace (subslice (first :: before ++ fence :: after) (1 + len before + 1)
             (len (first :: before ++ fence :: after))) with after.
  2:{ unfold subslice, len. cbn [length]. rewrite length_app. cbn [length].
      replace (Z.to_nat (1 + Z.of_nat (length before) + 1))
        with (S (length before + 1)) by lia.
      change (drop (S (length before + 1)) (first :: before ++ fence :: after))
        with (drop (length before + 1) (before ++ fence :: after)).
      rewrite drop_app_ge by lia.
      replace (length before + 1 - length before)%nat with 1%nat by lia.
      change (drop 1 (fence :: after)) with (drop 0 after). rewrite drop_0.
      symmetry. apply take_ge. lia. }
  unfold parsed. destruct (yaml_Unmarshal h (Join before)) as [fm|cause]; [|done].
  destruct (String.eqb (fm_Name fm) ""); [done|].
  destruct (String.eqb (fm_Description fm) ""); [done|].
  do 2 f_equal. destruct after as [|line after].
  - replace (1 + len before + 1 <? len (first :: before ++ [fence])) with false; [done|].
    symmetry. apply Z.ltb_ge. unfold len. cbn [length]. rewrite length_app. cbn. lia.
  - replace (1 + len before + 1 <? len (first :: before ++ fence :: line :: after))
      with true; [done|].
    symmetry. apply Z.ltb_lt. unfold len. cbn [length]. rewrite length_app. cbn. lia.
Qed.

(** For a text made of an opening fence line, frontmatter lines none of
    which is a fence, a closing fence line and a body, [LoadFromString]
    hands the YAML parser exactly the frontmatter text, and on success the
    skill has the parsed name and description (both checked not to be
    empty), the given file path, and as content exactly the body without
    its leading line feeds; when the text ends with the closing fence the
    content is empty. *)
Theorem LoadFromString_reads_frontmatter_and_body
    (opening yaml closing body filePath : string) :
  hasNewline opening = false -> isFence h opening = true ->
  Forall (fun line => isFence h line = false) (Split yaml) ->
  hasNewline closing = false -> isFence h closing = true ->
  LoadFromString h (opening +:+ nl +:+ yaml +:+ nl +:+ closing +:+ nl +:+ body) filePath
    = parsed yaml (TrimLeftNewlines body) filePath
  /\ LoadFromString h (opening +:+ nl +:+ yaml +:+ nl +:+ closing) filePath
     = parsed yaml "" filePath.
Proof.
  intros Hopen Hfence1 Hyaml Hclose Hfence2. split.
  - rewrite (LoadFromString_lines _ filePath opening closing (Split yaml) (Split body));
      try done.
    + rewrite !Join_Split. pose proof (Split_nonempty body). by destruct (Split body).
    + by rewrite !Split_app, (Split_line opening Hopen), (Split_line closing Hclose).
  - rewrite (LoadFromString_lines _ filePath opening closing (Split yaml) []); try done.
    + by rewrite Join_Split.
    + by rewrite !Split_app, (Split_line opening Hopen), (Split_line closing Hclose).
Qed.

(** The errors of [LoadFromString] that do not depend on the YAML: the
    error for an empty content is never returned, since a text always has
    a first line; the first line not being a fence gives the
    missing-frontmatter error; a fence with no fence after it gives the
    unclosed-frontmatter error; and these are the only cases in which the
    two errors are returned. *)
Theorem LoadFromString_fence_errors (content filePath : string) :
  LoadFromString h content filePath <> inr ErrEmpty
  /\ exists first rest,
       Split content = first :: rest
       /\ (LoadFromString h content filePath = inr ErrNoFrontmatter
           <-> isFence h first = false)
       /\ (LoadFromString h content filePath = inr ErrUnclosed
           <-> isFence h first = true
               /\ Forall (fun line => isFence h line = false) rest).
Proof.
  unfold LoadFromString.
  destruct (Split content) as [|first rest] eqn:E; [by apply Split_nonempty in E|].
  replace (len (first :: rest) =? 0) with false
    by (symmetry; apply Z.eqb_neq; unfold len; cbn; lia).
  change (default "" ((first :: rest) !! 0%nat)) with first.
  change (drop 1 (first :: rest)) with (drop 0 rest). rewrite drop_0.
  pose proof (findFence_none 1 rest ltac:(lia)) as Hnone.
  destruct (isFence h first) eqn:Hf; cbn [negb].
  - destruct (Z.eqb_spec (findFence h 1 rest) (-1)) as [Hm|Hm].
    + split; [done|]. exists first, rest. rewrite Hf. split; [done|]. split; [done|].
      split; [intros _; split; [done|by apply Hnone]|done].
    + assert (Hrest : ~ Forall (fun line => isFence h line = false) rest)
        by (intros Hall; by apply Hnone in Hall).
      destruct (yaml_Unmarshal h _) as [fm|cause].
      * destruct (String.eqb (fm_Name fm) ""), (String.eqb (fm_Description fm) "");
          (split; [done|]); exists first, rest; rewrite Hf; (split; [done|]);
          (split; [done|]); (split; [done|]); by intros [_ ?].
      * split; [done|]. exists first, rest. rewrite Hf. split; [done|]. split; [done|].
        split; [done|]. by intros [_ ?].
  - split; [done|]. exists first, rest. rewrite Hf. split; [done|]. split; [done|].
    split; [done|]. by intros [? _].
Qed.

End SkillLoader.

(** A loader whose YAML parser takes the whole frontmatter for the
    description, on a skill of four lines. *)
Lemma LoadFromString_reads_frontmatter_and_body_witness :
  Skills.LoadFromString
    {| Skills.strings_TrimSpace := Demo.asciiTrimSpace;
       Skills.yaml_Unmarshal := fun text =>
         Agent.Success {| Skills.fm_Name := "demo"; Skills.fm_Description := text |} |}
    ("--- " +:+ nl +:+ "name: demo" +:+ nl +:+ "---" +:+ nl +:+ (nl +:+ "Body" +:+ nl))
    "skills/demo.md"
  = inl {| Agent.skill_Name := "demo"; Agent.skill_Description := "name: demo";
           Agent.skill_Content := "Body" +:+ nl; Agent.skill_FilePath := "skills/demo.md" |}.
Proof.
  destruct (LoadFromString_reads_frontmatter_and_body
              {| Skills.strings_TrimSpace := Demo.asciiTrimSpace;
                 Skills.yaml_Unmarshal := fun text =>
                   Agent.Success {| Skills.fm_Name := "demo";
                                    Skills.fm_Description := text |} |}
              "--- " "name: demo" "---" (nl +:+ "Body" +:+ nl) "skills/demo.md")
    as [Hload _].
  - reflexivity.
  - reflexivity.
  - repeat constructor.
  - reflexivity.
  - reflexivity.
  - rewrite Hload. reflexivity.
Defined.
